(** * dp1-feed, SQLite backend: key-value tables and the in-process write queue

    A shallow embedding of [storage/sqlite-kv.ts] (SqliteKVStorage,
    SqliteStorageProvider), [queue/sqlite-queue.ts] (SqliteQueue,
    SqliteQueueProvider), [env/sqlite.ts] (the two providers of the process)
    and [middleware/env-sqlite.ts] (the middleware that sets the environment
    of a request).

    The TypeScript code is a thin layer over SQL statements, so the embedding
    has two layers:
    - the engine: what SQLite (through better-sqlite3) does for the statements
      the code prepares (comparison of TEXT values, LIKE, ORDER BY, LIMIT,
      AUTOINCREMENT, UPDATE ... WHERE id = ?, IN (...), transactions), and
      what the JavaScript runtime does for [JSON.parse], [Map], truthiness
      and [||];
    - the methods of the classes and the functions of the two modules, written
      in a state-and-exception monad over the database or the process, one
      definition per method, named as in the source.

    Text is modelled as [string], read as the UTF-8 bytes SQLite stores
    (well-formed, without NUL). Integers of the queue table are modelled in
    [Z]: the 64-bit range of SQLite is far outside what the counters reach.
    Failures of the engine are modelled by a schedule that is part of the
    state, and by tables that do not exist; of its resource limits the number
    of parameters of a statement is modelled (32766, the default of the
    SQLite that better-sqlite3 bundles), the others (the longest LIKE pattern,
    the size of a row) are outside the model. A SELECT without ORDER BY gives
    its rows in the order of the primary key, the order in which SQLite walks
    the index it looks the keys up in. The timer of the processor is modelled
    by its firings, each run to its end.

    The process of [env/sqlite.ts] is modelled as a small heap: the
    connections that were opened, the queue provider objects, the timers that
    are set, and the two module variables, which hold references into them.
    What [new Database(path)] finds at a path is not known to the code; the
    process carries the outcomes of the openings to come. [JSON.stringify] is
    modelled for strings and for objects whose values are strings, which is
    what the middleware stringifies. *)

From Stdlib Require Import ZArith Ascii String List Permutation Sorted.
From stdpp Require Import base option list sorting gmap strings pretty.

Set Warnings "-register-all".

Local Open Scope string_scope.
Local Open Scope Z_scope.
Local Open Scope list_scope.

(** ** Text as SQLite sees it *)

Module Text.

Definition code (c : ascii) : N := N_of_ascii c.

(** ASCII upper-case letters are folded to lower case by LIKE and by the
    comparison of identifiers; no other byte is. *)
Definition is_upper (c : ascii) : bool :=
  ((65 <=? code c) && (code c <=? 90))%N.

Definition tolower (c : ascii) : ascii :=
  if is_upper c then ascii_of_N (code c + 32) else c.

Fixpoint lower (s : string) : string :=
  match s with
  | EmptyString => EmptyString
  | String c s' => String (tolower c) (lower s')
  end.

(** A continuation byte of a multi-byte UTF-8 character: 10xxxxxx. *)
Definition is_continuation (c : ascii) : bool :=
  ((128 <=? code c) && (code c <? 192))%N.

Fixpoint skip_continuation (s : string) : string :=
  match s with
  | EmptyString => EmptyString
  | String c s' => if is_continuation c then skip_continuation s' else s
  end.

(** Drop one character: one byte, and the continuation bytes after a lead
    byte of a multi-byte character. *)
Definition next_char (s : string) : option string :=
  match s with
  | EmptyString => None
  | String c s' =>
      Some (if (192 <=? code c)%N then skip_continuation s' else s')
  end.

Definition at_boundary (s : string) : bool :=
  match s with
  | EmptyString => true
  | String c _ => negb (is_continuation c)
  end.

(** Two bytes are equal for LIKE when they are the same byte, or both are
    ASCII and equal after case folding. *)
Definition nocase_eq (c d : ascii) : bool :=
  if ascii_dec c d then true
  else ((code c <? 128) && (code d <? 128))%N
       && bool_decide (tolower c = tolower d).

(** [like p s]: the SQL operator [s LIKE p] with the default settings (no
    ESCAPE clause, case-insensitive for ASCII): [%] stands for any
    sequence of characters, [_] for exactly one character, any other byte
    for itself up to ASCII case. *)
Fixpoint like (p : string) : string -> bool :=
  match p with
  | EmptyString => fun s => match s with EmptyString => true | _ => false end
  | String c p' =>
      if ascii_dec c "%" then
        fix star (s : string) : bool :=
          (at_boundary s && like p' s)
          || match s with
             | EmptyString => false
             | String _ s' => star s'
             end
      else if ascii_dec c "_" then
        fun s => match next_char s with
                 | Some s' => like p' s'
                 | None => false
                 end
      else
        fun s => match s with
                 | String d s' => nocase_eq c d && like p' s'
                 | EmptyString => false
                 end
  end.

(** The comparison [a > b] of two TEXT values under the default BINARY
    collation: byte-wise, a proper prefix being smaller. *)
Definition gt (a b : string) : bool := String.ltb b a.

End Text.

(** ** JavaScript values and [JSON.parse] *)

Module JS.

(** A JSON number is kept as the decimal it was written as: [m * 10^e]. *)
Inductive value : Type :=
| Undefined
| Null
| Bool (b : bool)
| Number (m e : Z)
| Str (s : string)
| Array (items : list value)
| Object (fields : list (string * value)).

(** A thrown value: an [Error] object with its name and message, or
    something that is not an [Error]. *)
Inductive exn : Type :=
| Error (name message : string)
| NotAnError.

Inductive completion (A : Type) : Type :=
| Normal (a : A)
| Throw (e : exn).
Arguments Normal {A} a.
Arguments Throw {A} e.

(** The decimal [m * 10^e] converts to the double 0 exactly when its
    magnitude is at most half the smallest subnormal, 2^-1075. *)
Definition number_is_zero (m e : Z) : bool :=
  if m =? 0 then true
  else if 0 <=? e then false
  else Z.abs m * 2 ^ 1075 <=? 10 ^ (- e).

(** ToBoolean. *)
Definition truthy (v : value) : bool :=
  match v with
  | Undefined | Null => false
  | Bool b => b
  | Number m e => negb (number_is_zero m e)
  | Str s => negb (String.eqb s "")
  | Array _ | Object _ => true
  end.

(** The last field of that name wins, as [JSON.parse] builds the object
    by successive definitions of the property. *)
Fixpoint lookup_field (name : string) (fields : list (string * value))
  : value :=
  match fields with
  | [] => Undefined
  | (k, v) :: rest =>
      match lookup_field name rest with
      | Undefined => if String.eqb k name then v else Undefined
      | found => found
      end
  end.

(** [v.name] for a property name that no built-in prototype defines (the
    code reads [operation], [id], [timestamp] and [success]). *)
Definition get_prop (v : value) (name : string) : completion value :=
  match v with
  | Null =>
      Throw (Error "TypeError"
        ("Cannot read properties of null (reading '" +:+ name +:+ "')"))
  | Undefined =>
      Throw (Error "TypeError"
        ("Cannot read properties of undefined (reading '" +:+ name +:+ "')"))
  | Object fields => Normal (lookup_field name fields)
  | _ => Normal Undefined
  end.

(** *** The JSON grammar (ECMA-404), by recursive descent *)

Definition is_ws (c : ascii) : bool :=
  match Text.code c with
  | 32%N | 9%N | 10%N | 13%N => true
  | _ => false
  end.

Fixpoint skip_ws (s : string) : string :=
  match s with
  | String c s' => if is_ws c then skip_ws s' else s
  | EmptyString => EmptyString
  end.

Definition digit (c : ascii) : option Z :=
  let n := Text.code c in
  if ((48 <=? n) && (n <=? 57))%N then Some (Z.of_N n - 48) else None.

Definition hex_digit (c : ascii) : option N :=
  let n := Text.code c in
  if ((48 <=? n) && (n <=? 57))%N then Some (n - 48)%N
  else if ((65 <=? n) && (n <=? 70))%N then Some (n - 55)%N
  else if ((97 <=? n) && (n <=? 102))%N then Some (n - 87)%N
  else None.

(** Reads digits, accumulating their value and counting them. *)
Fixpoint digits (s : string) (acc : Z) (count : Z) : Z * Z * string :=
  match s with
  | String c s' =>
      match digit c with
      | Some d => digits s' (10 * acc + d) (count + 1)
      | None => (acc, count, s)
      end
  | EmptyString => (acc, count, s)
  end.

(** One given character at the head of the input. *)
Definition eat (c : ascii) (s : string) : option string :=
  match s with
  | String d s' => if ascii_dec d c then Some s' else None
  | EmptyString => None
  end.

(** number = [-] int [frac] [exp]; a leading zero stands alone. *)
Definition parse_number (s : string) : option (value * string) :=
  let '(neg, s1) :=
    match eat "-" s with
    | Some s' => (true, s')
    | None => (false, s)
    end in
  match s1 with
  | String c rest =>
      match digit c with
      | None => None
      | Some d =>
          let '(ip, s2) :=
            if d =? 0 then (0, rest)
            else let '(v, _, r) := digits rest d 1 in (v, r) in
          let frac :=
            match eat "." s2 with
            | Some s3 =>
                let '(v, n, r) := digits s3 ip 0 in
                if n =? 0 then None else Some (v, n, r)
            | None => Some (ip, 0, s2)
            end in
          match frac with
          | None => None
          | Some (mant, fdigits, s4) =>
              let signed := if neg then - mant else mant in
              let exponent :=
                match eat "e" s4 with
                | Some s5 => Some s5
                | None => eat "E" s4
                end in
              match exponent with
              | Some s5 =>
                  let '(eneg, s6) :=
                    match eat "-" s5 with
                    | Some s' => (true, s')
                    | None =>
                        match eat "+" s5 with
                        | Some s' => (false, s')
                        | None => (false, s5)
                        end
                    end in
                  let '(ev, en, s7) := digits s6 0 0 in
                  if en =? 0 then None
                  else Some (Number signed
                               ((if eneg then - ev else ev) - fdigits), s7)
              | None => Some (Number signed (- fdigits), s4)
              end
          end
      end
  | EmptyString => None
  end.

(** UTF-8 encoding of a code point, for [\uXXXX] escapes. *)
Definition byte_of (n : N) : ascii := ascii_of_N (n mod 256).

Definition utf8 (cp : N) : string :=
  (if cp <? 128 then String (byte_of cp) ""
   else if cp <? 2048 then
     String (byte_of (192 + cp / 64)) (String (byte_of (128 + cp mod 64)) "")
   else if cp <? 65536 then
     String (byte_of (224 + cp / 4096))
       (String (byte_of (128 + (cp / 64) mod 64))
          (String (byte_of (128 + cp mod 64)) ""))
   else
     String (byte_of (240 + cp / 262144))
       (String (byte_of (128 + (cp / 4096) mod 64))
          (String (byte_of (128 + (cp / 64) mod 64))
             (String (byte_of (128 + cp mod 64)) ""))))%N.

Definition hex4 (s : string) : option (N * string) :=
  match s with
  | String a (String b (String c (String d rest))) =>
      match hex_digit a, hex_digit b, hex_digit c, hex_digit d with
      | Some x, Some y, Some z, Some w =>
          Some (((x * 16 + y) * 16 + z) * 16 + w, rest)%N
      | _, _, _, _ => None
      end
  | _ => None
  end.

Definition is_high_surrogate (u : N) : bool := ((55296 <=? u) && (u <? 56320))%N.
Definition is_low_surrogate (u : N) : bool := ((56320 <=? u) && (u <? 57344))%N.

(** The characters of a string literal after its opening quote, up to and
    including the closing quote. [pending] is a high surrogate read from
    the previous [\u] escape, waiting for its low half. *)
Fixpoint parse_chars (s : string) (pending : option N)
  : option (string * string) :=
  let flush (rest : option (string * string)) :=
    match pending, rest with
    | Some hi, Some (body, r) => Some (utf8 hi +:+ body, r)
    | _, _ => rest
    end in
  let emit (c : ascii) (tail : string) :=
    match parse_chars tail None with
    | Some (body, r) => flush (Some (String c body, r))
    | None => None
    end in
  match s with
  | EmptyString => None
  | String c s' =>
      if ascii_dec c "034"%char then flush (Some ("", s'))
      else if ascii_dec c "\" then
        match s' with
        | String k s'' =>
            if ascii_dec k "034"%char then emit "034"%char s''
            else if ascii_dec k "\" then emit "\"%char s''
            else if ascii_dec k "/" then emit "/"%char s''
            else if ascii_dec k "b" then emit (ascii_of_N 8) s''
            else if ascii_dec k "f" then emit (ascii_of_N 12) s''
            else if ascii_dec k "n" then emit (ascii_of_N 10) s''
            else if ascii_dec k "r" then emit (ascii_of_N 13) s''
            else if ascii_dec k "t" then emit (ascii_of_N 9) s''
            else if ascii_dec k "u" then
              match s'' with
              | String a (String b (String c4 (String d rest))) =>
                  match hex4 s'' with
                  | Some (u, _) =>
                      match pending with
                      | Some hi =>
                          if is_low_surrogate u then
                            match parse_chars rest None with
                            | Some (body, r) =>
                                Some (utf8 (65536 + (hi - 55296) * 1024
                                             + (u - 56320))%N +:+ body, r)
                            | None => None
                            end
                          else if is_high_surrogate u then
                            match parse_chars rest (Some u) with
                            | Some (body, r) => Some (utf8 hi +:+ body, r)
                            | None => None
                            end
                          else
                            match parse_chars rest None with
                            | Some (body, r) =>
                                Some (utf8 hi +:+ utf8 u +:+ body, r)
                            | None => None
                            end
                      | None =>
                          if is_high_surrogate u then parse_chars rest (Some u)
                          else
                            match parse_chars rest None with
                            | Some (body, r) => Some (utf8 u +:+ body, r)
                            | None => None
                            end
                      end
                  | None => None
                  end
              | _ => None
              end
            else None
        | EmptyString => None
        end
      else if (Text.code c <? 32)%N then None
      else emit c s'
  end.

Definition parse_string (s : string) : option (string * string) :=
  match eat "034" s with
  | Some s' => parse_chars s' None
  | None => None
  end.

Definition expect (lit : string) (v : value) (s : string)
  : option (value * string) :=
  if String.prefix lit s
  then Some (v, String.substring (String.length lit)
                  (String.length s - String.length lit) s)
  else None.

(** [parse_value fuel s] reads one value at the head of [s] (after white
    space) and returns it with the rest of the input. Of two nested calls at
    least one comes after a character has been consumed, so a fuel of more
    than twice the length of the input is never exhausted. *)
Fixpoint parse_value (fuel : nat) (s : string) : option (value * string) :=
  match fuel with
  | O => None
  | S fuel' =>
      match skip_ws s with
      | EmptyString => None
      | String c rest as s0 =>
          if ascii_dec c "{" then
            let r := skip_ws rest in
            match eat "}" r with
            | Some r' => Some (Object [], r')
            | None =>
                match parse_members fuel' r with
                | Some (fs, r') => Some (Object fs, r')
                | None => None
                end
            end
          else if ascii_dec c "[" then
            let r := skip_ws rest in
            match eat "]" r with
            | Some r' => Some (Array [], r')
            | None =>
                match parse_elements fuel' r with
                | Some (vs, r') => Some (Array vs, r')
                | None => None
                end
            end
          else if ascii_dec c "034"%char then
            match parse_string s0 with
            | Some (str, r) => Some (Str str, r)
            | None => None
            end
          else if ascii_dec c "t" then expect "true" (Bool true) s0
          else if ascii_dec c "f" then expect "false" (Bool false) s0
          else if ascii_dec c "n" then expect "null" Null s0
          else parse_number s0
      end
  end
with parse_elements (fuel : nat) (s : string)
  : option (list value * string) :=
  match fuel with
  | O => None
  | S fuel' =>
      match parse_value fuel' s with
      | None => None
      | Some (v, r) =>
          match eat "," (skip_ws r) with
          | Some r' =>
              match parse_elements fuel' r' with
              | Some (vs, r'') => Some (v :: vs, r'')
              | None => None
              end
          | None =>
              match eat "]" (skip_ws r) with
              | Some r' => Some ([v], r')
              | None => None
              end
          end
      end
  end
with parse_members (fuel : nat) (s : string)
  : option (list (string * value) * string) :=
  match fuel with
  | O => None
  | S fuel' =>
      match parse_string (skip_ws s) with
      | None => None
      | Some (k, r) =>
          match eat ":" (skip_ws r) with
          | None => None
          | Some r1 =>
              match parse_value fuel' r1 with
              | None => None
              | Some (v, r2) =>
                  match eat "," (skip_ws r2) with
                  | Some r3 =>
                      match parse_members fuel' r3 with
                      | Some (fs, r4) => Some ((k, v) :: fs, r4)
                      | None => None
                      end
                  | None =>
                      match eat "}" (skip_ws r2) with
                      | Some r3 => Some ([(k, v)], r3)
                      | None => None
                      end
                  end
              end
          end
      end
  end.

(** [JSON.parse(text)]: one value, then only white space. The text of the
    SyntaxError depends on the runtime and on the input; the model keeps a
    single text for it. *)
Definition JSON_parse (text : string) : completion value :=
  match parse_value (2 * String.length text + 1) text with
  | Some (v, rest) =>
      match skip_ws rest with
      | EmptyString => Normal v
      | _ => Throw (Error "SyntaxError" "Unexpected token in JSON")
      end
  | None => Throw (Error "SyntaxError" "Unexpected token in JSON")
  end.

(** *** [JSON.stringify], on strings and on objects of strings *)

Definition hex_char (n : N) : ascii :=
  ascii_of_N (if n <? 10 then 48 + n else 87 + n)%N.

(** QuoteJSONString without its quotes: the two-character escapes of the
    quote, the backslash and of backspace, tab, line feed, form feed and
    carriage return; [\u00XX] for the other control characters; any other
    byte as it is. *)
Fixpoint quote_chars (s : string) : string :=
  match s with
  | EmptyString => EmptyString
  | String c s' =>
      let n := Text.code c in
      (if ascii_dec c "034"%char then String "\" (String "034" EmptyString)
       else if ascii_dec c "\" then String "\" (String "\" EmptyString)
       else if (n =? 8)%N then String "\" (String "b" EmptyString)
       else if (n =? 9)%N then String "\" (String "t" EmptyString)
       else if (n =? 10)%N then String "\" (String "n" EmptyString)
       else if (n =? 12)%N then String "\" (String "f" EmptyString)
       else if (n =? 13)%N then String "\" (String "r" EmptyString)
       else if (n <? 32)%N then
         String "\" (String "u" (String "0" (String "0"
           (String (hex_char (n / 16)) (String (hex_char (n mod 16))
              EmptyString)))))
       else String c EmptyString)
      +:+ quote_chars s'
  end.

Definition quote (s : string) : string :=
  String "034" (quote_chars s +:+ String "034" EmptyString).

(** The members of an object, property by property. *)
Fixpoint stringify_members (fields : list (string * string)) : string :=
  match fields with
  | [] => EmptyString
  | [(k, v)] => quote k +:+ ":" +:+ quote v
  | (k, v) :: rest => quote k +:+ ":" +:+ quote v +:+ "," +:+ stringify_members rest
  end.

(** [JSON.stringify(o)] for an object [o] whose own properties, in the order
    they were defined, are [fields], all with string values (names that are
    array indices would come first; the code has none). *)
Definition stringify_record (fields : list (string * string)) : string :=
  "{" +:+ stringify_members fields +:+ "}".

End JS.

(** ** State and exceptions *)

(** A computation of the program over a state [S]: it ends normally with a
    result or by a thrown exception, and leaves a state behind either way.
    An [async] method is modelled by the same type: its promise resolves with
    the result or rejects with the exception. *)
Definition M (S A : Type) : Type := S -> JS.completion A * S.

Definition ret {S A} (a : A) : M S A := fun s => (JS.Normal a, s).

Definition throw {S A} (e : JS.exn) : M S A := fun s => (JS.Throw e, s).

Definition bind {S A B} (m : M S A) (k : A -> M S B) : M S B :=
  fun s =>
    match m s with
    | (JS.Normal a, s') => k a s'
    | (JS.Throw e, s') => (JS.Throw e, s')
    end.

(** [try { body } catch (error) { handler }]. *)
Definition try_catch {S A} (body : M S A) (handler : JS.exn -> M S A) : M S A :=
  fun s =>
    match body s with
    | (JS.Normal a, s') => (JS.Normal a, s')
    | (JS.Throw e, s') => handler e s'
    end.

(** A pure step of the runtime that may throw. *)
Definition lift {S A} (c : JS.completion A) : M S A := fun s => (c, s).

Notation "'let*' x ':=' m 'in' k" := (bind m (fun x => k))
  (at level 10, x name, m at level 100, k at level 200).
Notation "m ;;; k" := (bind m (fun _ => k))
  (at level 100, k at level 200, right associativity).

(** [for (const x of xs) { body }]. *)
Fixpoint for_of {S A} (xs : list A) (body : A -> M S unit) : M S unit :=
  match xs with
  | [] => ret tt
  | x :: rest => body x ;;; for_of rest body
  end.

(** [for (const x of xs) { body }] where the body updates a local object:
    the object is threaded through the iterations. *)
Fixpoint for_of_with {S A B} (xs : list A) (acc : B) (body : B -> A -> M S B)
  : M S B :=
  match xs with
  | [] => ret acc
  | x :: rest => let* acc' := body acc x in for_of_with rest acc' body
  end.

(** A [Map] with string keys: its entries in insertion order. [set] on a key
    that is there replaces the value in place. *)
Module JSMap.

Definition t (V : Type) : Type := list (string * V).

Definition empty {V} : t V := [].

Fixpoint set {V} (key : string) (value : V) (m : t V) : t V :=
  match m with
  | [] => [(key, value)]
  | (k, v) :: rest =>
      if String.eqb k key then (k, value) :: rest
      else (k, v) :: set key value rest
  end.

Fixpoint get {V} (key : string) (m : t V) : option V :=
  match m with
  | [] => None
  | (k, v) :: rest => if String.eqb k key then Some v else get key rest
  end.

Definition has {V} (key : string) (m : t V) : bool :=
  match get key m with
  | Some _ => true
  | None => false
  end.

Definition size {V} (m : t V) : nat := length m.

End JSMap.

(** ** The database *)

(** A row of [write_queue], column by column. *)
Record QueueRow : Type := mkRow {
  row_id : Z;
  row_queue_name : string;
  row_message : string;
  row_created_at : Z;
  row_processed : Z;
  row_attempts : Z;
  row_max_attempts : Z;
  row_last_error : option string
}.

(** The one database handle the storage provider opens and the queue
    provider borrows.
    - [tables]: the key-value tables by their name in canonical form, each a
      map from the primary key [key] to [value]; a name that is not bound is
      a table that does not exist (never created, or dropped);
    - [write_queue]: the rows of the queue table;
    - [write_queue_seq]: the largest id AUTOINCREMENT has handed out;
    - [now]: the reading of the clock, in milliseconds;
    - [faults]: what the engine will do on the coming statements, one entry
      per statement, [true] for a statement that fails (disk full, I/O
      error, lock); past the end of the list no statement fails. *)
Record Database : Type := mkDatabase {
  tables : gmap string (gmap string string);
  write_queue : list QueueRow;
  write_queue_seq : Z;
  now : Z;
  faults : list bool
}.

Definition set_tables (t : gmap string (gmap string string)) (db : Database)
  : Database :=
  mkDatabase t (write_queue db) (write_queue_seq db) (now db) (faults db).

Definition set_write_queue (q : list QueueRow) (db : Database) : Database :=
  mkDatabase (tables db) q (write_queue_seq db) (now db) (faults db).

Definition set_write_queue_seq (n : Z) (db : Database) : Database :=
  mkDatabase (tables db) (write_queue db) n (now db) (faults db).

Definition set_faults (f : list bool) (db : Database) : Database :=
  mkDatabase (tables db) (write_queue db) (write_queue_seq db) (now db) f.

Module Sqlite.

Definition error (msg : string) : JS.exn := JS.Error "SqliteError" msg.

(** Names of tables are compared without regard to ASCII case. *)
Definition canonical (tableName : string) : string := Text.lower tableName.

(** Every execution of a statement goes through the engine, which may
    fail it. *)
Definition step : M Database unit :=
  fun db =>
    match faults db with
    | [] => (JS.Normal tt, db)
    | false :: rest => (JS.Normal tt, set_faults rest db)
    | true :: rest =>
        (JS.Throw (error "disk I/O error"), set_faults rest db)
    end.

(** The rows of a key-value table, or the error of a statement on a table
    that does not exist. *)
Definition table (tableName : string) : M Database (gmap string string) :=
  fun db =>
    match tables db !! canonical tableName with
    | Some t => (JS.Normal t, db)
    | None => (JS.Throw (error ("no such table: " +:+ tableName)), db)
    end.

Definition write_table (tableName : string) (t : gmap string string)
  : M Database unit :=
  fun db =>
    (JS.Normal tt, set_tables (<[canonical tableName := t]> (tables db)) db).

(** [LIMIT n]: a negative [n] is no limit. *)
Definition limit {A} (n : Z) (rows : list A) : list A :=
  if n <? 0 then rows else take (Z.to_nat n) rows.

(** [ORDER BY key ASC] on TEXT keys. *)
Definition order_by_key (keys : list string) : list string :=
  merge_sort String.le keys.

Definition id_le (r1 r2 : QueueRow) : Prop := row_id r1 <= row_id r2.

Global Instance id_le_dec : RelDecision id_le.
Proof. intros r1 r2. unfold id_le. apply _. Defined.

(** [ORDER BY id ASC]. *)
Definition order_by_id (rows : list QueueRow) : list QueueRow :=
  merge_sort id_le rows.

(** The largest number of [?] parameters of one statement
    (SQLITE_MAX_VARIABLE_NUMBER, as the engine is built by default). *)
Definition max_variable_number : Z := 32766.

Definition key_le (r1 r2 : string * string) : Prop := String.le r1.1 r2.1.

Global Instance key_le_dec : RelDecision key_le.
Proof. intros r1 r2. unfold key_le. apply _. Defined.

(** The rows of a table as a search on the index of [key] visits them:
    by ascending key. *)
Definition by_key (rows : gmap string string) : list (string * string) :=
  merge_sort key_le (map_to_list rows).

(** [CREATE TABLE IF NOT EXISTS "tableName" (key TEXT PRIMARY KEY,
    value TEXT NOT NULL)]. *)
Definition create_table_if_not_exists (tableName : string)
  : M Database unit :=
  step ;;;
  fun db =>
    match tables db !! canonical tableName with
    | Some _ => (JS.Normal tt, db)
    | None =>
        (JS.Normal tt,
         set_tables (<[canonical tableName := ∅]> (tables db)) db)
    end.

(** [DROP TABLE "tableName"], as the tests of the failure paths do. *)
Definition drop_table (tableName : string) : M Database unit :=
  step ;;;
  (let* _ := table tableName in
   fun db =>
     (JS.Normal tt,
      set_tables (delete (canonical tableName) (tables db)) db)).

(** What a rolled-back transaction leaves: the data as it was when the
    transaction began; the engine keeps going from where it is. *)
Definition rollback (snapshot current : Database) : Database :=
  set_faults (faults current) snapshot.

(** [db.transaction(fn)(args)] of better-sqlite3: BEGIN, the body, COMMIT;
    when the body or the COMMIT throws, ROLLBACK and throw again. *)
Definition transaction {A} (body : M Database A) : M Database A :=
  fun db =>
    match step db with
    | (JS.Throw e, db1) => (JS.Throw e, db1)
    | (JS.Normal _, db1) =>
        match body db1 with
        | (JS.Throw e, db2) => (JS.Throw e, rollback db1 db2)
        | (JS.Normal a, db2) =>
            match step db2 with
            | (JS.Throw e, db3) => (JS.Throw e, rollback db1 db3)
            | (JS.Normal _, db3) => (JS.Normal a, db3)
            end
        end
    end.

End Sqlite.

(** ** storage/sqlite-kv.ts *)

Module KVGetOptions.
Record t : Type := mk { type : option string }.
End KVGetOptions.

Module KVListOptions.
Record t : Type := mk {
  prefix : option string;
  limit : option Z;
  cursor : option string
}.
End KVListOptions.

Module KVListResult.
(** [keys] holds the [name] of each [{ name: row.key }]. *)
Record t : Type := mk {
  keys : list string;
  list_complete : bool;
  cursor : option string
}.
End KVListResult.

Module SqliteKVStorage.

(** The object: its table name; the handle [db] is the state of [M]. *)
Record t : Type := mk { tableName : string }.

Definition constructor (tableName : string) : M Database t :=
  Sqlite.create_table_if_not_exists tableName ;;;
  ret (mk tableName).

(** [SELECT value FROM "tableName" WHERE key = ?], first row. *)
Definition stmtGet_get (this : t) (key : string)
  : M Database (option string) :=
  Sqlite.step ;;;
  (let* rows := Sqlite.table (tableName this) in
   ret (rows !! key)).

(** [INSERT OR REPLACE INTO "tableName" (key, value) VALUES (?, ?)]. *)
Definition stmtPut_run (this : t) (key value : string) : M Database unit :=
  Sqlite.step ;;;
  (let* rows := Sqlite.table (tableName this) in
   Sqlite.write_table (tableName this) (<[key := value]> rows)).

(** [DELETE FROM "tableName" WHERE key = ?]. *)
Definition stmtDelete_run (this : t) (key : string) : M Database unit :=
  Sqlite.step ;;;
  (let* rows := Sqlite.table (tableName this) in
   Sqlite.write_table (tableName this) (delete key rows)).

(** [WHERE key LIKE ?] and, with a cursor, [AND key > ?]. *)
Definition where_clause (pattern : string) (after : option string)
    (key : string) : bool :=
  Text.like pattern key
  && match after with
     | Some c => Text.gt key c
     | None => true
     end.

(** [SELECT key FROM "tableName" WHERE key LIKE ? (AND key > ?)
    ORDER BY key ASC LIMIT ?]. *)
Definition select_keys (this : t) (pattern : string)
    (after : option string) (limit : Z) : M Database (list string) :=
  Sqlite.step ;;;
  (let* rows := Sqlite.table (tableName this) in
   let matching :=
     filter (fun k => where_clause pattern after k = true)
            (fst <$> map_to_list rows) in
   ret (Sqlite.limit limit (Sqlite.order_by_key matching))).

Definition get (this : t) (key : string) (options : option KVGetOptions.t)
  : M Database JS.value :=
  let* row := stmtGet_get this key in
  match row with
  | None => ret JS.Null
  | Some value =>
      match options with
      | Some (KVGetOptions.mk (Some "json")) =>
          try_catch (lift (JS.JSON_parse value)) (fun parseError => throw parseError)
      | _ => ret (JS.Str value)
      end
  end.

(** [SELECT key, value FROM "tableName" WHERE key IN (?, ..., ?)], one
    parameter per key asked for: each row whose key is among them, once. *)
Definition select_in (this : t) (keys : list string)
  : M Database (list (string * string)) :=
  if Z.of_nat (length keys) <=? Sqlite.max_variable_number then
    Sqlite.step ;;;
    (let* rows := Sqlite.table (tableName this) in
     ret (filter (fun row => row.1 ∈ keys) (Sqlite.by_key rows)))
  else throw (Sqlite.error "too many SQL variables").

(** [options?.type === 'json']. *)
Definition type_is_json (options : option KVGetOptions.t) : bool :=
  match options with
  | Some (KVGetOptions.mk (Some "json")) => true
  | _ => false
  end.

Definition getMultiple (this : t) (keys : list string)
    (options : option KVGetOptions.t) : M Database (JSMap.t JS.value) :=
  let resultMap := JSMap.empty in
  match keys with
  | [] => ret resultMap
  | _ =>
      let* rows := select_in this keys in
      for_of_with rows resultMap (fun resultMap row =>
        if type_is_json options then
          try_catch
            (let* parsed := lift (JS.JSON_parse row.2) in
             ret (JSMap.set row.1 parsed resultMap))
            (fun parseError => throw parseError)
        else ret (JSMap.set row.1 (JS.Str row.2) resultMap))
  end.

Definition put (this : t) (key value : string) : M Database unit :=
  stmtPut_run this key value.

Definition putMultiple (this : t) (entries : list (string * string))
  : M Database (list string) :=
  match entries with
  | [] => ret []
  | [(key, value)] => put this key value ;;; ret []
  | _ =>
      let transaction (items : list (string * string)) :=
        Sqlite.transaction
          (for_of items (fun item => stmtPut_run this (fst item) (snd item))) in
      try_catch
        (transaction entries ;;; ret [])
        (fun error => ret (fst <$> entries))
  end.

Definition delete (this : t) (key : string) : M Database unit :=
  stmtDelete_run this key.

Definition deleteMultiple (this : t) (keys : list string)
  : M Database (list string) :=
  match keys with
  | [] => ret []
  | [key] => delete this key ;;; ret []
  | _ =>
      let transaction (deleteKeys : list string) :=
        Sqlite.transaction
          (for_of deleteKeys (fun key => stmtDelete_run this key)) in
      try_catch
        (transaction keys ;;; ret [])
        (fun error => ret keys)
  end.

(** [a || b] on an optional string: the empty string is falsy. *)
Definition or_string (a : option string) (b : string) : string :=
  match a with
  | Some s => if String.eqb s "" then b else s
  | None => b
  end.

(** [a || b] on an optional integer: 0 is falsy. *)
Definition or_number (a : option Z) (b : Z) : Z :=
  match a with
  | Some n => if n =? 0 then b else n
  | None => b
  end.

Definition list (this : t) (options : option KVListOptions.t)
  : M Database KVListResult.t :=
  let prefix := or_string (options ≫= KVListOptions.prefix) "" in
  let limit := or_number (options ≫= KVListOptions.limit) 1000 in
  let after :=
    match options ≫= KVListOptions.cursor with
    | Some c => if String.eqb c "" then None else Some c
    | None => None
    end in
  let* rows := select_keys this (prefix +:+ "%") after limit in
  let keys := rows in
  let hasMore := Z.of_nat (length rows) =? limit in
  let cursor :=
    if hasMore && (0 <? Z.of_nat (length rows)) then last rows else None in
  ret (KVListResult.mk keys (negb hasMore) cursor).

End SqliteKVStorage.

Module SqliteStorageProvider.

Record t : Type := mk {
  playlistStorage : SqliteKVStorage.t;
  channelStorage : SqliteKVStorage.t;
  playlistItemStorage : SqliteKVStorage.t
}.

Definition constructor : M Database t :=
  let* p := SqliteKVStorage.constructor "playlists" in
  let* c := SqliteKVStorage.constructor "channels" in
  let* i := SqliteKVStorage.constructor "playlist_items" in
  ret (mk p c i).

End SqliteStorageProvider.

(** ** queue/sqlite-queue.ts *)

(** What [stmtFetch] selects of a row: [id, message, attempts]. *)
Module PendingRow.
Record t : Type := mk {
  id : Z;
  message : string;
  attempts : Z
}.
End PendingRow.

Module SqliteQueue.

Record t : Type := mk { name : string }.

(** The table and its index are created with IF NOT EXISTS; the table is
    part of every [Database], so only the two statements remain. *)
Definition constructor (name : string) : M Database t :=
  Sqlite.step ;;; Sqlite.step ;;; ret (mk name).

(** [INSERT INTO write_queue (queue_name, message) VALUES (?, ?)]: the
    other columns take their defaults, the id is one more than the largest
    ever handed out. *)
Definition stmtInsert_run (queue_name message : string) : M Database unit :=
  Sqlite.step ;;;
  fun db =>
    let new_id := write_queue_seq db + 1 in
    let row := mkRow new_id queue_name message (now db) 0 0 3 None in
    (JS.Normal tt,
     set_write_queue_seq new_id
       (set_write_queue (write_queue db ++ [row]) db)).

Definition project (r : QueueRow) : PendingRow.t :=
  PendingRow.mk (row_id r) (row_message r) (row_attempts r).

(** [WHERE processed = 0 AND queue_name = ?]. *)
Definition is_pending (queue_name : string) (r : QueueRow) : bool :=
  (row_processed r =? 0) && String.eqb (row_queue_name r) queue_name.

(** [SELECT id, message, attempts FROM write_queue WHERE processed = 0
    AND queue_name = ? ORDER BY id ASC LIMIT ?]. *)
Definition stmtFetch_all (queue_name : string) (limit : Z)
  : M Database (list PendingRow.t) :=
  Sqlite.step ;;;
  fun db =>
    let rows :=
      filter (fun r => is_pending queue_name r = true) (write_queue db) in
    (JS.Normal (project <$> Sqlite.limit limit (Sqlite.order_by_id rows)),
     db).

(** [UPDATE write_queue SET ... WHERE id = ?]: the assignments read the
    row as it was before the update. *)
Definition update_rows (id : Z) (set : QueueRow -> QueueRow)
    (rows : list QueueRow) : list QueueRow :=
  (fun r => if row_id r =? id then set r else r) <$> rows.

Definition update_where_id (id : Z) (set : QueueRow -> QueueRow)
  : M Database unit :=
  fun db =>
    (JS.Normal tt,
     set_write_queue (update_rows id set (write_queue db)) db).

(** [SET processed = 1]. *)
Definition set_processed (r : QueueRow) : QueueRow :=
  mkRow (row_id r) (row_queue_name r) (row_message r) (row_created_at r)
    1 (row_attempts r) (row_max_attempts r) (row_last_error r).

(** [SET attempts = attempts + 1, last_error = ?, processed = CASE WHEN
    attempts + 1 >= max_attempts THEN -1 ELSE 0 END]. *)
Definition set_failed (error : string) (r : QueueRow) : QueueRow :=
  mkRow (row_id r) (row_queue_name r) (row_message r) (row_created_at r)
    (if row_attempts r + 1 >=? row_max_attempts r then -1 else 0)
    (row_attempts r + 1) (row_max_attempts r) (Some error).

Definition stmtMarkProcessed_run (id : Z) : M Database unit :=
  Sqlite.step ;;; update_where_id id set_processed.

Definition stmtMarkFailed_run (error : string) (id : Z) : M Database unit :=
  Sqlite.step ;;; update_where_id id (set_failed error).

(** [messageData] is the text that is stored: the message itself when it
    is a string, [JSON.stringify(message)] otherwise. *)
Definition send (this : t) (messageData : string) : M Database unit :=
  stmtInsert_run (name this) messageData.

Definition getName (this : t) : string := name this.

Definition fetchPending (this : t) (limit : option Z)
  : M Database (list PendingRow.t) :=
  let limit := default 10 limit in
  stmtFetch_all (name this) limit.

Definition markProcessed (this : t) (id : Z) : M Database unit :=
  stmtMarkProcessed_run id.

Definition markFailed (this : t) (id : Z) (error : string)
  : M Database unit :=
  stmtMarkFailed_run error id.

End SqliteQueue.

(** The state of an entry, read off the [processed] column. *)
Inductive EntryState : Type := Pending | Processed | Dead.

Definition entry_state (r : QueueRow) : option EntryState :=
  if row_processed r =? 0 then Some Pending
  else if row_processed r =? 1 then Some Processed
  else if row_processed r =? -1 then Some Dead
  else None.

(** The row of an id. *)
Definition find_row (id : Z) (db : Database) : option QueueRow :=
  List.find (fun r => row_id r =? id) (write_queue db).

(** *** The processor and what it talks to *)

Module Request.
Record t : Type := mk {
  url : string;
  method : string;
  headers : list (string * string);
  body : string
}.
End Request.

Module Response.
Record t : Type := mk {
  ok : bool;
  status : Z;
  text : string
}.
End Response.

(** What a call of [fetch] comes to: a rejection (network failure) or a
    response. *)
Inductive FetchOutcome : Type :=
| Rejects (e : JS.exn)
| Resolves (r : Response.t).

(** The process as the processor sees it: the database, what the endpoint
    will answer to the coming requests, and the requests made so far. *)
Record World : Type := mkWorld {
  database : Database;
  network : list FetchOutcome;
  requests : list Request.t
}.

Definition on_database {A} (m : M Database A) : M World A :=
  fun w =>
    let '(r, db) := m (database w) in
    (r, mkWorld db (network w) (requests w)).

(** [await fetch(url, init)]: the request goes out, the next outcome comes
    back; with nothing left to answer, the connection fails. *)
Definition fetch (req : Request.t) : M World Response.t :=
  fun w =>
    match network w with
    | [] =>
        (JS.Throw (JS.Error "TypeError" "fetch failed"),
         mkWorld (database w) [] (requests w ++ [req]))
    | Rejects e :: rest =>
        (JS.Throw e, mkWorld (database w) rest (requests w ++ [req]))
    | Resolves r :: rest =>
        (JS.Normal r, mkWorld (database w) rest (requests w ++ [req]))
    end.

Module SqliteQueueProvider.

Record t : Type := mk {
  writeQueue : SqliteQueue.t;
  processing : bool;
  serverUrl : string;
  apiSecret : string
}.

Definition constructor : M Database t :=
  let* q := SqliteQueue.constructor "DP1_WRITE_QUEUE" in
  ret (mk q false "" "").

Definition getWriteQueue (this : t) : SqliteQueue.t := writeQueue this.

(** [!messageData.operation || !messageData.id || !messageData.timestamp],
    evaluated left to right. *)
Definition lacks_markers {S} (messageData : JS.value) : M S bool :=
  let* operation := lift (JS.get_prop messageData "operation") in
  if negb (JS.truthy operation) then ret true
  else
    let* id := lift (JS.get_prop messageData "id") in
    if negb (JS.truthy id) then ret true
    else
      let* timestamp := lift (JS.get_prop messageData "timestamp") in
      ret (negb (JS.truthy timestamp)).

(** [error instanceof Error ? error.message : 'Unknown error']. *)
Definition error_message (error : JS.exn) : string :=
  match error with
  | JS.Error _ message => message
  | JS.NotAnError => "Unknown error"
  end.

(** The body of the loop of [processPendingMessages] for one row. *)
Definition process_row (this : t) (row : PendingRow.t) : M World unit :=
  try_catch
    (let* messageData := lift (JS.JSON_parse (PendingRow.message row)) in
     let* invalid := lacks_markers messageData in
     if invalid then
       on_database
         (SqliteQueue.markFailed (writeQueue this) (PendingRow.id row)
            "Invalid message format")
     else
       let headers :=
         ([("Content-Type", "application/json")]
          ++ (if negb (String.eqb (apiSecret this) "")
              then [("Authorization", "Bearer " +:+ apiSecret this)]
              else []))%list in
       let* response :=
         fetch (Request.mk (serverUrl this +:+ "/queues/process-message")
                  "POST" headers (PendingRow.message row)) in
       if negb (Response.ok response) then
         let errorText := Response.text response in
         on_database
           (SqliteQueue.markFailed (writeQueue this) (PendingRow.id row)
              ("HTTP " +:+ pretty (Response.status response) +:+ ": " +:+ errorText))
       else
         let* result := lift (JS.JSON_parse (Response.text response)) in
         let* success := lift (JS.get_prop result "success") in
         if JS.truthy success then
           on_database (SqliteQueue.markProcessed (writeQueue this) (PendingRow.id row))
         else
           on_database
             (SqliteQueue.markFailed (writeQueue this) (PendingRow.id row)
                "Processing returned success=false"))
    (fun error =>
       on_database
         (SqliteQueue.markFailed (writeQueue this) (PendingRow.id row)
            (error_message error))).

Definition processPendingMessages (this : t) : M World unit :=
  let* pending :=
    on_database (SqliteQueue.fetchPending (writeQueue this) (Some 10)) in
  match pending with
  | [] => ret tt
  | _ => for_of pending (process_row this)
  end.

Definition startProcessing (this : t) (serverUrl apiSecret : string) : t :=
  mk (writeQueue this) (processing this) serverUrl apiSecret.

(** One firing of the interval timer. A firing that finds the previous
    batch still under way does nothing; otherwise the batch runs, an
    exception that escapes it is logged and dropped, and the flag is
    cleared on every path. *)
Definition tick (this : t) : M World t :=
  if processing this then ret this
  else
    let running := mk (writeQueue this) true (serverUrl this) (apiSecret this) in
    try_catch (processPendingMessages running) (fun error => ret tt) ;;;
    ret (mk (writeQueue this) false (serverUrl this) (apiSecret this)).

End SqliteQueueProvider.

(** ** The interval timers of the runtime *)

Module Timers.

(** The interval timers that are set, each with its handle and its period
    in milliseconds, and the number of handles given out so far. *)
Record t : Type := mk {
  active : list (nat * Z);
  issued : nat
}.

(** [setInterval(callback, ms)]: a new handle, never seen before. *)
Definition setInterval (ms : Z) : M t nat :=
  fun timers =>
    let handle := S (issued timers) in
    (JS.Normal handle, mk (active timers ++ [(handle, ms)]) handle).

(** [clearInterval(handle)]. *)
Definition clearInterval (handle : nat) : M t unit :=
  fun timers =>
    (JS.Normal tt,
     mk (filter (fun timer => timer.1 <> handle) (active timers))
        (issued timers)).

End Timers.

(** ** queue/sqlite-queue.ts: the provider as an object of the process *)

(** The provider with the two things the definitions above leave out: the
    connection its queue works on, by the number of the handle, and the handle
    of the timer that [startProcessing] set last. *)
Module QueueProviderObject.

Record t : Type := mk {
  fields : SqliteQueueProvider.t;
  db : nat;
  processingInterval : option nat
}.

(** The whole of [startProcessing]: the two fields, then the timer. The
    handle of a timer set before is overwritten, its timer stays set. *)
Definition startProcessing (this : t) (serverUrl apiSecret : string)
    (pollIntervalMs : option Z) : M Timers.t t :=
  let pollIntervalMs := default 1000 pollIntervalMs in
  let started :=
    SqliteQueueProvider.startProcessing (fields this) serverUrl apiSecret in
  let* handle := Timers.setInterval pollIntervalMs in
  ret (mk started (db this) (Some handle)).

Definition stopProcessing (this : t) : M Timers.t t :=
  match processingInterval this with
  | Some handle =>
      Timers.clearInterval handle ;;;
      ret (mk (fields this) (db this) None)
  | None => ret this
  end.

End QueueProviderObject.

(** ** storage/sqlite-kv.ts: the provider as an object of the process *)

Module StorageProviderObject.

Record t : Type := mk {
  db : nat;
  storages : SqliteStorageProvider.t
}.

Definition getPlaylistStorage (this : t) : SqliteKVStorage.t :=
  SqliteStorageProvider.playlistStorage (storages this).

Definition getChannelStorage (this : t) : SqliteKVStorage.t :=
  SqliteStorageProvider.channelStorage (storages this).

Definition getPlaylistItemStorage (this : t) : SqliteKVStorage.t :=
  SqliteStorageProvider.playlistItemStorage (storages this).

Definition getDatabase (this : t) : nat := db this.

End StorageProviderObject.

(** ** env/sqlite.ts *)

Module SqliteBindings.
(** [SQLITE_DB_PATH] is a string by its type; at run time it may be
    missing. *)
Record t : Type := mk {
  API_SECRET : string;
  ED25519_PRIVATE_KEY : string;
  JWT_PUBLIC_KEY : option string;
  JWT_JWKS_URL : option string;
  JWT_ISSUER : option string;
  JWT_AUDIENCE : option string;
  SQLITE_DB_PATH : option string;
  ENVIRONMENT : option string;
  SELF_HOSTED_DOMAINS : option string
}.
End SqliteBindings.

Module Env.
(** The two providers are references: the storage provider is known by
    its connection, the queue provider by its place among the provider objects
    of the process. *)
Record t : Type := mk {
  API_SECRET : string;
  ED25519_PRIVATE_KEY : string;
  JWT_PUBLIC_KEY : option string;
  JWT_JWKS_URL : option string;
  JWT_ISSUER : option string;
  JWT_AUDIENCE : option string;
  storageProvider : StorageProviderObject.t;
  queueProvider : nat;
  ENVIRONMENT : option string;
  SELF_HOSTED_DOMAINS : option string
}.
End Env.

(** What [new Database(path)] comes to: a connection to the database found
    at the path (an empty one for a new file and for [:memory:]), or an
    exception. *)
Inductive OpenOutcome : Type :=
| Opens (db : Database)
| Fails (e : JS.exn).

(** The process:
    - [handles]: the connections opened so far, in the order they were
      opened, each with its database, [None] once it is closed;
    - [openings]: what the coming calls of [new Database] will come to;
    - [opened]: the paths of the calls of [new Database] so far;
    - [timers]: the interval timers;
    - [objects]: the queue provider objects created so far;
    - [storageProvider], [queueProvider]: the two variables of the module
      env/sqlite.ts, [None] for [null]. *)
Record Process : Type := mkProcess {
  handles : list (option Database);
  openings : list OpenOutcome;
  opened : list string;
  timers : Timers.t;
  objects : list QueueProviderObject.t;
  storageProvider : option StorageProviderObject.t;
  queueProvider : option nat
}.

Definition not_open : JS.exn :=
  JS.Error "TypeError" "The database connection is not open".

(** [new Database(path)]. *)
Definition new_Database (path : string) : M Process nat :=
  fun p =>
    let log := opened p ++ [path] in
    match openings p with
    | Opens db :: rest =>
        (JS.Normal (length (handles p)),
         mkProcess (handles p ++ [Some db]) rest log (timers p) (objects p)
           (storageProvider p) (queueProvider p))
    | Fails e :: rest =>
        (JS.Throw e,
         mkProcess (handles p) rest log (timers p) (objects p)
           (storageProvider p) (queueProvider p))
    | [] =>
        (JS.Throw (Sqlite.error "unable to open database file"),
         mkProcess (handles p) [] log (timers p) (objects p)
           (storageProvider p) (queueProvider p))
    end.

(** A computation on the database of a connection. *)
Definition on_handle {A} (handle : nat) (m : M Database A) : M Process A :=
  fun p =>
    match handles p !! handle with
    | Some (Some db) =>
        let '(r, db') := m db in
        (r, mkProcess (<[handle := Some db']> (handles p)) (openings p)
              (opened p) (timers p) (objects p) (storageProvider p)
              (queueProvider p))
    | _ => (JS.Throw not_open, p)
    end.

(** [db.close()]; closing a closed connection does nothing. *)
Definition close_handle (handle : nat) : M Process unit :=
  fun p =>
    (JS.Normal tt,
     mkProcess
       (match handles p !! handle with
        | Some _ => <[handle := None]> (handles p)
        | None => handles p
        end)
       (openings p) (opened p) (timers p) (objects p) (storageProvider p)
       (queueProvider p)).

Definition on_timers {A} (m : M Timers.t A) : M Process A :=
  fun p =>
    let '(r, timers') := m (timers p) in
    (r, mkProcess (handles p) (openings p) (opened p) timers' (objects p)
          (storageProvider p) (queueProvider p)).

(** A method of a queue provider object, called through a reference. A
    reference is the place of an object that was created; the last case is
    there for the numbers that are none. *)
Definition on_object (ref : nat)
    (method : QueueProviderObject.t -> M Timers.t QueueProviderObject.t)
  : M Process unit :=
  fun p =>
    match objects p !! ref with
    | Some this =>
        let '(r, timers') := method this (timers p) in
        (match r with
         | JS.Normal this' =>
             (JS.Normal tt,
              mkProcess (handles p) (openings p) (opened p) timers'
                (<[ref := this']> (objects p)) (storageProvider p)
                (queueProvider p))
         | JS.Throw e =>
             (JS.Throw e,
              mkProcess (handles p) (openings p) (opened p) timers'
                (objects p) (storageProvider p) (queueProvider p))
         end)
    | None => (JS.Throw (JS.Error "TypeError" "no such object"), p)
    end.

Definition set_storageProvider (v : option StorageProviderObject.t)
  : M Process unit :=
  fun p =>
    (JS.Normal tt,
     mkProcess (handles p) (openings p) (opened p) (timers p) (objects p) v
       (queueProvider p)).

Definition set_queueProvider (v : option nat) : M Process unit :=
  fun p =>
    (JS.Normal tt,
     mkProcess (handles p) (openings p) (opened p) (timers p) (objects p)
       (storageProvider p) v).

(** [new SqliteStorageProvider(config)]: the connection, the two pragmas,
    the three storage objects. *)
Definition new_SqliteStorageProvider (dbPath : string)
  : M Process StorageProviderObject.t :=
  let* db := new_Database dbPath in
  on_handle db Sqlite.step ;;;
  on_handle db Sqlite.step ;;;
  (let* storages := on_handle db SqliteStorageProvider.constructor in
   ret (StorageProviderObject.mk db storages)).

(** [storageProvider.close()]. *)
Definition StorageProviderObject_close (this : StorageProviderObject.t)
  : M Process unit :=
  close_handle (StorageProviderObject.db this).

(** [new SqliteQueueProvider(db)]: the new object takes the next place. *)
Definition new_SqliteQueueProvider (db : nat) : M Process nat :=
  let* fields := on_handle db SqliteQueueProvider.constructor in
  fun p =>
    (JS.Normal (length (objects p)),
     mkProcess (handles p) (openings p) (opened p) (timers p)
       (objects p ++ [QueueProviderObject.mk fields db None])
       (storageProvider p) (queueProvider p)).

Definition initializeSqliteEnv (bindings : SqliteBindings.t)
  : M Process Env.t :=
  match SqliteBindings.SQLITE_DB_PATH bindings with
  | None | Some "" =>
      throw (JS.Error "Error"
               "Missing required SQLite configuration: SQLITE_DB_PATH")
  | Some dbPath =>
      let* storage :=
        fun p =>
          match storageProvider p with
          | None =>
              (let* created := new_SqliteStorageProvider dbPath in
               set_storageProvider (Some created) ;;;
               ret created) p
          | Some storage => (JS.Normal storage, p)
          end in
      let* queue :=
        fun p =>
          match queueProvider p with
          | None =>
              (let* created :=
                 new_SqliteQueueProvider
                   (StorageProviderObject.getDatabase storage) in
               set_queueProvider (Some created) ;;;
               ret created) p
          | Some queue => (JS.Normal queue, p)
          end in
      ret (Env.mk (SqliteBindings.API_SECRET bindings)
             (SqliteBindings.ED25519_PRIVATE_KEY bindings)
             (SqliteBindings.JWT_PUBLIC_KEY bindings)
             (SqliteBindings.JWT_JWKS_URL bindings)
             (SqliteBindings.JWT_ISSUER bindings)
             (SqliteBindings.JWT_AUDIENCE bindings)
             storage queue
             (SqliteBindings.ENVIRONMENT bindings)
             (SqliteBindings.SELF_HOSTED_DOMAINS bindings))
  end.

Definition getSqliteQueueProvider (p : Process) : option nat :=
  queueProvider p.

Definition closeSqliteConnections : M Process unit :=
  (fun p =>
     match queueProvider p with
     | Some queue =>
         (on_object queue QueueProviderObject.stopProcessing ;;;
          set_queueProvider None) p
     | None => (JS.Normal tt, p)
     end) ;;;
  fun p =>
    match storageProvider p with
    | Some storage =>
        (StorageProviderObject_close storage ;;; set_storageProvider None) p
    | None => (JS.Normal tt, p)
    end.

(** ** middleware/env-sqlite.ts *)

(** The [Response] the middleware answers with. *)
Module Reply.
Record t : Type := mk {
  body : string;
  status : Z;
  headers : list (string * string)
}.
End Reply.

(** The context [c] of a request: the bindings [c.env], the variable
    [c.var.env] and the response [c.res]. *)
Module Context.
Record t : Type := mk {
  env : SqliteBindings.t;
  var_env : option Env.t;
  res : option Reply.t
}.
End Context.

(** A request being handled: the process and the context of the request. *)
Record Handling : Type := mkHandling {
  process : Process;
  c : Context.t
}.

Definition on_process {A} (m : M Process A) : M Handling A :=
  fun s =>
    let '(r, p) := m (process s) in
    (r, mkHandling p (c s)).

(** [c.set('env', env)]. *)
Definition c_set_env (env : Env.t) : M Handling unit :=
  fun s =>
    (JS.Normal tt,
     mkHandling (process s)
       (Context.mk (Context.env (c s)) (Some env) (Context.res (c s)))).

(** [c.res = response]. *)
Definition c_set_res (response : Reply.t) : M Handling unit :=
  fun s =>
    (JS.Normal tt,
     mkHandling (process s)
       (Context.mk (Context.env (c s)) (Context.var_env (c s))
          (Some response))).

Definition sqliteEnvMiddleware (next : M Handling unit) : M Handling unit :=
  fun s =>
    match Context.var_env (c s) with
    | Some _ => next s
    | None =>
        try_catch
          (let* env := on_process (initializeSqliteEnv (Context.env (c s))) in
           c_set_env env ;;;
           next)
          (fun error =>
             c_set_res
               (Reply.mk
                  (JS.stringify_record
                     [("error", "initialization_error");
                      ("message", "Failed to initialize SQLite environment");
                      ("details",
                       match error with
                       | JS.Error _ message => message
                       | JS.NotAnError => "Unknown error"
                       end)])
                  500
                  [("Content-Type", "application/json")]))
          s
    end.

(** ** Callers of the two classes *)

(** No failure of the engine is scheduled. *)
Definition healthy (db : Database) : Prop := faults db = [].

(** The data of two databases is the same: they differ at most in what the
    engine has in store. *)
Definition same_data (db db' : Database) : Prop :=
  db' = set_faults (faults db') db.

(** Calls on the key-value tables of one database; [ns] is the table name
    of the storage object the call goes to. *)
Inductive KVCall : Type :=
| Put (ns key value : string)
| Delete (ns key : string).

Definition kv_call (c : KVCall) : M Database unit :=
  match c with
  | Put ns key value => SqliteKVStorage.put (SqliteKVStorage.mk ns) key value
  | Delete ns key => SqliteKVStorage.delete (SqliteKVStorage.mk ns) key
  end.

Definition kv_namespace (c : KVCall) : string :=
  match c with
  | Put ns _ _ => ns
  | Delete ns _ => ns
  end.

(** Two table names denote the same namespace. *)
Definition same_namespace (ns ns' : string) : bool :=
  String.eqb (Sqlite.canonical ns) (Sqlite.canonical ns').

(** The specification of [get], in its own words: the value of the
    most recent [put(k, v)] on the namespace that no [delete(k)] on it
    follows. [None]: no call touched the record; [Some None]: the last call
    on it was a delete; [Some (Some v)]: the last call on it was [put(k, v)]. *)
Definition latest_write (ns key : string) (acc : option (option string))
    (c : KVCall) : option (option string) :=
  match c with
  | Put ns' key' value =>
      if same_namespace ns ns' && String.eqb key key'
      then Some (Some value) else acc
  | Delete ns' key' =>
      if same_namespace ns ns' && String.eqb key key'
      then Some None else acc
  end.

Definition most_recent_put (ns key : string) (calls : list KVCall)
  : option (option string) :=
  fold_left (latest_write ns key) calls None.

(** What [get] returns, given the last write on the record and what [get]
    returned before the calls. *)
Definition expected_get (last_write : option (option string))
    (before : JS.completion JS.value) : JS.completion JS.value :=
  match last_write with
  | Some (Some value) => JS.Normal (JS.Str value)
  | Some None => JS.Normal JS.Null
  | None => before
  end.

(** The rows of a table after the puts of a batch, and after the deletes of
    a batch. *)
Definition put_all (entries : list (string * string))
    (rows : gmap string string) : gmap string string :=
  fold_left (fun t e => <[e.1 := e.2]> t) entries rows.

Definition delete_all (keys : list string) (rows : gmap string string)
  : gmap string string :=
  fold_left (fun t k => delete k t) keys rows.

(** [db'] is [db] with the rows of one table changed by [f], if the table
    exists, and nothing else of the data changed. *)
Definition table_updated (tableName : string)
    (f : gmap string string -> gmap string string) (db db' : Database)
  : Prop :=
  write_queue db' = write_queue db
  /\ write_queue_seq db' = write_queue_seq db
  /\ now db' = now db
  /\ (forall n, n <> Sqlite.canonical tableName ->
                tables db' !! n = tables db !! n)
  /\ tables db' !! Sqlite.canonical tableName
     = f <$> tables db !! Sqlite.canonical tableName.

(** What the SELECT of [list] returns on the rows of a table, and the page
    [list] makes of it. *)
Definition select_page (rows : gmap string string) (pattern : string)
    (after : option string) (limit : Z) : list string :=
  Sqlite.limit limit
    (Sqlite.order_by_key
       (filter (fun k => SqliteKVStorage.where_clause pattern after k = true)
               (fst <$> map_to_list rows))).

Definition page_of (keys : list string) (limit : Z) : KVListResult.t :=
  let hasMore := Z.of_nat (length keys) =? limit in
  KVListResult.mk keys (negb hasMore)
    (if hasMore && (0 <? Z.of_nat (length keys)) then last keys else None).

(** The three defaults of [list]: an absent or empty prefix is the empty
    prefix, an absent or zero limit is 1000, an absent or empty cursor is no
    cursor. *)
Definition list_prefix (options : option KVListOptions.t) : string :=
  SqliteKVStorage.or_string (options ≫= KVListOptions.prefix) "".

Definition list_limit (options : option KVListOptions.t) : Z :=
  SqliteKVStorage.or_number (options ≫= KVListOptions.limit) 1000.

Definition list_after (options : option KVListOptions.t) : option string :=
  match options ≫= KVListOptions.cursor with
  | Some c => if String.eqb c "" then None else Some c
  | None => None
  end.

(** A prefix that LIKE reads as it is written: no wildcard and no ASCII
    letter in it. *)
Definition plain_char (c : ascii) : bool :=
  negb (Ascii.eqb c "%") && negb (Ascii.eqb c "_")
  && negb (Text.is_upper c)
  && negb ((97 <=? Text.code c) && (Text.code c <=? 122))%N.

Fixpoint plain (s : string) : bool :=
  match s with
  | EmptyString => true
  | String c s' => plain_char c && plain s'
  end.

(** Calls on the queue, by any queue object on the database. *)
Inductive QueueCall : Type :=
| Send (q : SqliteQueue.t) (messageData : string)
| FetchPending (q : SqliteQueue.t) (limit : option Z)
| MarkProcessed (q : SqliteQueue.t) (id : Z)
| MarkFailed (q : SqliteQueue.t) (id : Z) (error : string).

Definition queue_call (c : QueueCall) : M Database unit :=
  match c with
  | Send q messageData => SqliteQueue.send q messageData
  | FetchPending q limit => SqliteQueue.fetchPending q limit ;;; ret tt
  | MarkProcessed q id => SqliteQueue.markProcessed q id
  | MarkFailed q id error => SqliteQueue.markFailed q id error
  end.

(** The rows of the table are rows that [stmtInsert] made: their ids are
    ids AUTOINCREMENT handed out, their retry ceiling is the default. *)
Definition queue_wf (db : Database) : Prop :=
  Forall (fun r => row_id r <= write_queue_seq db /\ row_max_attempts r = 3)
         (write_queue db).

(** Every row of that id has used up its attempts and is not pending. *)
Definition exhausted (id : Z) (db : Database) : Prop :=
  Forall (fun r => row_id r = id ->
                   row_processed r <> 0
                   /\ row_max_attempts r <= row_attempts r)
         (write_queue db).

(** A caller that pages through [list]: no cursor on the first call, then
    the cursor of each page, until a page says it is the last. [None] when
    [fuel] calls were not enough. *)
Fixpoint paginate (fuel : nat) (this : SqliteKVStorage.t)
    (prefix : option string) (limit : option Z) (cursor : option string)
  : M Database (option (list (list string))) :=
  match fuel with
  | O => ret None
  | S fuel' =>
      let* page :=
        SqliteKVStorage.list this
          (Some (KVListOptions.mk prefix limit cursor)) in
      if KVListResult.list_complete page
      then ret (Some [KVListResult.keys page])
      else
        let* rest :=
          paginate fuel' this prefix limit (KVListResult.cursor page) in
        ret (cons (KVListResult.keys page) <$> rest)
  end.

(** The keys of a table as [ORDER BY key ASC] returns them. *)
Definition sorted_keys (rows : gmap string string) : list string :=
  Sqlite.order_by_key (fst <$> map_to_list rows).

(** What the SELECT of [stmtFetch] returns on a table. *)
Definition pending_page (queue_name : string) (limit : Z)
    (rows : list QueueRow) : list PendingRow.t :=
  SqliteQueue.project <$>
    Sqlite.limit limit
      (Sqlite.order_by_id
         (filter (fun r => SqliteQueue.is_pending queue_name r = true) rows)).

(** The keys that one call of [list] without a limit returns for a prefix. *)
Definition listing (rows : gmap string string) (prefix : option string)
  : list string :=
  select_page rows (SqliteKVStorage.or_string prefix "" +:+ "%") None (-1).

(** The three markers a message must carry. *)
Definition markers : list string := ["operation"; "id"; "timestamp"].

(** What handling one row leaves on a healthy engine: the rows of its id
    rewritten by [f], and the requests [sent] added to the log. *)
Definition marked (row : PendingRow.t) (f : QueueRow -> QueueRow)
    (sent : list Request.t) (w w' : World) : Prop :=
  healthy (database w')
  /\ write_queue (database w')
     = SqliteQueue.update_rows (PendingRow.id row) f (write_queue (database w))
  /\ requests w' = requests w ++ sent.

(** What the loop of [getMultiple] makes of a row. *)
Definition decode_row (options : option KVGetOptions.t) (row : string * string)
  : JS.completion JS.value :=
  if SqliteKVStorage.type_is_json options then JS.JSON_parse row.2
  else JS.Normal (JS.Str row.2).

(** The value a batch of puts leaves for a key: that of the last entry
    with this key. *)
Definition batch_value (key : string) (entries : list (string * string))
  : option string :=
  snd <$> last (filter (fun e => e.1 = key) entries).


(** What a call on the queue makes of the row of an id. *)
Definition entry_after (id : Z) (r : QueueRow) (c : QueueCall) : QueueRow :=
  match c with
  | MarkProcessed _ id' => if id' =? id then SqliteQueue.set_processed r else r
  | MarkFailed _ id' error => if id' =? id then SqliteQueue.set_failed error r else r
  | _ => r
  end.

(** The reasons of the calls of [markFailed] on an id, in their order. *)
Definition failures (id : Z) (calls : list QueueCall) : list string :=
  omap (fun c => match c with
                 | MarkFailed _ id' error => if id' =? id then Some error else None
                 | _ => None
                 end) calls.

(** The rows that sending the messages [msgs], one after the other, adds to
    a table whose largest id so far is [seq]. *)
Definition sent_rows (queue_name : string) (seq clock : Z) (msgs : list string)
  : list QueueRow :=
  imap (fun i m => mkRow (seq + 1 + Z.of_nat i) queue_name m clock 0 0 3 None)
       msgs.

(** The request the processor makes for a row. *)
Definition request_for (this : SqliteQueueProvider.t) (row : PendingRow.t)
  : Request.t :=
  Request.mk (SqliteQueueProvider.serverUrl this +:+ "/queues/process-message")
    "POST"
    ([("Content-Type", "application/json")]
     ++ (if negb (String.eqb (SqliteQueueProvider.apiSecret this) "")
         then [("Authorization",
                "Bearer " +:+ SqliteQueueProvider.apiSecret this)]
         else []))
    (PendingRow.message row).

(** [r'] is [r] after some marks: the columns no UPDATE assigns are the
    same, and the attempts did not go down. *)
Definition same_entry (r r' : QueueRow) : Prop :=
  row_id r' = row_id r
  /\ row_queue_name r' = row_queue_name r
  /\ row_message r' = row_message r
  /\ row_created_at r' = row_created_at r
  /\ row_max_attempts r' = row_max_attempts r
  /\ row_attempts r <= row_attempts r'.

(** [db'] is [db] after some marks and nothing else: the key-value tables,
    the id counter, the clock and the entries of the queue are the same. *)
Definition entries_kept (db db' : Database) : Prop :=
  tables db' = tables db
  /\ write_queue_seq db' = write_queue_seq db
  /\ now db' = now db
  /\ Forall2 same_entry (write_queue db) (write_queue db').

(** A computation of the processor that keeps the entries and makes, in
    their order, some of the requests [reqs], each taking one answer off the
    network. *)
Definition sends {A} (reqs : list Request.t) (m : M World A) : Prop :=
  forall w,
    entries_kept (database w) (database (m w).2)
    /\ exists sent,
         sublist sent reqs
         /\ requests (m w).2 = requests w ++ sent
         /\ network (m w).2 = drop (length sent) (network w).

(** The member of an object that a property of that name reads: the last
    one, when the text of the object repeats the name. *)
Definition member (name : string) (fields : list (string * JS.value))
  : option JS.value :=
  snd <$> last (filter (fun field => field.1 = name) fields).

(** A value carries a marker: it is an object with a member of that name
    whose value is not [null], [false], zero or the empty string. *)
Definition has_marker (messageData : JS.value) (name : string) : bool :=
  match messageData with
  | JS.Object fields => from_option JS.truthy false (member name fields)
  | _ => false
  end.

(** A message that can be delivered: its text is JSON, for a value that
    carries the three markers. *)
Definition deliverable (message : string) : bool :=
  match JS.JSON_parse message with
  | JS.Normal messageData => forallb (has_marker messageData) markers
  | JS.Throw _ => false
  end.

(** An answer of the endpoint that acknowledges the message: the status is
    ok and the body is JSON with a truthy [success]. *)
Definition acknowledges (outcome : FetchOutcome) : bool :=
  match outcome with
  | Resolves response =>
      Response.ok response
      && match JS.JSON_parse (Response.text response) with
         | JS.Normal result =>
             match JS.get_prop result "success" with
             | JS.Normal success => JS.truthy success
             | JS.Throw _ => false
             end
         | JS.Throw _ => false
         end
  | Rejects _ => false
  end.

(** The pending entries of a queue that come before an id. *)
Definition ahead (queue_name : string) (id : Z) (rows : list QueueRow)
  : list QueueRow :=
  filter (fun r => row_id r < id /\ SqliteQueue.is_pending queue_name r = true)
         rows.

(** A run of firings of the timer, each told by whether the batch of an
    earlier firing was still under way when it came ([true]): such a firing
    finds the flag set and returns at once, the others run their batch to its
    end. A firing that comes while a batch waits for an answer does nothing,
    so it is the same to the database whether it is counted before the batch
    or after. *)
Fixpoint firings (this : SqliteQueueProvider.t) (busy : list bool) (w : World)
  : World :=
  match busy with
  | [] => w
  | found_busy :: rest =>
      firings this rest
        (snd (SqliteQueueProvider.tick
                (SqliteQueueProvider.mk (SqliteQueueProvider.writeQueue this)
                   found_busy (SqliteQueueProvider.serverUrl this)
                   (SqliteQueueProvider.apiSecret this)) w))
  end.

(** The value [JSON.parse] makes of an object of strings. *)
Definition record_value (fields : list (string * string)) : JS.value :=
  JS.Object ((fun kv => (kv.1, JS.Str kv.2)) <$> fields).

(** The database with a table of that name: the one it has, or an empty
    one. *)
Definition with_table (tableName : string) (db : Database) : Database :=
  match tables db !! Sqlite.canonical tableName with
  | Some _ => db
  | None => set_tables (<[Sqlite.canonical tableName := ∅]> (tables db)) db
  end.

(** The [details] of the answer to a failure. *)
Definition failure_details (error : JS.exn) : string :=
  match error with
  | JS.Error _ message => message
  | JS.NotAnError => "Unknown error"
  end.

(** The context with [c.var.env] set. *)
Definition with_env (env : Env.t) (s : Handling) : Handling :=
  mkHandling (process s)
    (Context.mk (Context.env (c s)) (Some env) (Context.res (c s))).

(** What a computation on a connection leaves alone. *)
Definition same_module (p p' : Process) : Prop :=
  openings p' = openings p /\ opened p' = opened p /\ timers p' = timers p
  /\ objects p' = objects p /\ storageProvider p' = storageProvider p
  /\ queueProvider p' = queueProvider p
  /\ length (handles p') = length (handles p).

(** A computation that calls [new Database] on the paths [paths], in this
    order, and on no other. *)
Definition logs {A} (paths : list string) (m : M Process A) : Prop :=
  forall p, opened (m p).2 = opened p ++ paths.

(** ** Databases to try things on *)

Module Examples.

Definition empty : Database := mkDatabase ∅ [] 0 1700000000000 [].

(** The storage provider was constructed and a few records were put. *)
Definition storage : Database :=
  snd ((SqliteStorageProvider.constructor ;;;
        SqliteKVStorage.put (SqliteKVStorage.mk "playlists") "b" "2" ;;;
        SqliteKVStorage.put (SqliteKVStorage.mk "playlists") "a" "1" ;;;
        SqliteKVStorage.put (SqliteKVStorage.mk "channels") "a" "3") empty).

(** The table of a storage object was dropped, as in the tests of the
    failure paths. *)
Definition dropped : Database :=
  snd ((SqliteKVStorage.constructor "test_table" ;;;
        Sqlite.drop_table "test_table") empty).

Definition queue : SqliteQueue.t := SqliteQueue.mk "DP1_WRITE_QUEUE".

(** The JSON text of [{ incomplete: true }]. *)
Definition incomplete : string :=
  "{" +:+ String "034" "incomplete" +:+ String "034" ":true}".

Definition quoted (s : string) : string :=
  String "034" s +:+ String "034" "".

(** The JSON text of a message with the three markers, as the tests of the
    processor enqueue it. *)
Definition valid : string :=
  "{" +:+ quoted "id" +:+ ":" +:+ quoted "test-1" +:+ ","
  +:+ quoted "operation" +:+ ":" +:+ quoted "create" +:+ ","
  +:+ quoted "timestamp" +:+ ":" +:+ quoted "2024-01-01T00:00:00Z" +:+ ","
  +:+ quoted "data" +:+ ":{}}".

(** The bodies the endpoint answers with. *)
Definition success_true : string := "{" +:+ quoted "success" +:+ ":true}".
Definition success_false : string := "{" +:+ quoted "success" +:+ ":false}".

(** Four messages were sent to the write queue and one to another queue;
    the second was acknowledged, the third failed once. *)
Definition queued : Database :=
  snd ((SqliteQueue.send queue "m1" ;;;
        SqliteQueue.send queue "m2" ;;;
        SqliteQueue.send queue "m3" ;;;
        SqliteQueue.send (SqliteQueue.mk "other") "m4" ;;;
        SqliteQueue.send queue "m5" ;;;
        SqliteQueue.markProcessed queue 2 ;;;
        SqliteQueue.markFailed queue 3 "HTTP 500: down") empty).

(** The provider of the tests of the processor. *)
Definition provider : SqliteQueueProvider.t :=
  SqliteQueueProvider.mk queue false "http://localhost:8787" "test-secret".

(** Bindings as the tests of the environment give them, and without the
    path. *)
Definition bindings : SqliteBindings.t :=
  SqliteBindings.mk "test-secret" "test-private-key" None None None None
    (Some ":memory:") (Some "test") None.

Definition no_path : SqliteBindings.t :=
  SqliteBindings.mk "test-secret" "test-private-key" None None None None
    None (Some "test") None.

(** A process that has opened nothing yet and will find an empty
    database, and one that was initialized on the database [storage]. *)
Definition fresh : Process :=
  mkProcess [] [Opens empty] [] (Timers.mk [] 0) [] None None.

Definition initialized : Process :=
  mkProcess [Some storage] [] [":memory:"] (Timers.mk [(1%nat, 1000)] 1)
    [QueueProviderObject.mk provider 0 (Some 1%nat)]
    (Some (StorageProviderObject.mk 0
             (SqliteStorageProvider.mk (SqliteKVStorage.mk "playlists")
                (SqliteKVStorage.mk "channels")
                (SqliteKVStorage.mk "playlist_items"))))
    (Some 0%nat).

End Examples.

(** * Properties *)

(** ** The JSON parser: its fuel is enough *)

Lemma skip_ws_length s : (String.length (JS.skip_ws s) <= String.length s)%nat.
Proof.
  induction s as [|c s IH]; simpl; [lia|].
  destruct (JS.is_ws c); simpl; lia.
Qed.

Lemma append_length a b :
  String.length (a +:+ b) = (String.length a + String.length b)%nat.
Proof. induction a as [|c a IH]; simpl; [done | by rewrite IH]. Qed.

Lemma parse_chars_length n s pending body r :
  (String.length s <= n)%nat ->
  JS.parse_chars s pending = Some (body, r) ->
  (String.length r < String.length s)%nat.
Proof.
  revert s pending body r. induction n as [|n IH]; intros s pending body r Hn H.
  { destruct s; [done | simpl in Hn; lia]. }
  destruct s as [|c s]; [done|]. simpl in Hn.
  cbn -[JS.utf8 JS.hex4] in H.
  repeat (case_match; simplify_eq/=; try done; try lia);
    repeat match goal with
           | H : JS.parse_chars ?t _ = Some _ |- _ =>
               apply IH in H; [|simpl in *; lia]
           end;
    simpl in *; try lia.
Qed.

Lemma eat_length c s r : JS.eat c s = Some r -> String.length s = S (String.length r).
Proof.
  unfold JS.eat. destruct s as [|d s]; [done|].
  destruct (ascii_dec d c); [|done]. by intros [= ->].
Qed.

Lemma parse_string_length s key r :
  JS.parse_string s = Some (key, r) ->
  (String.length r < String.length s)%nat.
Proof.
  unfold JS.parse_string. destruct (JS.eat "034" s) as [s'|] eqn:E; [|done].
  apply eat_length in E. intros H.
  apply (parse_chars_length (String.length s')) in H; lia.
Qed.

Lemma digits_length s acc count v n r :
  JS.digits s acc count = (v, n, r) ->
  (String.length r <= String.length s)%nat.
Proof.
  revert acc count. induction s as [|c s IH]; intros acc count; simpl.
  - by intros [= _ _ <-].
  - destruct (JS.digit c).
    + intros H%IH. lia.
    + by intros [= _ _ <-].
Qed.

Lemma parse_number_length s v r :
  JS.parse_number s = Some (v, r) ->
  (String.length r < String.length s)%nat.
Proof.
  unfold JS.parse_number. intros H.
  repeat (case_match; simplify_eq/=; try done);
    repeat match goal with
           | H : JS.digits _ _ _ = _ |- _ => apply digits_length in H
           | H : JS.eat _ _ = Some _ |- _ => apply eat_length in H
           end;
    simpl in *; lia.
Qed.

Lemma substring_length n m s :
  (n + m <= String.length s)%nat -> String.length (String.substring n m s) = m.
Proof.
  revert n m. induction s as [|c s IH]; intros n m Hl; simpl in *.
  - by destruct n, m; simpl in *; try lia.
  - destruct n as [|n].
    + destruct m as [|m]; [done|]. simpl. rewrite IH; [done | lia].
    + apply IH. lia.
Qed.

Lemma prefix_length a s :
  String.prefix a s = true -> (String.length a <= String.length s)%nat.
Proof.
  revert a. induction s as [|c s IH]; intros a; destruct a as [|d a]; simpl;
    try done; try lia.
  destruct (ascii_dec d c); [|done]. intros H%IH. lia.
Qed.

Lemma expect_length lit v s w r :
  lit <> "" -> JS.expect lit v s = Some (w, r) ->
  (String.length r < String.length s)%nat.
Proof.
  unfold JS.expect. intros Hlit H.
  destruct (String.prefix lit s) eqn:Hp; [|done]. injection H as _ <-.
  apply prefix_length in Hp. rewrite substring_length by lia.
  destruct lit; [done|]. simpl in *. lia.
Qed.

Ltac add_skip_ws :=
  repeat match goal with
         | H : context [String.length (JS.skip_ws ?x)] |- _ =>
             lazymatch goal with
             | _ : (String.length (JS.skip_ws x) <= String.length x)%nat |- _ =>
                 fail
             | _ => pose proof (skip_ws_length x)
             end
         end.

(** A value that is read leaves less input than there was; so do a list of
    elements and a list of members. *)
Lemma parse_value_length fuel :
  (forall s v r, JS.parse_value fuel s = Some (v, r) ->
                 (String.length r < String.length s)%nat)
  /\ (forall s vs r, JS.parse_elements fuel s = Some (vs, r) ->
                     (String.length r < String.length s)%nat)
  /\ (forall s fs r, JS.parse_members fuel s = Some (fs, r) ->
                     (String.length r < String.length s)%nat).
Proof.
  assert (forall x y, JS.skip_ws x = y ->
            (String.length y <= String.length x)%nat) as Hws.
  { intros x y <-. apply skip_ws_length. }
  induction fuel as [|fuel (IHv & IHe & IHm)]; [done|].
  split; [|split].
  - intros s v r. cbn [JS.parse_value].
    pose proof (skip_ws_length s) as Hs.
    destruct (JS.skip_ws s) as [|c rest] eqn:Hskip; [done|]. simpl in Hs.
    pose proof (skip_ws_length rest) as Hrest. cbv zeta.
    intros H.
    repeat (case_match; simplify_eq; try done);
      repeat match goal with
             | H : JS.parse_members _ _ = Some _ |- _ => apply IHm in H
             | H : JS.parse_elements _ _ = Some _ |- _ => apply IHe in H
             | H : JS.parse_string _ = Some _ |- _ => apply parse_string_length in H
             | H : JS.parse_number _ = Some _ |- _ => apply parse_number_length in H
             | H : JS.expect _ _ _ = Some _ |- _ => apply expect_length in H; [|done]
             | H : JS.eat _ _ = Some _ |- _ => apply eat_length in H
             end;
      simpl in *; lia.
  - intros s vs r. cbn [JS.parse_elements]. intros H.
    repeat (case_match; simplify_eq; try done);
      repeat match goal with
             | H : JS.parse_value _ _ = Some _ |- _ => apply IHv in H
             | H : JS.parse_elements _ _ = Some _ |- _ => apply IHe in H
             | H : JS.eat _ _ = Some _ |- _ => apply eat_length in H
             end;
      add_skip_ws; simpl in *; lia.
  - intros s fs r. cbn [JS.parse_members]. intros H.
    repeat (case_match; simplify_eq; try done);
      repeat match goal with
             | H : JS.parse_value _ _ = Some _ |- _ => apply IHv in H
             | H : JS.parse_members _ _ = Some _ |- _ => apply IHm in H
             | H : JS.parse_string _ = Some _ |- _ => apply parse_string_length in H
             | H : JS.eat _ _ = Some _ |- _ => apply eat_length in H
             end;
      add_skip_ws; simpl in *; lia.
Qed.

(** Past twice the length of the input, the fuel does not matter. *)
Lemma parse_value_fuel fuel :
  (forall s fuel',
     (2 * String.length s + 1 <= fuel)%nat ->
     (2 * String.length s + 1 <= fuel')%nat ->
     JS.parse_value fuel s = JS.parse_value fuel' s)
  /\ (forall s fuel',
        (2 * String.length s + 2 <= fuel)%nat ->
        (2 * String.length s + 2 <= fuel')%nat ->
        JS.parse_elements fuel s = JS.parse_elements fuel' s)
  /\ (forall s fuel',
        (2 * String.length s + 2 <= fuel)%nat ->
        (2 * String.length s + 2 <= fuel')%nat ->
        JS.parse_members fuel s = JS.parse_members fuel' s).
Proof.
  induction fuel as [|fuel (IHv & IHe & IHm)].
  { repeat split; intros; lia. }
  split; [|split]; intros s [|fuel'] Hf Hf'; try lia.
  - cbn [JS.parse_value]. pose proof (skip_ws_length s) as Hs.
    destruct (JS.skip_ws s) as [|c rest]; [done|]. simpl in Hs. cbv zeta.
    pose proof (skip_ws_length rest) as Hrest.
    destruct (ascii_dec c "{").
    { by rewrite (IHm (JS.skip_ws rest) fuel') by lia. }
    destruct (ascii_dec c "[").
    { by rewrite (IHe (JS.skip_ws rest) fuel') by lia. }
    done.
  - cbn [JS.parse_elements]. rewrite (IHv s fuel') by lia.
    destruct (JS.parse_value fuel' s) as [[v r]|] eqn:E; [|done].
    apply (parse_value_length fuel') in E.
    pose proof (skip_ws_length r) as Hr.
    destruct (JS.eat "," (JS.skip_ws r)) as [r'|] eqn:E'; [|done].
    apply eat_length in E'. by rewrite (IHe r' fuel') by lia.
  - cbn [JS.parse_members].
    destruct (JS.parse_string (JS.skip_ws s)) as [[k r]|] eqn:E; [|done].
    apply parse_string_length in E.
    pose proof (skip_ws_length s) as Hs. pose proof (skip_ws_length r) as Hr.
    destruct (JS.eat ":" (JS.skip_ws r)) as [r1|] eqn:E1; [|done].
    apply eat_length in E1. rewrite (IHv r1 fuel') by lia.
    destruct (JS.parse_value fuel' r1) as [[v r2]|] eqn:E2; [|done].
    apply (parse_value_length fuel') in E2.
    pose proof (skip_ws_length r2) as Hr2.
    destruct (JS.eat "," (JS.skip_ws r2)) as [r3|] eqn:E3; [|done].
    apply eat_length in E3. by rewrite (IHm r3 fuel') by lia.
Qed.

(** The fuel [JSON_parse] gives the parser is enough: more of it reads the
    same value, or fails as well. *)
Lemma JSON_parse_fuel text fuel :
  (2 * String.length text + 1 <= fuel)%nat ->
  JS.parse_value fuel text
  = JS.parse_value (2 * String.length text + 1) text.
Proof. intros Hf. by apply (parse_value_fuel fuel). Qed.

(** ** The engine *)

Lemma set_faults_same db : set_faults (faults db) db = db.
Proof. by destruct db. Qed.

Lemma same_data_refl db : same_data db db.
Proof. unfold same_data. by rewrite set_faults_same. Qed.

Lemma same_data_trans db1 db2 db3 :
  same_data db1 db2 -> same_data db2 db3 -> same_data db1 db3.
Proof. unfold same_data. intros -> ->. by destruct db1. Qed.

Lemma same_data_fields db db' :
  same_data db db' ->
  tables db' = tables db /\ write_queue db' = write_queue db
  /\ write_queue_seq db' = write_queue_seq db /\ now db' = now db.
Proof. unfold same_data. intros ->. by destruct db. Qed.

Lemma step_healthy db : healthy db -> Sqlite.step db = (JS.Normal tt, db).
Proof. unfold healthy, Sqlite.step. by intros ->. Qed.

Lemma step_same_data db c db' : Sqlite.step db = (c, db') -> same_data db db'.
Proof.
  unfold Sqlite.step, same_data.
  destruct (faults db) as [|[] rest] eqn:E; intros [= <- <-];
    destruct db; simpl in *; by subst.
Qed.

(** ** The queue: [fetchPending] *)

Global Instance id_le_total : Total Sqlite.id_le.
Proof. intros r1 r2. unfold Sqlite.id_le. lia. Qed.

Global Instance id_le_trans : Transitive Sqlite.id_le.
Proof. intros r1 r2 r3. unfold Sqlite.id_le. lia. Qed.

Lemma limit_subset {A} n (l : list A) x : x ∈ Sqlite.limit n l -> x ∈ l.
Proof.
  unfold Sqlite.limit. destruct (n <? 0); [done|].
  intros H. rewrite <- (take_drop (Z.to_nat n) l). apply elem_of_app. by left.
Qed.

Lemma limit_length {A} n (l : list A) :
  0 <= n -> Z.of_nat (length (Sqlite.limit n l)) <= n.
Proof.
  intros Hn. unfold Sqlite.limit.
  destruct (Z.ltb_spec n 0); [lia|]. rewrite length_take. lia.
Qed.

Lemma limit_sorted {A} (R : relation A) n l :
  StronglySorted R l -> StronglySorted R (Sqlite.limit n l).
Proof.
  unfold Sqlite.limit. destruct (n <? 0); [done|].
  intros H. rewrite <- (take_drop (Z.to_nat n) l) in H.
  by apply StronglySorted_app_1_l in H.
Qed.

Lemma fetchPending_cases this limit db :
  exists c db',
    SqliteQueue.fetchPending this limit db = (c, db')
    /\ same_data db db'
    /\ (healthy db -> db' = db)
    /\ (c = JS.Normal (pending_page (SqliteQueue.name this)
                          (default 10 limit) (write_queue db))
        \/ (exists e, c = JS.Throw e) /\ ~ healthy db).
Proof.
  unfold SqliteQueue.fetchPending, SqliteQueue.stmtFetch_all, bind.
  destruct (Sqlite.step db) as [[[]|e] db1] eqn:Hs.
  - pose proof (step_same_data _ _ _ Hs) as Hd.
    eexists _, _. split; [done|]. split; [done|]. split.
    + intros Hh. rewrite (step_healthy _ Hh) in Hs. congruence.
    + left. unfold pending_page.
      by destruct (same_data_fields _ _ Hd) as (_ & -> & _).
  - eexists _, _. split; [done|]. split; [by eapply step_same_data|]. split.
    + intros Hh. rewrite (step_healthy _ Hh) in Hs. congruence.
    + right. split; [by eexists|].
      intros Hh. rewrite (step_healthy _ Hh) in Hs. congruence.
Qed.

Lemma pending_page_elem queue_name limit rows e :
  e ∈ pending_page queue_name limit rows ->
  exists r, r ∈ rows /\ SqliteQueue.project r = e
            /\ row_processed r = 0 /\ row_queue_name r = queue_name.
Proof.
  unfold pending_page. intros (r & -> & Hr)%list_elem_of_fmap.
  apply limit_subset in Hr. unfold Sqlite.order_by_id in Hr.
  rewrite merge_sort_Permutation in Hr.
  apply list_elem_of_filter in Hr as [Hp Hr].
  unfold SqliteQueue.is_pending in Hp.
  apply andb_true_iff in Hp as [Hp Hq].
  exists r. repeat split; [done| lia | by apply String.eqb_eq].
Qed.

Lemma pending_page_sorted queue_name limit rows :
  StronglySorted Z.le (PendingRow.id <$> pending_page queue_name limit rows).
Proof.
  unfold pending_page. rewrite <- list_fmap_compose.
  apply (StronglySorted_fmap _ Sqlite.id_le); [done|].
  apply limit_sorted. apply StronglySorted_merge_sort; apply _.
Qed.

(** C6. [fetchPending] returns at most [limit] entries (10 by default), each
    the projection of a Pending row of this queue's name, in ascending order
    of id, and leaves the data of the database as it was; on a healthy
    engine it does return. *)
Theorem fetchPending_peek this limit db :
  0 <= default 10 limit ->
  let '(c, db') := SqliteQueue.fetchPending this limit db in
  same_data db db'
  /\ (healthy db -> db' = db /\ exists res, c = JS.Normal res)
  /\ forall res, c = JS.Normal res ->
       Z.of_nat (length res) <= default 10 limit
       /\ (forall e, e ∈ res ->
             exists r, r ∈ write_queue db
                       /\ SqliteQueue.project r = e
                       /\ entry_state r = Some Pending
                       /\ row_queue_name r = SqliteQueue.name this)
       /\ StronglySorted Z.le (PendingRow.id <$> res).
Proof.
  intros Hlimit.
  destruct (fetchPending_cases this limit db) as (c & db' & -> & Hd & Hh & Hc).
  split; [done|]. split.
  - intros H. split; [by apply Hh|].
    destruct Hc as [->|[_ Hn]]; [by eexists | done].
  - intros res ->. destruct Hc as [[= ->]|[[e [=]] _]].
    split; [|split].
    + unfold pending_page. rewrite length_fmap. by apply limit_length.
    + intros e (r & Hr & He & Hp & Hq)%pending_page_elem.
      exists r. repeat split; try done.
      unfold entry_state. by rewrite Hp.
    + apply pending_page_sorted.
Qed.

(** ** The queue: the two UPDATE statements *)

Lemma healthy_set_write_queue rows db :
  healthy db -> healthy (set_write_queue rows db).
Proof. done. Qed.

Lemma same_data_set_write_queue rows db db' :
  same_data db db' ->
  same_data (set_write_queue rows db) (set_write_queue rows db').
Proof. unfold same_data. intros ->. by destruct db. Qed.

(** On a healthy engine an UPDATE rewrites the rows of the id and nothing
    else. *)
Lemma update_healthy id set db :
  healthy db ->
  (Sqlite.step ;;; SqliteQueue.update_where_id id set) db
  = (JS.Normal tt,
     set_write_queue (SqliteQueue.update_rows id set (write_queue db)) db).
Proof. intros H. unfold bind. by rewrite (step_healthy _ H). Qed.

(** On any engine it does that or fails and changes nothing. *)
Lemma update_cases id set db :
  exists c db',
    (Sqlite.step ;;; SqliteQueue.update_where_id id set) db = (c, db')
    /\ (c = JS.Normal tt
        /\ write_queue db'
           = SqliteQueue.update_rows id set (write_queue db)
        /\ write_queue_seq db' = write_queue_seq db
        \/ (exists e, c = JS.Throw e) /\ same_data db db').
Proof.
  unfold bind. destruct (Sqlite.step db) as [[[]|e] db1] eqn:Hs;
    pose proof (step_same_data _ _ _ Hs) as Hd.
  - eexists _, _. split; [done|]. left.
    destruct (same_data_fields _ _ Hd) as (_ & Hq & Hn & _).
    simpl. by rewrite Hq, Hn.
  - eexists _, _. split; [done|]. right. split; [by eexists | done].
Qed.


Lemma update_rows_elem id set rows r' :
  r' ∈ SqliteQueue.update_rows id set rows ->
  exists r, r ∈ rows /\ r' = if row_id r =? id then set r else r.
Proof.
  unfold SqliteQueue.update_rows. intros (r & -> & Hr)%list_elem_of_fmap.
  by exists r.
Qed.

Lemma find_update_rows id id' set rows :
  (forall r, row_id (set r) = row_id r) ->
  find (fun r => row_id r =? id) (SqliteQueue.update_rows id' set rows)
  = (fun r => if row_id r =? id' then set r else r)
      <$> find (fun r => row_id r =? id) rows.
Proof.
  intros Hid. induction rows as [|r rows IH]; [done|]. simpl.
  assert (row_id (if row_id r =? id' then set r else r) = row_id r) as ->.
  { destruct (row_id r =? id'); [apply Hid | done]. }
  destruct (row_id r =? id); [done | apply IH].
Qed.

Lemma find_app_fresh id rows r :
  find (fun r => row_id r =? id) (rows ++ [r])
  = match find (fun r => row_id r =? id) rows with
    | Some x => Some x
    | None => if row_id r =? id then Some r else None
    end.
Proof.
  induction rows as [|x rows IH]; simpl.
  - by destruct (row_id r =? id).
  - destruct (row_id x =? id); [done | apply IH].
Qed.

Lemma set_processed_id r : row_id (SqliteQueue.set_processed r) = row_id r.
Proof. done. Qed.

Lemma set_failed_id e r : row_id (SqliteQueue.set_failed e r) = row_id r.
Proof. done. Qed.

(** No page of [fetchPending] holds an id all of whose rows are not
    pending. *)
Lemma not_pending_not_fetched id queue_name limit rows :
  Forall (fun r => row_id r = id -> row_processed r <> 0) rows ->
  id ∉ PendingRow.id <$> pending_page queue_name limit rows.
Proof.
  intros Hall (e & -> & He)%list_elem_of_fmap.
  apply pending_page_elem in He as (r & Hr & <- & Hp & _).
  rewrite Forall_forall in Hall. by apply (Hall r Hr).
Qed.


(** ** The queue: one call, and sequences of calls *)

Lemma for_of_cons {S A} (x : A) xs (body : A -> M S unit) s :
  for_of (x :: xs) body s
  = match body x s with
    | (JS.Normal _, s') => for_of xs body s'
    | (JS.Throw e, s') => (JS.Throw e, s')
    end.
Proof. done. Qed.

(** What a call does to the table: nothing (a fetch, or a statement that
    failed), an UPDATE of the rows of an id, or one more row at the end. *)
Lemma queue_call_cases c db :
  let db' := snd (queue_call c db) in
  same_data db db'
  \/ (exists q id, c = MarkProcessed q id
        /\ write_queue db'
           = SqliteQueue.update_rows id SqliteQueue.set_processed (write_queue db)
        /\ write_queue_seq db' = write_queue_seq db)
  \/ (exists q id e, c = MarkFailed q id e
        /\ write_queue db'
           = SqliteQueue.update_rows id (SqliteQueue.set_failed e) (write_queue db)
        /\ write_queue_seq db' = write_queue_seq db)
  \/ (exists q m, c = Send q m
        /\ write_queue db'
           = write_queue db
             ++ [mkRow (write_queue_seq db + 1) (SqliteQueue.name q) m (now db)
                   0 0 3 None]
        /\ write_queue_seq db' = write_queue_seq db + 1).
Proof.
  destruct c as [q m|q limit|q id|q id e]; simpl.
  - unfold SqliteQueue.send, SqliteQueue.stmtInsert_run, bind.
    destruct (Sqlite.step db) as [[[]|e] db1] eqn:Hs;
      pose proof (step_same_data _ _ _ Hs) as Hd; [|by left].
    right; right; right. exists q, m. split; [done|]. simpl.
    by destruct (same_data_fields _ _ Hd) as (_ & -> & -> & ->).
  - left. unfold bind.
    destruct (fetchPending_cases q limit db) as (c & db' & -> & Hd & _).
    by destruct c.
  - destruct (update_cases id SqliteQueue.set_processed db)
      as (c & db' & Hr & [(-> & Hq & Hn)|[_ Hd]]);
      unfold SqliteQueue.markProcessed, SqliteQueue.stmtMarkProcessed_run;
      rewrite Hr; simpl; [|by left].
    right; left. by exists q, id.
  - destruct (update_cases id (SqliteQueue.set_failed e) db)
      as (c & db' & Hr & [(-> & Hq & Hn)|[_ Hd]]);
      unfold SqliteQueue.markFailed, SqliteQueue.stmtMarkFailed_run;
      rewrite Hr; simpl; [|by left].
    right; right; left. by exists q, id, e.
Qed.

(** The row of an id after a call: as it was, or acknowledged, or failed
    once more. *)
Lemma queue_call_row c db id r :
  find_row id db = Some r ->
  exists r',
    find_row id (snd (queue_call c db)) = Some r'
    /\ (r' = r
        \/ (exists q, c = MarkProcessed q id) /\ r' = SqliteQueue.set_processed r
        \/ (exists q e, c = MarkFailed q id e /\ r' = SqliteQueue.set_failed e r)).
Proof.
  unfold find_row. intros Hr.
  destruct (queue_call_cases c db)
    as [Hd|[(q & i & -> & Hq & _)|[(q & i & e & -> & Hq & _)|(q & m & -> & Hq & _)]]].
  - destruct (same_data_fields _ _ Hd) as (_ & -> & _). eauto.
  - rewrite Hq, find_update_rows, Hr by done. simpl.
    destruct (Z.eqb_spec (row_id r) i) as [E|E]; [|eauto].
    apply find_some in Hr as [_ Hid%Z.eqb_eq]. subst i. rewrite <- Hid. eauto 10.
  - rewrite Hq, find_update_rows, Hr by done. simpl.
    destruct (Z.eqb_spec (row_id r) i) as [E|E]; [|eauto].
    apply find_some in Hr as [_ Hid%Z.eqb_eq]. subst i. rewrite <- Hid. eauto 10.
  - rewrite Hq, find_app_fresh, Hr. eauto.
Qed.

Lemma queue_call_healthy c db : healthy db -> healthy (snd (queue_call c db)).
Proof.
  intros Hh. destruct c as [q m|q limit|q id|q id e]; simpl.
  - unfold SqliteQueue.send, SqliteQueue.stmtInsert_run, bind.
    by rewrite (step_healthy _ Hh).
  - unfold bind.
    destruct (fetchPending_cases q limit db) as (c & db' & -> & _ & Hdb & _).
    rewrite (Hdb Hh). by destruct c.
  - unfold SqliteQueue.markProcessed, SqliteQueue.stmtMarkProcessed_run.
    by rewrite update_healthy.
  - unfold SqliteQueue.markFailed, SqliteQueue.stmtMarkFailed_run.
    by rewrite update_healthy.
Qed.

Lemma attempts_after_calls calls db id r :
  find_row id db = Some r ->
  exists r',
    find_row id (snd (for_of calls queue_call db)) = Some r'
    /\ row_attempts r <= row_attempts r'.
Proof.
  revert db r. induction calls as [|c calls IH]; intros db r Hr.
  - exists r. split; [done | lia].
  - rewrite for_of_cons.
    destruct (queue_call_row c db id r Hr) as (r1 & Hr1 & Hcase).
    assert (row_attempts r <= row_attempts r1) as Hle.
    { destruct Hcase as [->|[[_ ->]|(q & e & _ & ->)]]; simpl; lia. }
    destruct (queue_call c db) as [[[]|e] db1]; simpl in Hr1.
    + destruct (IH db1 r1 Hr1) as (r' & Hr' & Hle'). exists r'. split; [done | lia].
    + exists r1. split; [done | lia].
Qed.

(** C2, as the code has it. Take an entry, any calls on the queue, and one
    more call. The attempts counter never decreases. From Pending the entry
    stays as it is, or moves to Pending with one more attempt that is still
    below the ceiling, to Processed, or to Dead with one more attempt that
    reaches the ceiling. The UPDATE statements have no guard on the state the
    entry is in: [markProcessed] on its id leaves it Processed whatever it
    was, also Dead, and [markFailed] on its id sets the state the counter
    gives, also for a Processed or Dead entry. *)
Theorem entry_transitions calls c db id r :
  find_row id db = Some r ->
  let db1 := snd (for_of calls queue_call db) in
  let db2 := snd (queue_call c db1) in
  exists r1 r2,
    find_row id db1 = Some r1 /\ find_row id db2 = Some r2
    /\ row_attempts r <= row_attempts r1 <= row_attempts r2
    /\ (entry_state r1 = Some Pending ->
          r2 = r1
          \/ (entry_state r2 = Some Pending
              /\ row_attempts r2 = row_attempts r1 + 1
              /\ row_attempts r2 < row_max_attempts r2)
          \/ (entry_state r2 = Some Processed
              /\ row_attempts r2 = row_attempts r1)
          \/ (entry_state r2 = Some Dead
              /\ row_attempts r2 = row_attempts r1 + 1
              /\ row_max_attempts r2 <= row_attempts r2))
    /\ (healthy db1 -> forall q, c = MarkProcessed q id ->
          entry_state r2 = Some Processed
          /\ row_attempts r2 = row_attempts r1)
    /\ (healthy db1 -> forall q e, c = MarkFailed q id e ->
          row_attempts r2 = row_attempts r1 + 1
          /\ entry_state r2
             = Some (if row_attempts r1 + 1 >=? row_max_attempts r1
                     then Dead else Pending)).
Proof.
  intros Hr db1 db2.
  destruct (attempts_after_calls calls db id r Hr) as (r1 & Hr1 & Hle).
  fold db1 in Hr1.
  destruct (queue_call_row c db1 id r1 Hr1) as (r2 & Hr2 & Hcase).
  fold db2 in Hr2. exists r1, r2.
  assert (forall e, entry_state (SqliteQueue.set_failed e r1)
            = Some (if row_attempts r1 + 1 >=? row_max_attempts r1
                    then Dead else Pending)) as Hfailed.
  { intros e. unfold entry_state. simpl.
    by destruct (row_attempts r1 + 1 >=? row_max_attempts r1). }
  split; [done|]. split; [done|]. split; [|split; [|split]].
  - destruct Hcase as [->|[[_ ->]|(q & e & _ & ->)]]; simpl; lia.
  - intros _. destruct Hcase as [->|[[_ ->]|(q & e & _ & ->)]]; [by left| |].
    + right; right; left. done.
    + rewrite Hfailed. simpl.
      destruct (Z.geb_spec (row_attempts r1 + 1) (row_max_attempts r1)).
      * right; right; right. repeat split; try done; lia.
      * right; left. repeat split; try done; lia.
  - intros Hh q ->. subst db2. revert Hr2. simpl.
    unfold SqliteQueue.markProcessed, SqliteQueue.stmtMarkProcessed_run.
    rewrite update_healthy by done. unfold find_row in *. simpl.
    rewrite find_update_rows, Hr1 by done. simpl.
    apply find_some in Hr1 as [_ ->%Z.eqb_eq]. rewrite Z.eqb_refl.
    by intros [= <-].
  - intros Hh q e ->. subst db2. revert Hr2. simpl.
    unfold SqliteQueue.markFailed, SqliteQueue.stmtMarkFailed_run.
    rewrite update_healthy by done. unfold find_row in *. simpl.
    rewrite find_update_rows, Hr1 by done. simpl.
    apply find_some in Hr1 as [_ ->%Z.eqb_eq]. rewrite Z.eqb_refl.
    intros [= <-]. by rewrite Hfailed.
Qed.

(** ** The queue: retries and dead letters *)

(** A pending row is on the page, unless the page is full of rows that come
    no later in the order of ids. *)
Lemma pending_page_reaches queue_name limit rows r :
  r ∈ rows -> SqliteQueue.is_pending queue_name r = true ->
  let page := pending_page queue_name limit rows in
  SqliteQueue.project r ∈ page
  \/ (Z.of_nat (length page) = limit
      /\ Forall (fun e => PendingRow.id e <= row_id r) page).
Proof.
  intros Hr Hp page. subst page. unfold pending_page.
  set (L := Sqlite.order_by_id _).
  assert (r ∈ L) as HL.
  { unfold L, Sqlite.order_by_id. rewrite merge_sort_Permutation.
    by apply list_elem_of_filter. }
  assert (StronglySorted Sqlite.id_le L) as Hsorted.
  { apply StronglySorted_merge_sort; apply _. }
  unfold Sqlite.limit. destruct (Z.ltb_spec limit 0) as [Hneg|Hpos].
  { left. by apply list_elem_of_fmap_2. }
  rewrite <- (take_drop (Z.to_nat limit) L) in HL, Hsorted.
  apply elem_of_app in HL as [HL|HL].
  { left. by apply list_elem_of_fmap_2. }
  right. split.
  - rewrite length_fmap, length_take.
    assert (length (drop (Z.to_nat limit) L) <> 0%nat) as Hd.
    { intros Hz. apply nil_length_inv in Hz. rewrite Hz in HL.
      by apply not_elem_of_nil in HL. }
    rewrite length_drop in Hd. lia.
  - apply Forall_forall. intros e (x & -> & Hx)%list_elem_of_fmap. simpl.
    apply (StronglySorted_app_1_elem_of _ _ _ x r Hsorted Hx HL).
Qed.

Lemma update_rows_other id set rows :
  Forall (fun r => row_id r <> id) rows ->
  SqliteQueue.update_rows id set rows = rows.
Proof.
  intros H. unfold SqliteQueue.update_rows.
  rewrite <- (list_fmap_id rows) at 2. apply list_fmap_ext.
  intros i r Hi. simpl.
  rewrite Forall_forall in H.
  destruct (Z.eqb_spec (row_id r) id) as [E|E]; [|done].
  exfalso. eapply H; [|done]. by eapply list_elem_of_lookup_2.
Qed.

Lemma find_other id rows :
  Forall (fun r => row_id r <> id) rows ->
  find (fun r => row_id r =? id) rows = None.
Proof.
  induction 1 as [|r rows Hr _ IH]; [done|]. simpl.
  by destruct (Z.eqb_spec (row_id r) id).
Qed.

Lemma queue_wf_fresh db :
  queue_wf db ->
  Forall (fun r => row_id r <> write_queue_seq db + 1) (write_queue db).
Proof.
  unfold queue_wf. intros H. eapply Forall_impl; [exact H|].
  simpl. intros r [Hr _]. lia.
Qed.

(** The rows of an empty table are rows the queue inserted, and so are the
    rows after any call. *)
Lemma queue_wf_empty tbls clock fs : queue_wf (mkDatabase tbls [] 0 clock fs).
Proof. unfold queue_wf. simpl. constructor. Qed.

Lemma queue_wf_call c db : queue_wf db -> queue_wf (snd (queue_call c db)).
Proof.
  unfold queue_wf. intros Hwf.
  destruct (queue_call_cases c db)
    as [Hd|[(q & i & -> & Hq & Hn)|[(q & i & e & -> & Hq & Hn)|(q & m & -> & Hq & Hn)]]].
  - by destruct (same_data_fields _ _ Hd) as (_ & -> & -> & _).
  - rewrite Hq, Hn. apply Forall_forall.
    intros r' (r & Hr & ->)%update_rows_elem.
    rewrite Forall_forall in Hwf. specialize (Hwf r Hr).
    by destruct (row_id r =? i).
  - rewrite Hq, Hn. apply Forall_forall.
    intros r' (r & Hr & ->)%update_rows_elem.
    rewrite Forall_forall in Hwf. specialize (Hwf r Hr).
    by destruct (row_id r =? i).
  - rewrite Hq, Hn. apply Forall_app. split.
    + eapply Forall_impl; [exact Hwf|]. simpl. intros r [H1 H2]. split; [lia|done].
    + apply Forall_singleton. simpl. split; [lia|done].
Qed.

(** An entry that has used up its attempts and is not pending stays so,
    whatever is called. *)
Lemma exhausted_call c db id :
  id <= write_queue_seq db -> exhausted id db ->
  id <= write_queue_seq (snd (queue_call c db))
  /\ exhausted id (snd (queue_call c db)).
Proof.
  intros Hid Hex. unfold exhausted in *.
  destruct (queue_call_cases c db)
    as [Hd|[(q & i & -> & Hq & Hn)|[(q & i & e & -> & Hq & Hn)|(q & m & -> & Hq & Hn)]]].
  - destruct (same_data_fields _ _ Hd) as (_ & -> & -> & _). done.
  - rewrite Hq, Hn. split; [done|]. apply Forall_forall.
    intros r' (r & Hr & ->)%update_rows_elem.
    rewrite Forall_forall in Hex. specialize (Hex r Hr).
    destruct (row_id r =? i); [|done]. simpl. intros H.
    destruct (Hex H). split; [done | lia].
  - rewrite Hq, Hn. split; [done|]. apply Forall_forall.
    intros r' (r & Hr & ->)%update_rows_elem.
    rewrite Forall_forall in Hex. specialize (Hex r Hr).
    destruct (row_id r =? i); [|done]. simpl. intros H.
    destruct (Hex H) as [_ Hmax].
    destruct (Z.geb_spec (row_attempts r + 1) (row_max_attempts r)); lia.
  - rewrite Hq, Hn. split; [lia|]. apply Forall_app. split; [done|].
    apply Forall_singleton. simpl. lia.
Qed.

Lemma exhausted_calls calls db id :
  id <= write_queue_seq db -> exhausted id db ->
  exhausted id (snd (for_of calls queue_call db)).
Proof.
  revert db. induction calls as [|c calls IH]; intros db Hid Hex; [done|].
  rewrite for_of_cons.
  destruct (exhausted_call c db id Hid Hex) as [Hid' Hex'].
  destruct (queue_call c db) as [[[]|e] db1]; simpl in *; [by apply IH | done].
Qed.

Lemma exhausted_not_fetched id db q limit page :
  exhausted id db ->
  fst (SqliteQueue.fetchPending q limit db) = JS.Normal page ->
  id ∉ PendingRow.id <$> page.
Proof.
  intros Hex Hpage.
  destruct (fetchPending_cases q limit db) as (c & db' & Hf & _ & _ & Hc).
  rewrite Hf in Hpage. simpl in Hpage. subst c.
  destruct Hc as [[= ->]|[[e [=]] _]].
  apply not_pending_not_fetched. eapply Forall_impl; [exact Hex|].
  simpl. intros r H Hid. by destruct (H Hid).
Qed.

Lemma fetchPending_healthy q limit db :
  healthy db ->
  SqliteQueue.fetchPending q limit db
  = (JS.Normal (pending_page (SqliteQueue.name q) (default 10 limit)
                  (write_queue db)), db).
Proof.
  intros Hh. unfold SqliteQueue.fetchPending, SqliteQueue.stmtFetch_all, bind.
  by rewrite (step_healthy _ Hh).
Qed.

Lemma markFailed_healthy q id e db :
  healthy db ->
  SqliteQueue.markFailed q id e db
  = (JS.Normal tt,
     set_write_queue
       (SqliteQueue.update_rows id (SqliteQueue.set_failed e) (write_queue db))
       db).
Proof. intros. by apply update_healthy. Qed.

Lemma send_healthy q m db :
  healthy db ->
  SqliteQueue.send q m db
  = (JS.Normal tt,
     set_write_queue_seq (write_queue_seq db + 1)
       (set_write_queue
          (write_queue db
           ++ [mkRow (write_queue_seq db + 1) (SqliteQueue.name q) m (now db)
                 0 0 3 None]) db)).
Proof.
  intros Hh. unfold SqliteQueue.send, SqliteQueue.stmtInsert_run, bind.
  by rewrite (step_healthy _ Hh).
Qed.

Lemma update_rows_last id set rows r :
  Forall (fun r => row_id r <> id) rows -> row_id r = id ->
  SqliteQueue.update_rows id set (rows ++ [r]) = rows ++ [set r].
Proof.
  intros Hrows Hr.
  rewrite <- (update_rows_other id set rows Hrows) at 2.
  unfold SqliteQueue.update_rows. rewrite fmap_app. simpl.
  by rewrite Hr, Z.eqb_refl.
Qed.

Lemma find_last id rows r :
  Forall (fun r => row_id r <> id) rows -> row_id r = id ->
  find (fun r => row_id r =? id) (rows ++ [r]) = Some r.
Proof.
  intros Hrows Hr. rewrite find_app_fresh, (find_other _ _ Hrows).
  by rewrite Hr, Z.eqb_refl.
Qed.

(** C3, as the code has it. On a healthy engine and a table of rows the
    queue inserted:
    - [markFailed(id, error)] on a Pending entry adds exactly one to
      [attempts], stores [error] as [last_error], and the entry is Dead if
      and only if the new count reaches the ceiling 3; below it, the entry is
      Pending and the next [fetchPending] of its queue returns it, unless the
      page is already full of entries that come no later;
    - an entry that was sent and failed twice is Pending with 2 attempts and
      returned in that way; failed a third time it is Dead with 3 attempts,
      and whatever is called on the queue afterwards, no [fetchPending]
      returns it. *)
Theorem markFailed_retry db :
  healthy db -> queue_wf db ->
  (forall this id error r,
     find_row id db = Some r -> entry_state r = Some Pending ->
     exists db' r',
       SqliteQueue.markFailed this id error db = (JS.Normal tt, db')
       /\ find_row id db' = Some r'
       /\ row_attempts r' = row_attempts r + 1
       /\ row_last_error r' = Some error
       /\ row_max_attempts r' = 3
       /\ (entry_state r' = Some Dead <-> 3 <= row_attempts r')
       /\ (row_attempts r' < 3 ->
             entry_state r' = Some Pending
             /\ forall q limit,
                  SqliteQueue.name q = row_queue_name r ->
                  exists page,
                    SqliteQueue.fetchPending q limit db' = (JS.Normal page, db')
                    /\ (SqliteQueue.project r' ∈ page
                        \/ (Z.of_nat (length page) = default 10 limit
                            /\ Forall (fun e => PendingRow.id e <= id) page))))
  /\ (forall this m e1 e2 e3,
        let id := write_queue_seq db + 1 in
        let db1 := snd (SqliteQueue.send this m db) in
        let db2 :=
          snd ((SqliteQueue.markFailed this id e1 ;;;
                SqliteQueue.markFailed this id e2) db1) in
        let db3 := snd (SqliteQueue.markFailed this id e3 db2) in
        let entry processed attempts last_error :=
          mkRow id (SqliteQueue.name this) m (now db) processed attempts 3
            last_error in
        find_row id db1 = Some (entry 0 0 None)
        /\ find_row id db2 = Some (entry 0 2 (Some e2))
        /\ (forall limit, exists page,
              SqliteQueue.fetchPending this limit db2 = (JS.Normal page, db2)
              /\ (PendingRow.mk id m 2 ∈ page
                  \/ (Z.of_nat (length page) = default 10 limit
                      /\ Forall (fun e => PendingRow.id e <= id) page)))
        /\ find_row id db3 = Some (entry (-1) 3 (Some e3))
        /\ forall calls q limit page,
             fst (SqliteQueue.fetchPending q limit
                    (snd (for_of calls queue_call db3))) = JS.Normal page ->
             id ∉ PendingRow.id <$> page).
Proof.
  intros Hh Hwf. split.
  - intros this id error r Hr Hstate.
    pose proof Hr as Hfind. unfold find_row in Hr.
    apply find_some in Hr as [Hin Hid%Z.eqb_eq].
    apply list_elem_of_In in Hin.
    unfold queue_wf in Hwf. rewrite Forall_forall in Hwf.
    destruct (Hwf r Hin) as [_ Hmax].
    assert (row_processed r = 0) as Hp.
    { unfold entry_state in Hstate.
      destruct (Z.eqb_spec (row_processed r) 0); [done|].
      repeat case_match; done. }
    eexists _, (SqliteQueue.set_failed error r).
    split; [by apply markFailed_healthy|].
    split.
    { unfold find_row in *. simpl. rewrite find_update_rows, Hfind by done.
      simpl. by rewrite Hid, Z.eqb_refl. }
    simpl. rewrite Hmax.
    assert (entry_state (SqliteQueue.set_failed error r)
            = Some (if row_attempts r + 1 >=? 3 then Dead else Pending))
      as Hnew.
    { unfold entry_state. simpl. rewrite Hmax.
      by destruct (row_attempts r + 1 >=? 3). }
    rewrite Hnew.
    split; [done|]. split; [done|]. split; [done|]. split; [|split].
    + destruct (Z.geb_spec (row_attempts r + 1) 3); split; (done || lia).
    + destruct (Z.geb_spec (row_attempts r + 1) 3); (done || lia).
    + intros q limit Hq. eexists. split.
      { by apply fetchPending_healthy. }
      simpl. rewrite <- Hid.
      change (row_id r) with (row_id (SqliteQueue.set_failed error r)).
      apply pending_page_reaches.
      * unfold SqliteQueue.update_rows.
        apply list_elem_of_fmap. exists r. simpl. by rewrite Z.eqb_refl.
      * unfold SqliteQueue.is_pending. simpl. rewrite Hmax, Hq.
        destruct (Z.geb_spec (row_attempts r + 1) 3); [lia|].
        by rewrite String.eqb_refl.
  - intros this m e1 e2 e3 id db1 db2 db3 entry.
    pose proof (queue_wf_fresh db Hwf) as Hfresh. fold id in Hfresh.
    assert (db1 = set_write_queue_seq id
                    (set_write_queue (write_queue db ++ [entry 0 0 None]) db))
      as Hdb1.
    { unfold db1. by rewrite send_healthy. }
    assert (healthy db1) as Hh1 by (by rewrite Hdb1).
    assert (db2 = set_write_queue_seq id
                    (set_write_queue
                       (write_queue db ++ [entry 0 2 (Some e2)]) db))
      as Hdb2.
    { unfold db2, bind. rewrite markFailed_healthy by done.
      rewrite markFailed_healthy by done. rewrite Hdb1. simpl.
      rewrite !update_rows_last by done. done. }
    assert (healthy db2) as Hh2 by (by rewrite Hdb2).
    assert (db3 = set_write_queue_seq id
                    (set_write_queue
                       (write_queue db ++ [entry (-1) 3 (Some e3)]) db))
      as Hdb3.
    { unfold db3. rewrite markFailed_healthy by done. rewrite Hdb2. simpl.
      rewrite !update_rows_last by done. done. }
    split; [|split; [|split; [|split]]].
    + rewrite Hdb1. unfold find_row. simpl. by apply find_last.
    + rewrite Hdb2. unfold find_row. simpl. by apply find_last.
    + intros limit. eexists. split; [by apply fetchPending_healthy|].
      apply (pending_page_reaches (SqliteQueue.name this) (default 10 limit)
               (write_queue db2) (entry 0 2 (Some e2))).
      * rewrite Hdb2. simpl. apply elem_of_app. right.
        by apply list_elem_of_singleton.
      * unfold SqliteQueue.is_pending. simpl. by rewrite String.eqb_refl.
    + rewrite Hdb3. unfold find_row. simpl. by apply find_last.
    + intros calls q limit page.
      apply exhausted_not_fetched. apply exhausted_calls.
      * rewrite Hdb3. simpl. lia.
      * rewrite Hdb3. unfold exhausted. simpl. apply Forall_app. split.
        -- eapply Forall_impl; [exact Hfresh|]. simpl. intros r Hne He. done.
        -- apply Forall_singleton. simpl. intros _. split; [done | lia].
Qed.

(** ** The key-value tables: single statements *)

Lemma table_healthy this t db :
  tables db !! Sqlite.canonical (SqliteKVStorage.tableName this) = Some t ->
  Sqlite.table (SqliteKVStorage.tableName this) db = (JS.Normal t, db).
Proof. unfold Sqlite.table. by intros ->. Qed.

Lemma table_missing this db :
  tables db !! Sqlite.canonical (SqliteKVStorage.tableName this) = None ->
  exists e, Sqlite.table (SqliteKVStorage.tableName this) db = (JS.Throw e, db).
Proof. unfold Sqlite.table. intros ->. by eexists. Qed.

Lemma get_healthy this key t db :
  healthy db ->
  tables db !! Sqlite.canonical (SqliteKVStorage.tableName this) = Some t ->
  SqliteKVStorage.get this key None db
  = (JS.Normal (from_option JS.Str JS.Null (t !! key)), db).
Proof.
  intros Hh Ht.
  unfold SqliteKVStorage.get, SqliteKVStorage.stmtGet_get, bind.
  rewrite (step_healthy _ Hh), (table_healthy _ _ _ Ht). simpl.
  by destruct (t !! key).
Qed.

Lemma put_healthy this key value t db :
  healthy db ->
  tables db !! Sqlite.canonical (SqliteKVStorage.tableName this) = Some t ->
  SqliteKVStorage.put this key value db
  = (JS.Normal tt,
     set_tables
       (<[Sqlite.canonical (SqliteKVStorage.tableName this)
          := <[key := value]> t]> (tables db)) db).
Proof.
  intros Hh Ht.
  unfold SqliteKVStorage.put, SqliteKVStorage.stmtPut_run, bind.
  by rewrite (step_healthy _ Hh), (table_healthy _ _ _ Ht).
Qed.

Lemma delete_healthy this key t db :
  healthy db ->
  tables db !! Sqlite.canonical (SqliteKVStorage.tableName this) = Some t ->
  SqliteKVStorage.delete this key db
  = (JS.Normal tt,
     set_tables
       (<[Sqlite.canonical (SqliteKVStorage.tableName this)
          := delete key t]> (tables db)) db).
Proof.
  intros Hh Ht.
  unfold SqliteKVStorage.delete, SqliteKVStorage.stmtDelete_run, bind.
  by rewrite (step_healthy _ Hh), (table_healthy _ _ _ Ht).
Qed.

(** ** The key-value tables: [get] after puts and deletes *)

Lemma same_namespace_spec ns ns' :
  same_namespace ns ns' = true <-> Sqlite.canonical ns = Sqlite.canonical ns'.
Proof. unfold same_namespace. apply String.eqb_eq. Qed.

Lemma kv_call_get c db ns key :
  healthy db ->
  is_Some (tables db !! Sqlite.canonical (kv_namespace c)) ->
  is_Some (tables db !! Sqlite.canonical ns) ->
  exists db',
    kv_call c db = (JS.Normal tt, db')
    /\ healthy db'
    /\ (forall n, is_Some (tables db !! n) -> is_Some (tables db' !! n))
    /\ fst (SqliteKVStorage.get (SqliteKVStorage.mk ns) key None db')
       = expected_get (latest_write ns key None c)
           (fst (SqliteKVStorage.get (SqliteKVStorage.mk ns) key None db)).
Proof.
  intros Hh [tc Htc] [t Ht].
  rewrite (get_healthy (SqliteKVStorage.mk ns) key t db Hh Ht).
  destruct c as [ns' key' value|ns' key']; simpl in *.
  - rewrite (put_healthy (SqliteKVStorage.mk ns') key' value tc db Hh Htc).
    eexists. split; [done|]. split; [done|]. split.
    { simpl. intros n Hn.
      destruct (decide (Sqlite.canonical ns' = n)) as [<-|Hne].
      - rewrite lookup_insert_eq. by eexists.
      - by rewrite lookup_insert_ne. }
    destruct (same_namespace ns ns') eqn:Hns; simpl.
    + apply same_namespace_spec in Hns. rewrite Hns in Ht.
      assert (tc = t) as -> by congruence.
      erewrite get_healthy; [|done|simpl; rewrite Hns; apply lookup_insert_eq].
      simpl. destruct (String.eqb_spec key key') as [->|Hk].
      * by rewrite lookup_insert_eq.
      * by rewrite lookup_insert_ne.
    + assert (Sqlite.canonical ns' <> Sqlite.canonical ns) as Hne.
      { intros E. apply not_true_iff_false in Hns. apply Hns.
        by apply same_namespace_spec. }
      erewrite get_healthy; [done|done|].
      simpl. by rewrite lookup_insert_ne.
  - rewrite (delete_healthy (SqliteKVStorage.mk ns') key' tc db Hh Htc).
    eexists. split; [done|]. split; [done|]. split.
    { simpl. intros n Hn.
      destruct (decide (Sqlite.canonical ns' = n)) as [<-|Hne].
      - rewrite lookup_insert_eq. by eexists.
      - by rewrite lookup_insert_ne. }
    destruct (same_namespace ns ns') eqn:Hns; simpl.
    + apply same_namespace_spec in Hns. rewrite Hns in Ht.
      assert (tc = t) as -> by congruence.
      erewrite get_healthy; [|done|simpl; rewrite Hns; apply lookup_insert_eq].
      simpl. destruct (String.eqb_spec key key') as [->|Hk].
      * by rewrite lookup_delete_eq.
      * by rewrite lookup_delete_ne.
    + assert (Sqlite.canonical ns' <> Sqlite.canonical ns) as Hne.
      { intros E. apply not_true_iff_false in Hns. apply Hns.
        by apply same_namespace_spec. }
      erewrite get_healthy; [done|done|].
      simpl. by rewrite lookup_insert_ne.
Qed.

Lemma latest_write_acc ns key calls acc :
  fold_left (latest_write ns key) calls acc
  = match fold_left (latest_write ns key) calls None with
    | Some w => Some w
    | None => acc
    end.
Proof.
  revert acc. induction calls as [|c calls IH]; intros acc; [done|]. simpl.
  rewrite (IH (latest_write ns key acc c)), (IH (latest_write ns key None c)).
  destruct (fold_left _ calls None); [done|].
  destruct c; simpl; by case_match.
Qed.

(** [get] after a sequence of calls, from what it returned before them. *)
Lemma get_after_calls calls db ns key :
  healthy db ->
  Forall (fun c => is_Some (tables db !! Sqlite.canonical (kv_namespace c)))
         calls ->
  is_Some (tables db !! Sqlite.canonical ns) ->
  exists db',
    for_of calls kv_call db = (JS.Normal tt, db')
    /\ fst (SqliteKVStorage.get (SqliteKVStorage.mk ns) key None db')
       = expected_get (most_recent_put ns key calls)
           (fst (SqliteKVStorage.get (SqliteKVStorage.mk ns) key None db)).
Proof.
  intros Hh Hcalls Hns. unfold most_recent_put.
  revert db Hh Hcalls Hns.
  induction calls as [|c calls IH]; intros db Hh Hcalls Hns.
  - by exists db.
  - apply Forall_cons in Hcalls as [Hc Hcalls].
    destruct (kv_call_get c db ns key Hh Hc Hns) as (db1 & Hrun & Hh1 & Hdom & Hget).
    destruct (IH db1 Hh1) as (db' & Hrun' & Hget').
    { eapply Forall_impl; [exact Hcalls|]. simpl. intros c'. apply Hdom. }
    { by apply Hdom. }
    exists db'. rewrite for_of_cons, Hrun. split; [done|].
    rewrite Hget', Hget. simpl.
    rewrite (latest_write_acc ns key calls (latest_write ns key None c)).
    destruct (fold_left _ calls None) as [[|]|]; simpl; done.
Qed.

(** C7. After any sequence of puts and deletes on the tables of the
    database, [get(key)] on a namespace returns the value of the most recent
    put of that key on that namespace that no delete of it on that namespace
    follows, and null when there is none: when the last such call is a
    delete, or when no call touched the record and the table did not hold
    the key before (a record the table held before is returned as it was).
    Calls on other keys and calls on other namespaces, with the same key or
    not, do not count. *)
Theorem get_most_recent_put calls db ns key rows :
  healthy db ->
  Forall (fun c => is_Some (tables db !! Sqlite.canonical (kv_namespace c)))
         calls ->
  tables db !! Sqlite.canonical ns = Some rows ->
  exists db',
    for_of calls kv_call db = (JS.Normal tt, db')
    /\ fst (SqliteKVStorage.get (SqliteKVStorage.mk ns) key None db')
       = JS.Normal
           match most_recent_put ns key calls with
           | Some (Some value) => JS.Str value
           | Some None => JS.Null
           | None => from_option JS.Str JS.Null (rows !! key)
           end.
Proof.
  intros Hh Hcalls Hrows.
  destruct (get_after_calls calls db ns key Hh Hcalls) as (db' & Hrun & Hget).
  { by eexists. }
  exists db'. split; [done|]. rewrite Hget.
  rewrite (get_healthy (SqliteKVStorage.mk ns) key rows db Hh Hrows).
  by destruct (most_recent_put ns key calls) as [[|]|].
Qed.

(** ** The key-value tables: batches *)

Lemma table_updated_same tableName db db' :
  same_data db db' -> table_updated tableName (fun t => t) db db'.
Proof.
  intros (Ht & Hq & Hs & Hn)%same_data_fields. unfold table_updated.
  rewrite Ht, Hq, Hs, Hn. repeat split; try done.
  by destruct (tables db !! _).
Qed.

Lemma table_updated_trans tableName f g db1 db2 db3 :
  table_updated tableName f db1 db2 -> table_updated tableName g db2 db3 ->
  table_updated tableName (fun t => g (f t)) db1 db3.
Proof.
  intros (Hq & Hs & Hn & Ho & Ht) (Hq' & Hs' & Hn' & Ho' & Ht').
  unfold table_updated. rewrite Hq', Hs', Hn', Ht', Ht.
  repeat split; try done.
  - intros n Hne. by rewrite Ho', Ho.
  - by destruct (tables db1 !! _).
Qed.

(** One write statement: it fails and changes nothing, or it changes the
    rows of the table, which has to exist. *)
Lemma write_statement this (f : gmap string string -> gmap string string) db :
  let run :=
    Sqlite.step ;;;
    (let* rows := Sqlite.table (SqliteKVStorage.tableName this) in
     Sqlite.write_table (SqliteKVStorage.tableName this) (f rows)) in
  exists c db',
    run db = (c, db')
    /\ (c = JS.Normal tt
        /\ is_Some (tables db !! Sqlite.canonical (SqliteKVStorage.tableName this))
        /\ table_updated (SqliteKVStorage.tableName this) f db db'
        \/ (exists e, c = JS.Throw e) /\ same_data db db').
Proof.
  simpl. unfold bind.
  destruct (Sqlite.step db) as [[[]|e] db1] eqn:Hs;
    pose proof (step_same_data _ _ _ Hs) as Hd.
  - destruct (same_data_fields _ _ Hd) as (Ht & Hq & Hn & Hw).
    unfold Sqlite.table, Sqlite.write_table. rewrite Ht.
    destruct (tables db !! _) as [t|] eqn:Hl.
    + eexists _, _. split; [done|]. left. split; [done|]. split; [by eexists|].
      unfold table_updated. simpl. rewrite Ht, Hq, Hn, Hw, Hl.
      repeat split; try done.
      * intros n Hne. by rewrite lookup_insert_ne.
      * by rewrite lookup_insert_eq.
    + eexists _, _. split; [done|]. right. split; [by eexists | done].
  - eexists _, _. split; [done|]. right. split; [by eexists | done].
Qed.

(** The loop of a batch: it runs to its end and the rows are those after
    all the writes, or it throws. *)
Lemma write_loop {A} this (write : A -> gmap string string -> gmap string string)
    (body : A -> M Database unit) (items : list A) db :
  (forall item,
     body item
     = (Sqlite.step ;;;
        (let* rows := Sqlite.table (SqliteKVStorage.tableName this) in
         Sqlite.write_table (SqliteKVStorage.tableName this) (write item rows)))) ->
  exists c db',
    for_of items body db = (c, db')
    /\ (c = JS.Normal tt
        /\ (items = []
            \/ is_Some (tables db
                          !! Sqlite.canonical (SqliteKVStorage.tableName this)))
        /\ table_updated (SqliteKVStorage.tableName this)
             (fun t => fold_left (fun t item => write item t) items t) db db'
        \/ exists e, c = JS.Throw e).
Proof.
  intros Hbody. revert db. induction items as [|item items IH]; intros db.
  - eexists _, _. split; [done|]. left. split; [done|]. split; [by left|].
    simpl. apply table_updated_same, same_data_refl.
  - rewrite for_of_cons, Hbody.
    destruct (write_statement this (write item) db)
      as (c & db1 & Hrun & [(-> & Hex & Hup)|[[e ->] _]]);
      cbv zeta in Hrun; rewrite Hrun.
    + destruct (IH db1) as (c' & db' & Hrun' & [(-> & _ & Hup')|[e ->]]).
      * eexists _, _. split; [done|]. left. split; [done|]. split; [by right|].
        simpl. by apply (table_updated_trans _ _ _ _ _ _ Hup Hup').
      * eexists _, _. split; [done|]. right. by eexists.
    + eexists _, _. split; [done|]. right. by eexists.
Qed.

(** A transaction around a loop of writes: all of it, or none of it. *)
Lemma write_transaction {A} this
    (write : A -> gmap string string -> gmap string string)
    (body : A -> M Database unit) (items : list A) db :
  (forall item,
     body item
     = (Sqlite.step ;;;
        (let* rows := Sqlite.table (SqliteKVStorage.tableName this) in
         Sqlite.write_table (SqliteKVStorage.tableName this) (write item rows)))) ->
  exists c db',
    Sqlite.transaction (for_of items body) db = (c, db')
    /\ (c = JS.Normal tt
        /\ (items = []
            \/ is_Some (tables db
                          !! Sqlite.canonical (SqliteKVStorage.tableName this)))
        /\ table_updated (SqliteKVStorage.tableName this)
             (fun t => fold_left (fun t item => write item t) items t) db db'
        \/ (exists e, c = JS.Throw e) /\ same_data db db').
Proof.
  intros Hbody. unfold Sqlite.transaction.
  destruct (Sqlite.step db) as [[[]|e] db1] eqn:Hs;
    pose proof (step_same_data _ _ _ Hs) as Hd.
  2: { eexists _, _. split; [done|]. right. split; [by eexists | done]. }
  assert (forall cur, same_data db (Sqlite.rollback db1 cur)) as Hroll.
  { intros cur. unfold Sqlite.rollback, same_data in *. simpl.
    rewrite Hd. by destruct db. }
  destruct (write_loop this write body items db1 Hbody)
    as (c & db2 & Hrun & [(-> & Hex & Hup)|[e ->]]);
    rewrite Hrun.
  2: { eexists _, _. split; [done|]. right. split; [by eexists | done]. }
  destruct (Sqlite.step db2) as [[[]|e] db3] eqn:Hs3;
    pose proof (step_same_data _ _ _ Hs3) as Hd3.
  2: { eexists _, _. split; [done|]. right. split; [by eexists | done]. }
  eexists _, _. split; [done|]. left. split; [done|]. split.
  - destruct Hex as [->|Hex]; [by left | right].
    by destruct (same_data_fields _ _ Hd) as (<- & _).
  - pose proof (table_updated_trans _ _ _ _ _ _
                  (table_updated_same (SqliteKVStorage.tableName this) _ _ Hd)
                  (table_updated_trans _ _ _ _ _ _ Hup
                     (table_updated_same (SqliteKVStorage.tableName this) _ _ Hd3)))
      as H.
    exact H.
Qed.

(** A batch of two entries or more is all or nothing: [putMultiple] never
    throws; it returns the empty list and the table holds the batch, or it
    returns every key of the batch and the data is what it was. *)
Lemma putMultiple_atomic this entries db :
  (2 <= length entries)%nat ->
  exists failed db',
    SqliteKVStorage.putMultiple this entries db = (JS.Normal failed, db')
    /\ (failed = []
        /\ is_Some (tables db !! Sqlite.canonical (SqliteKVStorage.tableName this))
        /\ table_updated (SqliteKVStorage.tableName this) (put_all entries) db db'
        \/ failed = entries.*1 /\ same_data db db').
Proof.
  intros Hlen. destruct entries as [|e1 [|e2 rest]]; simpl in Hlen; try lia.
  unfold SqliteKVStorage.putMultiple. destruct e1 as [k1 v1].
  set (entries := (k1, v1) :: e2 :: rest).
  cbv zeta. unfold try_catch, bind.
  destruct (write_transaction this (fun e t => <[e.1 := e.2]> t)
              (fun item => SqliteKVStorage.stmtPut_run this item.1 item.2)
              entries db)
    as (c & db' & Hrun & [(-> & Hex & Hup)|[[e ->] Hd]]);
    [done|..]; rewrite Hrun.
  - eexists _, _. split; [done|]. left. split; [done|]. split; [|done].
    by destruct Hex.
  - eexists _, _. split; [done|]. by right.
Qed.

Lemma deleteMultiple_atomic this keys db :
  (2 <= length keys)%nat ->
  exists failed db',
    SqliteKVStorage.deleteMultiple this keys db = (JS.Normal failed, db')
    /\ (failed = []
        /\ is_Some (tables db !! Sqlite.canonical (SqliteKVStorage.tableName this))
        /\ table_updated (SqliteKVStorage.tableName this) (delete_all keys) db db'
        \/ failed = keys /\ same_data db db').
Proof.
  intros Hlen. destruct keys as [|k1 [|k2 rest]]; simpl in Hlen; try lia.
  unfold SqliteKVStorage.deleteMultiple.
  set (keys := k1 :: k2 :: rest).
  cbv zeta. unfold try_catch, bind.
  destruct (write_transaction this (fun k t => delete k t)
              (fun key => SqliteKVStorage.stmtDelete_run this key) keys db)
    as (c & db' & Hrun & [(-> & Hex & Hup)|[[e ->] Hd]]);
    [done|..]; rewrite Hrun.
  - eexists _, _. split; [done|]. left. split; [done|]. split; [|done].
    by destruct Hex.
  - eexists _, _. split; [done|]. by right.
Qed.

Lemma put_all_snoc entries e rows :
  put_all (entries ++ [e]) rows = <[e.1 := e.2]> (put_all entries rows).
Proof. unfold put_all. by rewrite fold_left_app. Qed.

Lemma put_all_lookup_other entries rows key :
  key ∉ entries.*1 -> put_all entries rows !! key = rows !! key.
Proof.
  induction entries as [|e entries IH] using rev_ind; [done|].
  rewrite fmap_app, not_elem_of_app, put_all_snoc. simpl.
  intros [Hin Hne%not_elem_of_cons]. destruct Hne as [Hne _].
  rewrite lookup_insert_ne by done. by apply IH.
Qed.

Lemma put_all_lookup entries rows key value :
  NoDup entries.*1 -> (key, value) ∈ entries ->
  put_all entries rows !! key = Some value.
Proof.
  induction entries as [|e entries IH] using rev_ind.
  { by intros _ ?%not_elem_of_nil. }
  rewrite fmap_app, put_all_snoc. simpl.
  intros Happ Hin. apply NoDup_app in Happ as (Hnd & Hdisj & _).
  apply elem_of_app in Hin as [Hin|Hin].
  2: apply list_elem_of_singleton in Hin.
  - rewrite lookup_insert_ne; [by apply IH|].
    intros E. apply (Hdisj key).
    + by apply (list_elem_of_fmap_2 fst _ (key, value)).
    + rewrite <- E. by apply list_elem_of_singleton.
  - subst e. by rewrite lookup_insert_eq.
Qed.

Lemma delete_all_snoc keys key rows :
  delete_all (keys ++ [key]) rows = delete key (delete_all keys rows).
Proof. unfold delete_all. by rewrite fold_left_app. Qed.

Lemma delete_all_lookup keys rows key :
  delete_all keys rows !! key = if decide (key ∈ keys) then None else rows !! key.
Proof.
  induction keys as [|k keys IH] using rev_ind.
  { by rewrite decide_False by apply not_elem_of_nil. }
  rewrite delete_all_snoc.
  destruct (decide (k = key)) as [->|Hne].
  - rewrite lookup_delete_eq, decide_True; [done|].
    apply elem_of_app. right. by apply list_elem_of_singleton.
  - rewrite lookup_delete_ne, IH by done.
    destruct (decide (key ∈ keys)) as [Hin|Hin].
    + rewrite decide_True; [done|]. apply elem_of_app. by left.
    + rewrite decide_False; [done|].
      rewrite elem_of_app, list_elem_of_singleton.
      intros [?|?]; [done | congruence].
Qed.

(** A batch of distinct keys, of two entries or more, on a healthy engine
    with the table in place: the empty list comes back and [get] returns the
    value of each entry. *)
Lemma putMultiple_visible this entries db :
  (2 <= length entries)%nat -> NoDup entries.*1 -> healthy db ->
  is_Some (tables db !! Sqlite.canonical (SqliteKVStorage.tableName this)) ->
  exists db',
    SqliteKVStorage.putMultiple this entries db = (JS.Normal [], db')
    /\ forall key value, (key, value) ∈ entries ->
         fst (SqliteKVStorage.get this key None db') = JS.Normal (JS.Str value).
Proof.
  intros Hlen Hnd Hh [t Ht].
  destruct entries as [|e1 [|e2 rest]]; simpl in Hlen; try lia.
  set (entries := e1 :: e2 :: rest) in *.
  assert (SqliteKVStorage.putMultiple this entries db
          = (JS.Normal [],
             set_tables (<[Sqlite.canonical (SqliteKVStorage.tableName this)
                           := put_all entries t]> (tables db)) db)) as Hrun.
  { unfold SqliteKVStorage.putMultiple, entries. destruct e1 as [k1 v1].
    cbv zeta. unfold try_catch, bind at 1, Sqlite.transaction.
    rewrite (step_healthy _ Hh).
    assert (forall items rows db0,
      healthy db0 ->
      tables db0 !! Sqlite.canonical (SqliteKVStorage.tableName this) = Some rows ->
      for_of items
        (fun item => SqliteKVStorage.stmtPut_run this item.1 item.2) db0
      = (JS.Normal tt,
         set_tables (<[Sqlite.canonical (SqliteKVStorage.tableName this)
                       := put_all items rows]> (tables db0)) db0)) as Hloop.
    { induction items as [|item items IH]; intros rows db0 Hh0 Hrows.
      - simpl. unfold ret. f_equal. rewrite insert_id by done. by destruct db0.
      - rewrite for_of_cons.
        pose proof (put_healthy this item.1 item.2 rows db0 Hh0 Hrows) as Hput.
        unfold SqliteKVStorage.put in Hput. rewrite Hput.
        rewrite (IH (<[item.1 := item.2]> rows)); [|done|].
        + simpl. by rewrite insert_insert_eq.
        + simpl. by rewrite lookup_insert_eq. }
    rewrite (Hloop _ t db Hh Ht). rewrite step_healthy by done. done. }
  eexists. split; [exact Hrun|].
  intros key value Hin.
  rewrite (get_healthy this key (put_all entries t));
    [|done|simpl; apply lookup_insert_eq].
  by rewrite (put_all_lookup entries t key value Hnd Hin).
Qed.

(** A batch of one entry is a plain [put], outside any [try]: when the
    statement fails, the exception reaches the caller and no list of failed
    keys is returned; the data is what it was. *)
Lemma putMultiple_single this key value db :
  exists c db',
    SqliteKVStorage.putMultiple this [(key, value)] db = (c, db')
    /\ (c = JS.Normal []
        /\ table_updated (SqliteKVStorage.tableName this)
             (fun t => <[key := value]> t) db db'
        \/ (exists e, c = JS.Throw e) /\ same_data db db').
Proof.
  unfold SqliteKVStorage.putMultiple, SqliteKVStorage.put,
    SqliteKVStorage.stmtPut_run.
  destruct (write_statement this (fun t => <[key := value]> t) db)
    as (c & db' & Hrun & [(-> & Hex & Hup)|[[e ->] Hd]]);
    cbv zeta in Hrun; unfold bind at 1; rewrite Hrun.
  - eexists _, _. split; [done|]. by left.
  - eexists _, _. split; [done|]. right. split; [by eexists | done].
Qed.

(** C1, where the code departs from it. With the table gone (the failure of
    the tests), a batch of one entry makes [putMultiple] throw, and a batch
    of one key makes [deleteMultiple] throw: the key does not come back as
    failed. Batches of two go through the transaction and do return their
    keys. *)
Theorem multiple_of_one_throws this key value db :
  tables db !! Sqlite.canonical (SqliteKVStorage.tableName this) = None ->
  (exists e, fst (SqliteKVStorage.putMultiple this [(key, value)] db)
             = JS.Throw e)
  /\ (exists e, fst (SqliteKVStorage.deleteMultiple this [key] db) = JS.Throw e)
  /\ (forall key2 value2,
        fst (SqliteKVStorage.putMultiple this [(key, value); (key2, value2)] db)
        = JS.Normal [key; key2])
  /\ (forall key2,
        fst (SqliteKVStorage.deleteMultiple this [key; key2] db)
        = JS.Normal [key; key2]).
Proof.
  intros Hgone. split; [|split; [|split]].
  - unfold SqliteKVStorage.putMultiple, SqliteKVStorage.put,
      SqliteKVStorage.stmtPut_run, bind.
    destruct (Sqlite.step db) as [[[]|e] db1] eqn:Hs; [|by eexists].
    destruct (same_data_fields _ _ (step_same_data _ _ _ Hs)) as (Ht & _).
    unfold Sqlite.table. rewrite Ht, Hgone. by eexists.
  - unfold SqliteKVStorage.deleteMultiple, SqliteKVStorage.delete,
      SqliteKVStorage.stmtDelete_run, bind.
    destruct (Sqlite.step db) as [[[]|e] db1] eqn:Hs; [|by eexists].
    destruct (same_data_fields _ _ (step_same_data _ _ _ Hs)) as (Ht & _).
    unfold Sqlite.table. rewrite Ht, Hgone. by eexists.
  - intros key2 value2.
    destruct (putMultiple_atomic this [(key, value); (key2, value2)] db)
      as (failed & db' & -> & [(_ & [t Ht] & _)|[-> _]]); [simpl; lia| |done].
    congruence.
  - intros key2.
    destruct (deleteMultiple_atomic this [key; key2] db)
      as (failed & db' & -> & [(_ & [t Ht] & _)|[-> _]]); [simpl; lia| |done].
    congruence.
Qed.

(** ** The key-value tables: [list] *)

Lemma select_keys_healthy this pattern after limit rows db :
  healthy db ->
  tables db !! Sqlite.canonical (SqliteKVStorage.tableName this) = Some rows ->
  SqliteKVStorage.select_keys this pattern after limit db
  = (JS.Normal (select_page rows pattern after limit), db).
Proof.
  intros Hh Ht. unfold SqliteKVStorage.select_keys, bind.
  by rewrite (step_healthy _ Hh), (table_healthy _ _ _ Ht).
Qed.

Lemma list_healthy this options rows db :
  healthy db ->
  tables db !! Sqlite.canonical (SqliteKVStorage.tableName this) = Some rows ->
  SqliteKVStorage.list this options db
  = (JS.Normal
       (page_of (select_page rows (list_prefix options +:+ "%")
                   (list_after options) (list_limit options))
                (list_limit options)),
     db).
Proof.
  intros Hh Ht. unfold SqliteKVStorage.list. cbv zeta. unfold bind.
  fold (list_prefix options) (list_limit options) (list_after options).
  by rewrite (select_keys_healthy _ _ _ _ _ _ Hh Ht).
Qed.

Lemma like_star p s :
  Text.like (String "%" p) s
  = (Text.at_boundary s && Text.like p s)
    || match s with
       | EmptyString => false
       | String _ s' => Text.like (String "%" p) s'
       end.
Proof. by destruct s. Qed.

Lemma like_percent key : Text.like "%" key = true.
Proof.
  induction key as [|c key IH]; [done|].
  rewrite like_star, IH. apply orb_true_r.
Qed.

Lemma filter_all {A} (P : A -> Prop) `{!forall x, Decision (P x)} (l : list A) :
  (forall x, P x) -> filter P l = l.
Proof.
  intros Hall. induction l as [|x l IH]; [done|].
  by rewrite filter_cons_True, IH.
Qed.

Lemma elem_of_keys (rows : gmap string string) key :
  key ∈ (map_to_list rows).*1 <-> is_Some (rows !! key).
Proof.
  rewrite list_elem_of_fmap. split.
  - intros ([k v] & -> & Hin). apply elem_of_map_to_list in Hin. by eexists.
  - intros [v Hv]. exists (key, v). split; [done|].
    by apply elem_of_map_to_list.
Qed.

Lemma elem_of_sorted_keys rows key :
  key ∈ sorted_keys rows <-> is_Some (rows !! key).
Proof.
  unfold sorted_keys, Sqlite.order_by_key.
  rewrite merge_sort_Permutation. apply elem_of_keys.
Qed.

Lemma length_sorted_keys rows : length (sorted_keys rows) = size rows.
Proof.
  unfold sorted_keys, Sqlite.order_by_key.
  rewrite merge_sort_Permutation, length_fmap. apply length_map_to_list.
Qed.

(** C10. A limit of 0 is the default limit 1000, as an absent limit is: the
    three calls are the same call. An empty prefix matches every key. So
    [list({ prefix: '', limit: 0 })] returns the first 1000 keys of the
    table in order, not an empty page: all of them when there are fewer. *)
Theorem list_limit_zero this db rows :
  healthy db ->
  tables db !! Sqlite.canonical (SqliteKVStorage.tableName this) = Some rows ->
  (forall prefix cursor,
     SqliteKVStorage.list this (Some (KVListOptions.mk prefix (Some 0) cursor)) db
     = SqliteKVStorage.list this
         (Some (KVListOptions.mk prefix (Some 1000) cursor)) db
     /\ SqliteKVStorage.list this (Some (KVListOptions.mk prefix None cursor)) db
        = SqliteKVStorage.list this
            (Some (KVListOptions.mk prefix (Some 1000) cursor)) db)
  /\ (forall key, Text.like ("" +:+ "%") key = true)
  /\ exists page,
       SqliteKVStorage.list this
         (Some (KVListOptions.mk (Some "") (Some 0) None)) db
       = (JS.Normal page, db)
       /\ KVListResult.keys page = take 1000 (sorted_keys rows)
       /\ (rows <> ∅ -> KVListResult.keys page <> [])
       /\ ((size rows < 1000)%nat ->
             KVListResult.list_complete page = true
             /\ forall key, key ∈ KVListResult.keys page <-> is_Some (rows !! key)).
Proof.
  intros Hh Ht. split; [by intros prefix cursor|]. split.
  { intros key. apply like_percent. }
  set (options := Some (KVListOptions.mk (Some "") (Some 0) None)).
  rewrite (list_healthy _ options _ _ Hh Ht). eexists. split; [done|].
  assert (select_page rows ("" +:+ "%") None 1000 = take 1000 (sorted_keys rows))
    as Hkeys.
  { unfold select_page, sorted_keys, Sqlite.limit. simpl.
    rewrite filter_all; [done|].
    intros key. unfold SqliteKVStorage.where_clause.
    by rewrite like_percent. }
  change (list_prefix options) with "".
  change (list_limit options) with 1000.
  change (list_after options) with (@None string).
  rewrite Hkeys. unfold page_of.
  cbn [KVListResult.keys KVListResult.list_complete].
  split; [done|]. split.
  - intros Hne Hnil. apply (f_equal length) in Hnil.
    rewrite length_take, length_sorted_keys in Hnil.
    apply map_size_non_empty_iff in Hne. cbn [length] in Hnil. lia.
  - intros Hsize. split.
    + rewrite length_take, length_sorted_keys.
      destruct (Z.eqb_spec (Z.of_nat (1000 `min` size rows)) 1000); [lia|done].
    + intros key. rewrite take_ge by (rewrite length_sorted_keys; lia).
      apply elem_of_sorted_keys.
Qed.

(** *** The prefix of [list] is a LIKE pattern *)

Lemma like_cons c p s :
  c <> "%"%char -> c <> "_"%char ->
  Text.like (String c p) s
  = match s with
    | String d s' => Text.nocase_eq c d && Text.like p s'
    | EmptyString => false
    end.
Proof.
  intros H1 H2. simpl.
  destruct (ascii_dec c "%"); [done|]. by destruct (ascii_dec c "_").
Qed.


Lemma nocase_eq_plain c d :
  plain_char c = true -> Text.nocase_eq c d = if ascii_dec c d then true else false.
Proof.
  unfold plain_char, Text.nocase_eq.
  intros Hc. apply andb_true_iff in Hc as [Hc Hlow].
  apply andb_true_iff in Hc as [_ Hup].
  apply negb_true_iff in Hup, Hlow.
  destruct (ascii_dec c d) as [|Hne]; [done|].
  destruct ((Text.code c <? 128)%N && (Text.code d <? 128)%N) eqn:Hascii;
    [|done]. simpl.
  apply bool_decide_eq_false. intros Heq. apply Hne.
  unfold Text.tolower in Heq. rewrite Hup in Heq.
  destruct (Text.is_upper d) eqn:Hd; [|done]. exfalso.
  unfold Text.is_upper in Hd.
  apply andb_true_iff in Hd as [Hd1%N.leb_le Hd2%N.leb_le].
  assert (Text.code c = Text.code d + 32)%N as Hc.
  { rewrite Heq. unfold Text.code in *. apply N_ascii_embedding. lia. }
  rewrite Hc in Hlow.
  apply andb_false_iff in Hlow as [H%N.leb_gt|H%N.leb_gt]; lia.
Qed.

(** On a prefix without wildcards and letters the pattern of [list] is the
    starts-with test. *)
Lemma like_plain_prefix p key :
  plain p = true -> Text.like (p +:+ "%") key = String.prefix p key.
Proof.
  revert key. induction p as [|c p IH]; intros key Hp.
  - simpl String.app. rewrite like_percent. by destruct key.
  - simpl in Hp. apply andb_true_iff in Hp as [Hc Hp].
    assert (c <> "%"%char /\ c <> "_"%char) as [H1 H2].
    { pose proof Hc as Hc'. unfold plain_char in Hc'.
      apply andb_true_iff in Hc' as [Hc' _].
      apply andb_true_iff in Hc' as [Hc' _].
      apply andb_true_iff in Hc' as [H1 H2].
      apply negb_true_iff, Ascii.eqb_neq in H1.
      apply negb_true_iff, Ascii.eqb_neq in H2. done. }
    change (String c p +:+ "%") with (String c (p +:+ "%")).
    rewrite like_cons by done. destruct key as [|d key]; [done|].
    rewrite (nocase_eq_plain c d Hc), IH by done. simpl.
    by destruct (ascii_dec c d).
Qed.

(** C4, where the code departs from it. The prefix goes into the LIKE
    pattern as it is: with the keys [a_1] and [ab1] stored, [list] with
    prefix [a_] returns both, though [a_] is a prefix of the first only; with
    prefix [A] it returns both, though no key starts with [A]; with prefix
    [%1] it returns both as well. *)
Theorem list_prefix_is_like_pattern :
  let this := SqliteKVStorage.mk "playlists" in
  let db :=
    mkDatabase {[ "playlists" := {[ "a_1" := "x"; "ab1" := "y" ]} ]}
      [] 0 0 [] in
  let list_keys prefix :=
    fst (SqliteKVStorage.list this
           (Some (KVListOptions.mk (Some prefix) None None)) db) in
  String.prefix "a_" "ab1" = false
  /\ list_keys "a_" = JS.Normal (KVListResult.mk ["a_1"; "ab1"] true None)
  /\ String.prefix "A" "a_1" = false /\ String.prefix "A" "ab1" = false
  /\ list_keys "A" = JS.Normal (KVListResult.mk ["a_1"; "ab1"] true None)
  /\ String.prefix "%1" "a_1" = false /\ String.prefix "%1" "ab1" = false
  /\ list_keys "%1" = JS.Normal (KVListResult.mk ["a_1"; "ab1"] true None).
Proof. vm_compute. by repeat split. Qed.

(** *** Paging through [list] *)

Lemma gt_spec a b : Text.gt a b = true <-> String.le b a /\ b <> a.
Proof.
  unfold Text.gt, String.ltb, String.le, String.leb.
  destruct (String.compare b a) eqn:E.
  - split; [done|]. intros [_ H]. by apply String.compare_eq_iff in E.
  - split; [|done]. intros _. split; [done|].
    intros ->. pose proof (String.compare_antisym a a) as Ha.
    rewrite E in Ha. done.
  - split; [done|]. by intros [H _].
Qed.

Lemma filter_all_Forall {A} (P : A -> Prop) `{!forall x, Decision (P x)}
    (l : list A) :
  Forall P l -> filter P l = l.
Proof.
  induction 1 as [|x l Hx _ IH]; [done|]. by rewrite filter_cons_True, IH.
Qed.

Lemma filter_none_Forall {A} (P : A -> Prop) `{!forall x, Decision (P x)}
    (l : list A) :
  Forall (fun x => ~ P x) l -> filter P l = [].
Proof.
  induction 1 as [|x l Hx _ IH]; [done|]. by rewrite filter_cons_False.
Qed.

Lemma StronglySorted_filter {A} (R : relation A) (P : A -> Prop)
    `{!forall x, Decision (P x)} l :
  StronglySorted R l -> StronglySorted R (filter P l).
Proof.
  induction 1 as [|x l Hl IH Hx]; [constructor|].
  rewrite filter_cons. destruct (decide (P x)); [|done].
  constructor; [done|].
  apply Forall_forall. intros y [_ Hy]%list_elem_of_filter.
  rewrite Forall_forall in Hx. by apply Hx.
Qed.

Lemma order_by_key_sorted keys :
  StronglySorted String.le (Sqlite.order_by_key keys).
Proof. apply StronglySorted_merge_sort; apply _. Qed.

Lemma order_by_key_filter (P : string -> Prop) `{!forall x, Decision (P x)} keys :
  Sqlite.order_by_key (filter P keys) = filter P (Sqlite.order_by_key keys).
Proof.
  apply (StronglySorted_unique String.le).
  - apply order_by_key_sorted.
  - apply StronglySorted_filter, order_by_key_sorted.
  - unfold Sqlite.order_by_key. by rewrite !merge_sort_Permutation.
Qed.

(** All the keys that match a pattern, in order: what [list] would return
    without a limit. *)
Lemma select_page_unbounded rows pattern :
  select_page rows pattern None (-1)
  = filter (fun k => Text.like pattern k = true) (sorted_keys rows).
Proof.
  unfold select_page, Sqlite.limit, sorted_keys. simpl.
  rewrite <- order_by_key_filter. f_equal. apply list_filter_iff.
  intros k. unfold SqliteKVStorage.where_clause. by rewrite andb_true_r.
Qed.

Lemma select_page_after rows pattern c limit :
  0 <= limit ->
  select_page rows pattern (Some c) limit
  = take (Z.to_nat limit)
      (filter (fun k => Text.gt k c = true) (select_page rows pattern None (-1))).
Proof.
  intros Hl. rewrite select_page_unbounded.
  unfold select_page, Sqlite.limit, sorted_keys.
  destruct (Z.ltb_spec limit 0); [lia|]. f_equal.
  rewrite list_filter_filter, <- order_by_key_filter. f_equal.
  apply list_filter_iff. intros k. unfold SqliteKVStorage.where_clause.
  rewrite andb_true_iff. tauto.
Qed.

Lemma select_page_first rows pattern limit :
  0 <= limit ->
  select_page rows pattern None limit
  = take (Z.to_nat limit) (select_page rows pattern None (-1)).
Proof.
  intros Hl. unfold select_page at 1, Sqlite.limit.
  destruct (Z.ltb_spec limit 0); [lia|]. done.
Qed.

Lemma select_page_unbounded_sorted rows pattern :
  StronglySorted String.le (select_page rows pattern None (-1))
  /\ NoDup (select_page rows pattern None (-1)).
Proof.
  rewrite select_page_unbounded. split.
  - apply StronglySorted_filter, order_by_key_sorted.
  - apply NoDup_filter. unfold sorted_keys, Sqlite.order_by_key.
    rewrite merge_sort_Permutation. apply NoDup_fst_map_to_list.
Qed.

(** In a sorted list without duplicates, the keys after the last key of a
    front part are the rest of the list. *)
Lemma filter_after_cursor front rest c :
  StronglySorted String.le (front ++ rest) -> NoDup (front ++ rest) ->
  last front = Some c ->
  filter (fun k => Text.gt k c = true) (front ++ rest) = rest.
Proof.
  intros Hs Hnd Hlast. apply last_Some in Hlast as [front' ->].
  apply StronglySorted_app in Hs as (Hcross & Hfront & _).
  apply NoDup_app in Hnd as (Hndf & Hdisj & _).
  rewrite filter_app, filter_none_Forall, filter_all_Forall; [done| |].
  - apply Forall_forall. intros x Hx. apply gt_spec. split.
    + apply Hcross; [|done]. apply elem_of_app. right.
      by apply list_elem_of_singleton.
    + intros <-. apply (Hdisj c); [|done]. apply elem_of_app. right.
      by apply list_elem_of_singleton.
  - apply Forall_forall. intros x Hx [Hle Hne]%gt_spec. apply Hne.
    apply elem_of_app in Hx as [Hx|Hx%list_elem_of_singleton]; [|done].
    apply (anti_symm String.le); [done|].
    apply StronglySorted_app in Hfront as (Hc & _ & _).
    apply Hc; [done|]. by apply list_elem_of_singleton.
Qed.

Lemma limit_NoDup {A} n (l : list A) : NoDup l -> NoDup (Sqlite.limit n l).
Proof.
  unfold Sqlite.limit. destruct (n <? 0); [done|]. intros H.
  rewrite <- (take_drop (Z.to_nat n) l) in H. by apply NoDup_app in H as [H _].
Qed.

Lemma list_limit_nonzero options : list_limit options <> 0.
Proof.
  unfold list_limit, SqliteKVStorage.or_number.
  destruct (options ≫= KVListOptions.limit) as [n|]; [|done].
  by destruct (Z.eqb_spec n 0).
Qed.

(** What a page of [list] is made of, on a healthy engine: stored keys that
    match the pattern of the prefix and come strictly after the cursor, in
    ascending order, each once, no more than the limit. A page of exactly
    [limit] keys is not complete and hands out its last key as cursor; a
    shorter page is complete and hands out none. *)
Lemma list_page_shape this options rows db :
  healthy db ->
  tables db !! Sqlite.canonical (SqliteKVStorage.tableName this) = Some rows ->
  exists page,
    SqliteKVStorage.list this options db = (JS.Normal page, db)
    /\ Forall (fun k => Text.like (list_prefix options +:+ "%") k = true
                        /\ is_Some (rows !! k)) (KVListResult.keys page)
    /\ (forall c, list_after options = Some c ->
                  Forall (fun k => Text.gt k c = true) (KVListResult.keys page))
    /\ StronglySorted String.le (KVListResult.keys page)
    /\ NoDup (KVListResult.keys page)
    /\ (0 <= list_limit options ->
        Z.of_nat (length (KVListResult.keys page)) <= list_limit options)
    /\ (Z.of_nat (length (KVListResult.keys page)) = list_limit options ->
        KVListResult.list_complete page = false
        /\ KVListResult.cursor page = last (KVListResult.keys page)
        /\ is_Some (KVListResult.cursor page))
    /\ (Z.of_nat (length (KVListResult.keys page)) <> list_limit options ->
        KVListResult.list_complete page = true
        /\ KVListResult.cursor page = None).
Proof.
  intros Hh Ht. rewrite (list_healthy _ _ _ _ Hh Ht). eexists. split; [done|].
  unfold page_of. cbn [KVListResult.keys KVListResult.list_complete
                       KVListResult.cursor].
  set (keys := select_page _ _ _ _).
  assert (forall k, k ∈ keys ->
            SqliteKVStorage.where_clause (list_prefix options +:+ "%")
              (list_after options) k = true /\ is_Some (rows !! k)) as Hin.
  { intros k Hk%limit_subset. unfold Sqlite.order_by_key in Hk.
    rewrite merge_sort_Permutation in Hk.
    apply list_elem_of_filter in Hk as [Hw Hk]. split; [done|].
    by apply elem_of_keys. }
  split; [|split; [|split; [|split; [|split; [|split]]]]].
  - apply Forall_forall. intros k [Hw Hk]%Hin. split; [|done].
    unfold SqliteKVStorage.where_clause in Hw.
    by apply andb_true_iff in Hw as [Hw _].
  - intros c Hc. apply Forall_forall. intros k [Hw _]%Hin.
    unfold SqliteKVStorage.where_clause in Hw. rewrite Hc in Hw.
    by apply andb_true_iff in Hw as [_ Hw].
  - apply limit_sorted, order_by_key_sorted.
  - apply limit_NoDup. unfold Sqlite.order_by_key.
    rewrite merge_sort_Permutation. apply NoDup_filter, NoDup_fst_map_to_list.
  - intros Hl. by apply limit_length.
  - intros Hfull. rewrite Hfull, Z.eqb_refl.
    pose proof (list_limit_nonzero options) as Hnz.
    destruct (Z.ltb_spec 0 (list_limit options)) as [_|]; [|lia].
    split; [done|]. split; [done|].
    destruct (last keys) eqn:E; [by eexists|].
    apply last_None in E. rewrite E in Hfull. simpl in Hfull. lia.
  - intros Hshort.
    by destruct (Z.eqb_spec (Z.of_nat (length keys)) (list_limit options)).
Qed.

Section Paging.

Variable this : SqliteKVStorage.t.
Variable prefix : option string.
Variable L : Z.
Variable db : Database.
Variable rows : gmap string string.

Hypothesis engine_healthy : healthy db.
Hypothesis table_rows :
  tables db !! Sqlite.canonical (SqliteKVStorage.tableName this) = Some rows.
Hypothesis limit_positive : 0 < L.

Hypothesis no_empty_key : "" ∉ listing rows prefix.

Lemma page_after front rest :
  listing rows prefix = front ++ rest ->
  SqliteKVStorage.list this
    (Some (KVListOptions.mk prefix (Some L) (last front))) db
  = (JS.Normal (page_of (take (Z.to_nat L) rest) L), db).
Proof.
  intros Hall.
  rewrite (list_healthy _ _ _ _ engine_healthy table_rows).
  unfold list_limit, list_prefix, list_after. simpl.
  destruct (Z.eqb_spec L 0) as [|_]; [lia|]. do 3 f_equal.
  destruct (last front) as [c|] eqn:Hlast.
  - destruct (String.eqb_spec c "") as [->|_].
    + exfalso. apply no_empty_key. rewrite Hall. apply elem_of_app. left.
      apply last_Some in Hlast as [front' ->]. apply elem_of_app. right.
      by apply list_elem_of_singleton.
    + rewrite select_page_after by lia. f_equal. fold (listing rows prefix). rewrite Hall.
      destruct (select_page_unbounded_sorted rows
                  (SqliteKVStorage.or_string prefix "" +:+ "%")) as [Hs Hnd].
      fold (listing rows prefix) in Hs, Hnd. rewrite Hall in Hs, Hnd.
      by apply filter_after_cursor.
  - apply last_None in Hlast. subst front. simpl in Hall.
    rewrite select_page_first by lia. fold (listing rows prefix). by rewrite Hall.
Qed.

(** Paging from the cursor that a front part of the keys leaves returns
    the rest of the keys, page by page. *)
Lemma paginate_rest fuel front rest :
  listing rows prefix = front ++ rest -> (length rest < fuel)%nat ->
  exists pages,
    paginate fuel this prefix (Some L) (last front) db
    = (JS.Normal (Some pages), db)
    /\ concat pages = rest
    /\ Forall (fun page => Z.of_nat (length page) <= L) pages.
Proof.
  revert front rest. induction fuel as [|fuel IH]; intros front rest Hall Hfuel;
    [lia|].
  cbn [paginate]. unfold bind at 1. rewrite (page_after front rest Hall).
  unfold page_of. cbn [KVListResult.list_complete KVListResult.keys
                       KVListResult.cursor].
  set (page := take (Z.to_nat L) rest).
  assert (Z.of_nat (length page) <= L) as Hpage.
  { unfold page. rewrite length_take. lia. }
  destruct (Z.eqb_spec (Z.of_nat (length page)) L) as [Hfull|Hshort]; simpl.
  - destruct (Z.ltb_spec 0 (Z.of_nat (length page))) as [_|]; [|lia].
    assert (exists c, last page = Some c) as [c Hc].
    { destruct (last page) eqn:E; [by eexists|].
      apply last_None in E. rewrite E in Hfull. simpl in Hfull. lia. }
    assert (last (front ++ page) = Some c) as Hlast.
    { apply last_Some in Hc as [page' ->]. by rewrite app_assoc, last_snoc. }
    destruct (IH (front ++ page) (drop (Z.to_nat L) rest)) as (pages & Hrun & Hcat & Hlen).
    { rewrite <- app_assoc. unfold page. by rewrite take_drop. }
    { rewrite length_drop. unfold page in Hfull. rewrite length_take in Hfull. lia. }
    rewrite Hlast in Hrun. rewrite Hc. unfold bind. rewrite Hrun. simpl.
    eexists. split; [done|]. split.
    + simpl. rewrite Hcat. unfold page. apply take_drop.
    + by constructor.
  - exists [page]. split; [done|]. split.
    + simpl. rewrite app_nil_r. unfold page. apply take_ge.
      unfold page in Hshort. rewrite length_take in Hshort. lia.
    + by constructor.
Qed.

(** Paging from no cursor, when no listed key is the empty string: the
    pages put end to end are the keys one call without a limit returns,
    each once and in order, every page holds at most [L] keys, and the
    last call says the listing is complete. *)
Lemma paginate_all fuel :
  (length (listing rows prefix) < fuel)%nat ->
  exists pages,
    paginate fuel this prefix (Some L) None db = (JS.Normal (Some pages), db)
    /\ concat pages = listing rows prefix
    /\ NoDup (concat pages)
    /\ StronglySorted String.le (concat pages)
    /\ Forall (fun page => Z.of_nat (length page) <= L) pages.
Proof.
  intros Hfuel.
  destruct (paginate_rest fuel [] (listing rows prefix) eq_refl Hfuel) as (pages & Hrun & Hcat & Hlen).
  exists pages. rewrite Hcat. split; [done|]. split; [done|].
  destruct (select_page_unbounded_sorted rows
              (SqliteKVStorage.or_string prefix "" +:+ "%")) as [Hs Hnd].
  done.
Qed.

End Paging.

(** C5, where the code departs from it. With the keys [""] (the empty
    string) and ["a"] stored and a limit of 1, the first page holds the empty
    key and hands it out as cursor; passed back, the empty cursor is falsy
    and counts as no cursor, so the same page comes again: the listing never
    completes, the empty key is returned on every page and ["a"] on none. One
    call without a limit returns both keys. *)
Theorem paginate_empty_key_loops :
  let this := SqliteKVStorage.mk "playlists" in
  let db :=
    mkDatabase {[ "playlists" := {[ "" := "x"; "a" := "y" ]} ]} [] 0 0 [] in
  let page cursor :=
    SqliteKVStorage.list this (Some (KVListOptions.mk None (Some 1) cursor)) db in
  page None = (JS.Normal (KVListResult.mk [""] false (Some "")), db)
  /\ page (Some "") = page None
  /\ (forall fuel,
        fst (paginate fuel this None (Some 1) None db) = JS.Normal None)
  /\ fst (SqliteKVStorage.list this
            (Some (KVListOptions.mk None (Some (-1)) None)) db)
     = JS.Normal (KVListResult.mk [""; "a"] true None).
Proof.
  intros this db page.
  assert (page None = (JS.Normal (KVListResult.mk [""] false (Some "")), db))
    as Hfirst by (vm_compute; reflexivity).
  assert (page (Some "") = page None) as Hagain by (vm_compute; reflexivity).
  split; [done|]. split; [done|]. split; [|vm_compute; reflexivity].
  assert (forall fuel cursor, cursor = None \/ cursor = Some "" ->
            fst (paginate fuel this None (Some 1) cursor db) = JS.Normal None)
    as Hloop.
  { induction fuel as [|fuel IH]; intros cursor Hcursor; [done|].
    cbn [paginate]. unfold bind at 1.
    fold (page cursor).
    assert (page cursor = page None) as -> by (by destruct Hcursor as [->| ->]).
    rewrite Hfirst. cbn [KVListResult.list_complete KVListResult.cursor
                         KVListResult.keys].
    unfold bind.
    specialize (IH (Some "") (or_intror eq_refl)).
    destruct (paginate fuel this None (Some 1) (Some "") db) as [[r|e] db'];
      simpl in *; [|done].
    by injection IH as ->. }
  intros fuel. apply Hloop. by left.
Qed.

(** ** The processor *)

(** A message that parses to a value without one of the three markers is
    failed as "Invalid message format", on a healthy engine, and nothing is
    sent: the requests made and the answers in store are as before. A value
    whose properties can be read at all is meant: [null] is not one. *)
Lemma process_row_invalid this row v w :
  JS.JSON_parse (PendingRow.message row) = JS.Normal v ->
  (exists marker, marker ∈ markers
                  /\ JS.get_prop v marker = JS.Normal JS.Undefined) ->
  healthy (database w) ->
  SqliteQueueProvider.process_row this row w
  = (JS.Normal tt,
     mkWorld
       (set_write_queue
          (SqliteQueue.update_rows (PendingRow.id row)
             (SqliteQueue.set_failed "Invalid message format")
             (write_queue (database w)))
          (database w))
       (network w) (requests w)).
Proof.
  intros Hparse (marker & Hmarker & Hlacks) Hh.
  assert (SqliteQueueProvider.lacks_markers (S := World) v w = (JS.Normal true, w))
    as Hinvalid.
  { unfold SqliteQueueProvider.lacks_markers, bind, lift, ret.
    destruct v as [| |b|m e|s|items|fields]; try done.
    simpl in *.
    destruct (JS.truthy (JS.lookup_field "operation" fields)) eqn:H1; [|done].
    destruct (JS.truthy (JS.lookup_field "id" fields)) eqn:H2; [|done].
    destruct (JS.truthy (JS.lookup_field "timestamp" fields)) eqn:H3; [|done].
    exfalso. injection Hlacks as Hlacks. unfold markers in Hmarker.
    repeat (apply elem_of_cons in Hmarker as [->|Hmarker];
            [by rewrite Hlacks in *|]).
    by apply not_elem_of_nil in Hmarker. }
  unfold SqliteQueueProvider.process_row, try_catch, bind at 1, lift.
  rewrite Hparse. unfold bind. rewrite Hinvalid.
  unfold on_database. by rewrite markFailed_healthy.
Qed.

(** The scenario of the specification: [{"incomplete":true}] is enqueued;
    after one poll its last error is "Invalid message format" with one
    attempt and it is still Pending; after three polls it is Dead with three
    attempts. No request is made. *)
Example invalid_message_scenario :
  let q := SqliteQueue.mk "DP1_WRITE_QUEUE" in
  let provider :=
    SqliteQueueProvider.mk q false "http://localhost:8787" "test-secret" in
  let w0 := mkWorld (mkDatabase ∅ [] 0 0 []) [] [] in
  let poll w := snd (SqliteQueueProvider.tick provider w) in
  let w1 := poll (snd (on_database (SqliteQueue.send q Examples.incomplete) w0)) in
  let w3 := poll (poll w1) in
  find_row 1 (database w1)
  = Some (mkRow 1 "DP1_WRITE_QUEUE" Examples.incomplete 0 0 1 3
            (Some "Invalid message format"))
  /\ find_row 1 (database w3)
     = Some (mkRow 1 "DP1_WRITE_QUEUE" Examples.incomplete 0 (-1) 3 3
               (Some "Invalid message format"))
  /\ requests w3 = [].
Proof. vm_compute. by repeat split. Qed.

Lemma on_database_markFailed q id e w :
  healthy (database w) ->
  on_database (SqliteQueue.markFailed q id e) w
  = (JS.Normal tt,
     mkWorld
       (set_write_queue
          (SqliteQueue.update_rows id (SqliteQueue.set_failed e)
             (write_queue (database w)))
          (database w))
       (network w) (requests w)).
Proof. intros Hh. unfold on_database. by rewrite markFailed_healthy. Qed.

Lemma on_database_markProcessed q id w :
  healthy (database w) ->
  on_database (SqliteQueue.markProcessed q id) w
  = (JS.Normal tt,
     mkWorld
       (set_write_queue
          (SqliteQueue.update_rows id SqliteQueue.set_processed
             (write_queue (database w)))
          (database w))
       (network w) (requests w)).
Proof.
  intros Hh. unfold on_database, SqliteQueue.markProcessed,
    SqliteQueue.stmtMarkProcessed_run.
  by rewrite update_healthy.
Qed.

(** The test of the three markers reads the value and nothing else: it is
    true, or it is false and every marker is there and truthy, or reading a
    property throws. *)
Lemma lacks_markers_cases v (w : World) :
  SqliteQueueProvider.lacks_markers v w = (JS.Normal true, w)
  \/ (SqliteQueueProvider.lacks_markers v w = (JS.Normal false, w)
      /\ forall marker, marker ∈ markers ->
           exists x, JS.get_prop v marker = JS.Normal x /\ JS.truthy x = true)
  \/ exists e, SqliteQueueProvider.lacks_markers v w = (JS.Throw e, w).
Proof.
  unfold SqliteQueueProvider.lacks_markers, bind, lift, ret.
  destruct (JS.get_prop v "operation") as [x1|e] eqn:H1; [|right; right; by eexists].
  destruct (JS.truthy x1) eqn:T1; simpl; [|by left].
  destruct (JS.get_prop v "id") as [x2|e] eqn:H2; [|right; right; by eexists].
  destruct (JS.truthy x2) eqn:T2; simpl; [|by left].
  destruct (JS.get_prop v "timestamp") as [x3|e] eqn:H3; [|right; right; by eexists].
  destruct (JS.truthy x3) eqn:T3; simpl; [|by left].
  right; left. split; [done|]. intros marker Hm. unfold markers in Hm.
  repeat (apply elem_of_cons in Hm as [->|Hm]; [by eexists|]).
  by apply not_elem_of_nil in Hm.
Qed.

(** Handling one row on a healthy engine ends normally, with one UPDATE of
    the rows of its id, and with at most one request; a request is only made
    for a message that parsed and has the three markers, and carries that
    message as its body. *)
Lemma process_row_effect this row w :
  healthy (database w) ->
  exists w' f sent,
    SqliteQueueProvider.process_row this row w = (JS.Normal tt, w')
    /\ marked row f sent w w'
    /\ (forall r, row_id (f r) = row_id r)
    /\ (sent = []
        \/ exists req v,
             sent = [req]
             /\ Request.body req = PendingRow.message row
             /\ JS.JSON_parse (PendingRow.message row) = JS.Normal v
             /\ forall marker, marker ∈ markers ->
                  JS.get_prop v marker <> JS.Normal JS.Undefined).
Proof.
  intros Hh.
  unfold SqliteQueueProvider.process_row, try_catch, bind at 1, lift.
  destruct (JS.JSON_parse (PendingRow.message row)) as [v|e] eqn:Hparse.
  2: { rewrite on_database_markFailed by done.
       eexists _, (SqliteQueue.set_failed _), []. split; [done|]. split; [|split; [done | by left]].
       unfold marked. simpl. by rewrite app_nil_r. }
  unfold bind at 1.
  destruct (lacks_markers_cases v w) as [H|[[H Hall]|[e H]]]; rewrite H.
  - rewrite on_database_markFailed by done.
    eexists _, (SqliteQueue.set_failed _), []. split; [done|]. split; [|split; [done | by left]].
    unfold marked. simpl. by rewrite app_nil_r.
  - assert (forall marker, marker ∈ markers ->
              JS.get_prop v marker <> JS.Normal JS.Undefined) as Hpresent.
    { intros marker Hm Hu. destruct (Hall marker Hm) as (x & Hx & Tx).
      rewrite Hu in Hx. by injection Hx as <-. }
    set (req := Request.mk _ _ _ _).
    assert (Request.body req = PendingRow.message row) as Hbody by done.
    unfold bind at 1, fetch.
    destruct (network w) as [|[e|resp] rest].
    + rewrite on_database_markFailed by done.
      eexists _, (SqliteQueue.set_failed _), [req]. split; [done|]. split; [done|]. split; [done|].
      right. by exists req, v.
    + rewrite on_database_markFailed by done.
      eexists _, (SqliteQueue.set_failed _), [req]. split; [done|]. split; [done|]. split; [done|].
      right. by exists req, v.
    + destruct (Response.ok resp); simpl.
      * unfold bind at 1, lift.
        destruct (JS.JSON_parse (Response.text resp)) as [result|e].
        -- unfold bind at 1.
           destruct (JS.get_prop result "success") as [success|e].
           ++ destruct (JS.truthy success).
              ** rewrite on_database_markProcessed by done.
                 eexists _, SqliteQueue.set_processed, [req]. split; [done|]. split; [done|].
                 split; [done|]. right. by exists req, v.
              ** rewrite on_database_markFailed by done.
                 eexists _, (SqliteQueue.set_failed _), [req]. split; [done|]. split; [done|].
                 split; [done|]. right. by exists req, v.
           ++ rewrite on_database_markFailed by done.
              eexists _, (SqliteQueue.set_failed _), [req]. split; [done|]. split; [done|].
              split; [done|]. right. by exists req, v.
        -- rewrite on_database_markFailed by done.
           eexists _, (SqliteQueue.set_failed _), [req]. split; [done|]. split; [done|].
           split; [done|]. right. by exists req, v.
      * rewrite on_database_markFailed by done.
        eexists _, (SqliteQueue.set_failed _), [req]. split; [done|]. split; [done|].
        split; [done|]. right. by exists req, v.
  - rewrite on_database_markFailed by done.
    eexists _, (SqliteQueue.set_failed _), []. split; [done|]. split; [|split; [done | by left]].
    unfold marked. simpl. by rewrite app_nil_r.
Qed.

Lemma find_update_other id id' f rows :
  (forall r, row_id (f r) = row_id r) -> id <> id' ->
  find (fun r => row_id r =? id) (SqliteQueue.update_rows id' f rows)
  = find (fun r => row_id r =? id) rows.
Proof.
  intros Hf Hne. rewrite find_update_rows by done.
  destruct (find _ rows) as [r|] eqn:E; [|done]. simpl.
  apply find_some in E as [_ Hid%Z.eqb_eq].
  destruct (Z.eqb_spec (row_id r) id'); [congruence | done].
Qed.

Lemma find_NoDup rows r :
  NoDup (row_id <$> rows) -> r ∈ rows ->
  find (fun x => row_id x =? row_id r) rows = Some r.
Proof.
  induction rows as [|x rows IH]; intros Hnd Hin.
  { by apply not_elem_of_nil in Hin. }
  rewrite fmap_cons in Hnd. apply NoDup_cons in Hnd as [Hx Hnd]. simpl.
  apply elem_of_cons in Hin as [->|Hin].
  - by rewrite Z.eqb_refl.
  - destruct (Z.eqb_spec (row_id x) (row_id r)) as [E|_]; [|by apply IH].
    exfalso. apply Hx. rewrite E. by apply list_elem_of_fmap_2.
Qed.

Lemma pending_page_NoDup queue_name limit rows :
  NoDup (row_id <$> rows) ->
  NoDup (PendingRow.id <$> pending_page queue_name limit rows).
Proof.
  intros Hnd. unfold pending_page. rewrite <- list_fmap_compose.
  change (PendingRow.id ∘ SqliteQueue.project) with row_id.
  assert (NoDup (row_id <$> Sqlite.order_by_id
            (filter (fun r => SqliteQueue.is_pending queue_name r = true) rows)))
    as Hsorted.
  { unfold Sqlite.order_by_id. rewrite merge_sort_Permutation.
    eapply sublist_NoDup; [exact Hnd|]. apply fmap_sublist, sublist_filter. }
  unfold Sqlite.limit. destruct (limit <? 0); [done|].
  eapply sublist_NoDup; [exact Hsorted|]. apply fmap_sublist, sublist_take.
Qed.

(** The loop of [processPendingMessages] on a healthy engine, over rows of
    distinct ids: it ends normally; rows of other ids are as they were; a
    row whose message parsed to a value without one of the markers is failed
    as "Invalid message format"; and every request made carries a message
    that parsed and has the three markers. *)
Lemma process_rows_effect this page w :
  healthy (database w) -> NoDup (PendingRow.id <$> page) ->
  exists w',
    for_of page (SqliteQueueProvider.process_row this) w = (JS.Normal tt, w')
    /\ healthy (database w')
    /\ (forall id, id ∉ PendingRow.id <$> page ->
          find_row id (database w') = find_row id (database w))
    /\ (forall row v r,
          row ∈ page ->
          JS.JSON_parse (PendingRow.message row) = JS.Normal v ->
          (exists marker, marker ∈ markers
                          /\ JS.get_prop v marker = JS.Normal JS.Undefined) ->
          find_row (PendingRow.id row) (database w) = Some r ->
          find_row (PendingRow.id row) (database w')
          = Some (SqliteQueue.set_failed "Invalid message format" r))
    /\ (forall req, req ∈ requests w' ->
          req ∈ requests w
          \/ exists row v,
               row ∈ page
               /\ Request.body req = PendingRow.message row
               /\ JS.JSON_parse (PendingRow.message row) = JS.Normal v
               /\ forall marker, marker ∈ markers ->
                    JS.get_prop v marker <> JS.Normal JS.Undefined).
Proof.
  revert w. induction page as [|row rest IH]; intros w Hh Hnd.
  { exists w. split; [done|]. split; [done|]. split; [done|]. split.
    - by intros row v r Hin%not_elem_of_nil.
    - intros req Hreq. by left. }
  rewrite fmap_cons in Hnd. apply NoDup_cons in Hnd as [Hrow Hnd].
  destruct (process_row_effect this row w Hh)
    as (w1 & f & sent & Hrun & (Hh1 & Hq1 & Hreq1) & Hf & Hsent).
  destruct (IH w1 Hh1 Hnd) as (w' & Hrun' & Hh' & Hother & Hinvalid & Hreqs).
  exists w'. rewrite for_of_cons, Hrun. split; [done|]. split; [done|].
  assert (forall id, id <> PendingRow.id row ->
            find_row id (database w1) = find_row id (database w)) as Hframe.
  { intros id Hne. unfold find_row. rewrite Hq1. by apply find_update_other. }
  split; [|split].
  - intros id Hid. rewrite fmap_cons in Hid.
    apply not_elem_of_cons in Hid as [Hne Hid].
    rewrite (Hother id Hid). by apply Hframe.
  - intros row0 v r Hin Hparse Hlacks Hfind.
    apply elem_of_cons in Hin as [->|Hin].
    + rewrite (Hother _ Hrow).
      rewrite (process_row_invalid this row v w Hparse Hlacks Hh) in Hrun.
      injection Hrun as <-. unfold find_row in *. simpl.
      rewrite find_update_rows, Hfind by done. simpl.
      apply find_some in Hfind as [_ ->%Z.eqb_eq]. by rewrite Z.eqb_refl.
    + apply (Hinvalid row0 v r Hin Hparse Hlacks).
      rewrite Hframe; [done|]. intros E. apply Hrow. rewrite <- E.
      by apply list_elem_of_fmap_2.
  - intros req Hreq. destruct (Hreqs req Hreq) as [Hold|(row0 & v & Hin & Hrest)].
    + rewrite Hreq1 in Hold. apply elem_of_app in Hold as [Hold|Hnew]; [by left|].
      right. destruct Hsent as [->|(req' & v & -> & Hbody & Hparse & Hall)].
      { by apply not_elem_of_nil in Hnew. }
      apply list_elem_of_singleton in Hnew as ->.
      exists row, v. split; [by left | done].
    + right. exists row0, v. split; [by right | done].
Qed.

(** One firing of the timer on a healthy engine, with distinct ids in the
    table: a fetched entry whose message parsed to a value (not [null])
    without one of the markers is failed as "Invalid message format", with
    one more attempt and the state the counter gives, and no request made
    during the firing carries its message. *)
Lemma tick_invalid_format this w r v :
  SqliteQueueProvider.processing this = false ->
  healthy (database w) ->
  NoDup (row_id <$> write_queue (database w)) ->
  r ∈ write_queue (database w) ->
  SqliteQueue.project r
    ∈ pending_page (SqliteQueue.name (SqliteQueueProvider.writeQueue this)) 10
        (write_queue (database w)) ->
  JS.JSON_parse (row_message r) = JS.Normal v ->
  (exists marker, marker ∈ markers
                  /\ JS.get_prop v marker = JS.Normal JS.Undefined) ->
  let w' := snd (SqliteQueueProvider.tick this w) in
  find_row (row_id r) (database w')
  = Some (SqliteQueue.set_failed "Invalid message format" r)
  /\ forall req, req ∈ requests w' ->
       req ∈ requests w \/ Request.body req <> row_message r.
Proof.
  intros Hidle Hh Hnd Hr Hfetched Hparse Hlacks w'. subst w'.
  unfold SqliteQueueProvider.tick. rewrite Hidle.
  set (running := SqliteQueueProvider.mk _ true _ _).
  set (page := pending_page _ _ _) in Hfetched.
  destruct (process_rows_effect running page w Hh)
    as (w1 & Hrun & _ & _ & Hinvalid & Hreqs).
  { by apply pending_page_NoDup. }
  assert (SqliteQueueProvider.processPendingMessages running w = (JS.Normal tt, w1))
    as Hbatch.
  { unfold SqliteQueueProvider.processPendingMessages, bind, on_database.
    rewrite fetchPending_healthy by done.
    change (SqliteQueueProvider.writeQueue running)
      with (SqliteQueueProvider.writeQueue this).
    change (default 10 (Some 10)) with 10. fold page.
    replace (mkWorld (database w) (network w) (requests w)) with w
      by (by destruct w).
    clearbody page. destruct page as [|row rest]; [|done].
    by apply not_elem_of_nil in Hfetched. }
  unfold bind, try_catch. rewrite Hbatch. simpl. split.
  - apply (Hinvalid (SqliteQueue.project r) v r Hfetched Hparse Hlacks).
    by apply find_NoDup.
  - intros req Hreq.
    destruct (Hreqs req Hreq) as [Hold|(row & v' & _ & Hbody & Hparse' & Hall)];
      [by left|].
    right. intros E. rewrite Hbody in E.
    destruct Hlacks as (marker & Hm & Hu).
    apply (Hall marker Hm). rewrite E in Hparse'. congruence.
Qed.

(** C9, where the code departs from it. The message [null] (what
    [send(null)] stores) parses, and has none of the three markers. One poll
    fails it without a request, with one attempt, but the reason stored is
    the text of the TypeError that reading a property of [null] throws, not
    "Invalid message format". *)
Theorem null_message_reason :
  let q := SqliteQueue.mk "DP1_WRITE_QUEUE" in
  let provider :=
    SqliteQueueProvider.mk q false "http://localhost:8787" "test-secret" in
  let w0 := mkWorld (mkDatabase ∅ [] 0 0 []) [] [] in
  let w1 := snd (on_database (SqliteQueue.send q "null") w0) in
  let w2 := snd (SqliteQueueProvider.tick provider w1) in
  JS.JSON_parse "null" = JS.Normal JS.Null
  /\ find_row 1 (database w1)
     = Some (mkRow 1 "DP1_WRITE_QUEUE" "null" 0 0 0 3 None)
  /\ find_row 1 (database w2)
     = Some (mkRow 1 "DP1_WRITE_QUEUE" "null" 0 0 1 3
               (Some "Cannot read properties of null (reading 'operation')"))
  /\ requests w2 = [].
Proof. vm_compute. by repeat split. Qed.

(** ** The key-value tables: reading several keys *)

Lemma get_by_type this key options rows db :
  healthy db ->
  tables db !! Sqlite.canonical (SqliteKVStorage.tableName this) = Some rows ->
  SqliteKVStorage.get this key options db
  = (match rows !! key with
     | None => JS.Normal JS.Null
     | Some value =>
         if SqliteKVStorage.type_is_json options then JS.JSON_parse value
         else JS.Normal (JS.Str value)
     end, db).
Proof.
  intros Hh Ht. unfold SqliteKVStorage.get, SqliteKVStorage.stmtGet_get, bind.
  rewrite (step_healthy _ Hh), (table_healthy _ _ _ Ht). unfold ret.
  destruct (rows !! key) as [value|]; [|done].
  unfold SqliteKVStorage.type_is_json.
  destruct options as [[[ty|]]|]; try done.
  unfold try_catch, lift, throw.
  repeat match goal with
         | |- context [match ?x with _ => _ end] =>
             is_var x; destruct x; try done
         end.
  all: by destruct (JS.JSON_parse value).
Qed.

Lemma by_key_Permutation rows : Sqlite.by_key rows ≡ₚ map_to_list rows.
Proof. apply merge_sort_Permutation. Qed.

Lemma elem_of_by_key rows key value :
  (key, value) ∈ Sqlite.by_key rows <-> rows !! key = Some value.
Proof. by rewrite by_key_Permutation, elem_of_map_to_list. Qed.

Lemma NoDup_by_key rows : NoDup (Sqlite.by_key rows).*1.
Proof. rewrite by_key_Permutation. apply NoDup_fst_map_to_list. Qed.

Lemma JSMap_set_fresh {V} key (value : V) m :
  JSMap.get key m = None -> JSMap.set key value m = m ++ [(key, value)].
Proof.
  induction m as [|[k v] m IH]; simpl; [done|].
  destruct (String.eqb k key); [done|]. intros H. by rewrite IH.
Qed.

Lemma JSMap_get_None {V} key (m : JSMap.t V) :
  JSMap.get key m = None <-> key ∉ m.*1.
Proof.
  induction m as [|[k v] m IH]; simpl.
  - split; [intros _|done]. apply not_elem_of_nil.
  - rewrite not_elem_of_cons. destruct (String.eqb_spec k key) as [->|Hne].
    + split; [done | by intros [? _]].
    + rewrite IH. split; [intros ?; split; [congruence|done] | by intros [_ ?]].
Qed.

Lemma JSMap_get_Some {V} key (value : V) m :
  NoDup m.*1 -> JSMap.get key m = Some value <-> (key, value) ∈ m.
Proof.
  induction m as [|[k v] m IH]; simpl; intros Hnd.
  - split; [done | intros H; by apply elem_of_nil in H].
  - apply NoDup_cons in Hnd as [Hk Hnd]. rewrite elem_of_cons.
    destruct (String.eqb_spec k key) as [->|Hne].
    + split; [intros [= ->]; by left|].
      intros [[= ->]|Hin]; [done|].
      exfalso. apply Hk. apply list_elem_of_fmap. by exists (key, value).
    + rewrite IH by done. split; [by right|]. intros [[= ? ?]|?]; [congruence|done].
Qed.

Lemma getMultiple_loop options (rows : list (string * string)) resultMap db :
  NoDup rows.*1 -> Forall (fun row => row.1 ∉ resultMap.*1) rows ->
  let body : JSMap.t JS.value -> string * string
             -> M Database (JSMap.t JS.value) :=
    fun resultMap row =>
      if SqliteKVStorage.type_is_json options then
        try_catch
          (let* parsed := lift (JS.JSON_parse row.2) in
           ret (JSMap.set row.1 parsed resultMap))
          (fun parseError => throw parseError)
      else ret (JSMap.set row.1 (JS.Str row.2) resultMap) in
  (exists entries,
     for_of_with rows resultMap body db = (JS.Normal (resultMap ++ entries), db)
     /\ Forall2 (fun row e => e.1 = row.1 /\ decode_row options row = JS.Normal e.2)
          rows entries)
  \/ (exists row e,
        for_of_with rows resultMap body db = (JS.Throw e, db)
        /\ row ∈ rows /\ decode_row options row = JS.Throw e).
Proof.
  intros Hnd Hfresh body. revert resultMap Hfresh.
  induction rows as [|row rows IH]; intros resultMap Hfresh.
  - left. exists []. by rewrite app_nil_r.
  - apply NoDup_cons in Hnd as [Hrow Hnd]. apply Forall_cons in Hfresh as [Hf1 Hf].
    assert (Hstep : body resultMap row db
                    = match decode_row options row with
                      | JS.Normal v => (JS.Normal (resultMap ++ [(row.1, v)]), db)
                      | JS.Throw e => (JS.Throw e, db)
                      end).
    { unfold body, decode_row.
      destruct (SqliteKVStorage.type_is_json options).
      - unfold try_catch, bind, lift, ret, throw.
        destruct (JS.JSON_parse row.2); [|done].
        by rewrite JSMap_set_fresh by by apply JSMap_get_None.
      - unfold ret. by rewrite JSMap_set_fresh by by apply JSMap_get_None. }
    assert (Hcons : for_of_with (row :: rows) resultMap body db
                    = match decode_row options row with
                      | JS.Normal v =>
                          for_of_with rows (resultMap ++ [(row.1, v)]) body db
                      | JS.Throw e => (JS.Throw e, db)
                      end).
    { cbn [for_of_with]. unfold bind. rewrite Hstep.
      by destruct (decode_row options row). }
    rewrite Hcons. clear Hcons Hstep.
    destruct (decode_row options row) as [v|e] eqn:Hdec.
    + destruct (IH Hnd (resultMap ++ [(row.1, v)]))
        as [(entries & Hrun & Hall)|(r & e & Hrun & Hin & He)].
      { apply Forall_forall. intros r Hr. rewrite fmap_app, not_elem_of_app. split.
        - by apply (proj1 (Forall_forall _ _) Hf).
        - simpl. rewrite list_elem_of_singleton. intros Heq. apply Hrow.
          rewrite <- Heq. apply list_elem_of_fmap. by exists r. }
      * left. exists ((row.1, v) :: entries). split.
        { etrans; [exact Hrun|]. by rewrite <- app_assoc. }
        by constructor.
      * right. exists r, e. split; [exact Hrun|]. split; [by right|done].
    + right. exists row, e. repeat split; [by left|done].
Qed.

Lemma select_in_healthy this keys rows db :
  Z.of_nat (length keys) <= Sqlite.max_variable_number ->
  healthy db ->
  tables db !! Sqlite.canonical (SqliteKVStorage.tableName this) = Some rows ->
  SqliteKVStorage.select_in this keys db
  = (JS.Normal (filter (fun row => row.1 ∈ keys) (Sqlite.by_key rows)), db).
Proof.
  intros Hlen Hh Ht. unfold SqliteKVStorage.select_in.
  destruct (Z.leb_spec (Z.of_nat (length keys)) Sqlite.max_variable_number); [|lia].
  unfold bind. by rewrite (step_healthy _ Hh), (table_healthy _ _ _ Ht).
Qed.

Lemma getMultiple_healthy this keys options rows db :
  Z.of_nat (length keys) <= Sqlite.max_variable_number ->
  healthy db ->
  tables db !! Sqlite.canonical (SqliteKVStorage.tableName this) = Some rows ->
  SqliteKVStorage.getMultiple this keys options db
  = for_of_with (filter (fun row => row.1 ∈ keys) (Sqlite.by_key rows))
      JSMap.empty
      (fun resultMap row =>
         if SqliteKVStorage.type_is_json options then
           try_catch
             (let* parsed := lift (JS.JSON_parse row.2) in
              ret (JSMap.set row.1 parsed resultMap))
             (fun parseError => throw parseError)
         else ret (JSMap.set row.1 (JS.Str row.2) resultMap)) db.
Proof.
  intros Hlen Hh Ht. destruct keys as [|key0 keys0].
  - rewrite filter_none_Forall; [done|].
    apply Forall_forall. intros row _ Hin. by apply elem_of_nil in Hin.
  - unfold SqliteKVStorage.getMultiple, bind.
    by rewrite (select_in_healthy _ _ _ _ Hlen Hh Ht).
Qed.

(** X1. [getMultiple] agrees with [get], key by key. *)
Theorem getMultiple_agrees_with_get this keys options rows db :
  Z.of_nat (length keys) <= Sqlite.max_variable_number ->
  healthy db ->
  tables db !! Sqlite.canonical (SqliteKVStorage.tableName this) = Some rows ->
  exists c,
    SqliteKVStorage.getMultiple this keys options db = (c, db)
    /\ match c with
       | JS.Normal resultMap =>
           (forall key, key ∈ keys ->
              JSMap.has key resultMap = bool_decide (is_Some (rows !! key))
              /\ SqliteKVStorage.get this key options db
                 = (JS.Normal (default JS.Null (JSMap.get key resultMap)), db))
           /\ (forall key, key ∉ keys -> JSMap.get key resultMap = None)
           /\ (JSMap.size resultMap <= length keys)%nat
       | JS.Throw e =>
           exists key, key ∈ keys
                       /\ SqliteKVStorage.get this key options db = (JS.Throw e, db)
       end.
Proof.
  intros Hlen Hh Ht.
  rewrite (getMultiple_healthy _ _ _ _ _ Hlen Hh Ht).
  set (selected := filter (fun row => row.1 ∈ keys) (Sqlite.by_key rows)).
  assert (Hsel : forall k v, (k, v) ∈ selected <-> k ∈ keys /\ rows !! k = Some v).
  { intros k v. unfold selected. by rewrite list_elem_of_filter, elem_of_by_key. }
  assert (Hnd : NoDup selected.*1).
  { unfold selected. apply (NoDup_fmap_fst _). 
    - intros k v1 v2 H1 H2. apply Hsel in H1 as [_ H1], H2 as [_ H2]. congruence.
    - apply NoDup_filter. eapply NoDup_fmap_1, NoDup_by_key. }
  destruct (getMultiple_loop options selected JSMap.empty db Hnd)
    as [(entries & Hrun & Hall)|(row & e & Hrun & Hin & He)].
  { apply Forall_forall. intros r _. apply not_elem_of_nil. }
  - exists (JS.Normal (JSMap.empty ++ entries)). split; [exact Hrun|]. clear Hrun.
    change (JSMap.empty ++ entries) with entries.
    assert (Hfst : entries.*1 = selected.*1).
    { clear -Hall. induction Hall as [|r e rs es [H1 _] _ IH]; [done|].
      by rewrite !fmap_cons, H1, IH. }
    assert (Hnd' : NoDup entries.*1) by by rewrite Hfst.
    assert (Hent : forall k x, (k, x) ∈ entries <->
              exists v, (k, v) ∈ selected
                        /\ decode_row options (k, v) = JS.Normal x).
    { clear -Hall Hnd. induction Hall as [|[k' v'] [k'' x'] rs es [H1 H2] _ IH].
      - intros k x. split; [intros Hin; by apply elem_of_nil in Hin|].
        intros (v & Hin & _). by apply elem_of_nil in Hin.
      - simpl in H1, H2. subst k''. apply NoDup_cons in Hnd as [Hk Hnd].
        intros k x. rewrite elem_of_cons, (IH Hnd). split.
        + intros [[= -> ->]|(v & Hin & Hd)].
          * exists v'. split; [by left|done].
          * exists v. split; [by right|done].
        + intros (v & Hin & Hd). apply elem_of_cons in Hin as [[= -> ->]|Hin].
          * left. simpl in *. congruence.
          * right. by exists v. }
    split; [|split].
    + intros key Hkey. unfold JSMap.has.
      rewrite (get_by_type _ _ _ _ _ Hh Ht).
      destruct (rows !! key) as [v|] eqn:Hrow.
      * assert (Hin : (key, v) ∈ selected) by by apply Hsel.
        destruct (JSMap.get key entries) as [x|] eqn:Hget.
        -- apply (JSMap_get_Some _ _ _ Hnd'), Hent in Hget as (v' & Hin' & Hd).
           apply Hsel in Hin' as [_ Hin']. rewrite Hrow in Hin'. injection Hin' as <-.
           rewrite bool_decide_true by done. split; [done|].
           unfold decode_row in Hd. simpl in Hd. simpl. by rewrite Hd.
        -- exfalso. apply JSMap_get_None in Hget. apply Hget.
           rewrite Hfst. apply list_elem_of_fmap. by exists (key, v).
      * rewrite bool_decide_false by by intros [? ?].
        destruct (JSMap.get key entries) as [x|] eqn:Hget; [|done].
        apply (JSMap_get_Some _ _ _ Hnd'), Hent in Hget as (v' & Hin' & Hd).
        apply Hsel in Hin' as [_ Hin']. congruence.
    + intros key Hkey. apply JSMap_get_None. rewrite Hfst.
      intros Hin. apply list_elem_of_fmap in Hin as ([k v] & -> & Hin).
      by apply Hsel in Hin as [? _].
    + unfold JSMap.size.
      rewrite <- (length_fmap fst entries), Hfst.
      apply submseteq_length, NoDup_submseteq; [done|].
      intros k Hin. apply list_elem_of_fmap in Hin as ([k' v] & -> & Hin).
      by apply Hsel in Hin as [? _].
  - exists (JS.Throw e). split; [exact Hrun|]. destruct row as [k v].
    apply Hsel in Hin as [Hk Hrow]. exists k. split; [done|].
    rewrite (get_by_type _ _ _ _ _ Hh Ht), Hrow. by rewrite <- He.
Qed.

(** ** The key-value tables: batches of two or more *)

Lemma put_all_lookup_last entries rows key :
  put_all entries rows !! key
  = match batch_value key entries with
    | Some value => Some value
    | None => rows !! key
    end.
Proof.
  unfold batch_value.
  induction entries as [|e entries IH] using rev_ind; [done|].
  rewrite put_all_snoc, filter_app, filter_cons, filter_nil.
  destruct (decide (e.1 = key)) as [<-|Hne].
  - rewrite lookup_insert_eq. by rewrite last_snoc.
  - rewrite lookup_insert_ne by done. by rewrite app_nil_r.
Qed.

Lemma write_loop_healthy {A} this
    (write : A -> gmap string string -> gmap string string)
    (body : A -> M Database unit) (items : list A) rows db :
  (forall item,
     body item
     = (Sqlite.step ;;;
        (let* rows := Sqlite.table (SqliteKVStorage.tableName this) in
         Sqlite.write_table (SqliteKVStorage.tableName this) (write item rows)))) ->
  healthy db ->
  tables db !! Sqlite.canonical (SqliteKVStorage.tableName this) = Some rows ->
  Sqlite.transaction (for_of items body) db
  = (JS.Normal tt,
     set_tables
       (<[Sqlite.canonical (SqliteKVStorage.tableName this)
          := fold_left (fun t item => write item t) items rows]> (tables db)) db).
Proof.
  intros Hbody Hh Ht.
  assert (forall items rows db0,
    healthy db0 ->
    tables db0 !! Sqlite.canonical (SqliteKVStorage.tableName this) = Some rows ->
    for_of items body db0
    = (JS.Normal tt,
       set_tables
         (<[Sqlite.canonical (SqliteKVStorage.tableName this)
            := fold_left (fun t item => write item t) items rows]> (tables db0))
         db0)) as Hloop.
  { clear -Hbody. intros items0. induction items0 as [|item items0 IH]; intros rows0 db0 Hh0 Hrows.
    - simpl. unfold ret. f_equal. rewrite insert_id by done. by destruct db0.
    - rewrite for_of_cons, Hbody. unfold bind at 1.
      rewrite (step_healthy _ Hh0). unfold bind at 1.
      rewrite (table_healthy _ _ _ Hrows). unfold Sqlite.write_table.
      rewrite (IH (write item rows0)); [|done|].
      + simpl. by rewrite insert_insert_eq.
      + simpl. by rewrite lookup_insert_eq. }
  unfold Sqlite.transaction. rewrite (step_healthy _ Hh), (Hloop _ _ _ Hh Ht).
  by rewrite step_healthy.
Qed.

Lemma putMultiple_healthy this entries rows db :
  (2 <= length entries)%nat -> healthy db ->
  tables db !! Sqlite.canonical (SqliteKVStorage.tableName this) = Some rows ->
  SqliteKVStorage.putMultiple this entries db
  = (JS.Normal [],
     set_tables
       (<[Sqlite.canonical (SqliteKVStorage.tableName this)
          := put_all entries rows]> (tables db)) db).
Proof.
  intros Hlen Hh Ht.
  destruct entries as [|[k1 v1] [|e2 rest]]; simpl in Hlen; try lia.
  unfold SqliteKVStorage.putMultiple. cbv zeta. unfold try_catch, bind at 1.
  by rewrite (write_loop_healthy this (fun e t => <[e.1 := e.2]> t) _ _ rows db).
Qed.

Lemma deleteMultiple_healthy this keys rows db :
  (2 <= length keys)%nat -> healthy db ->
  tables db !! Sqlite.canonical (SqliteKVStorage.tableName this) = Some rows ->
  SqliteKVStorage.deleteMultiple this keys db
  = (JS.Normal [],
     set_tables
       (<[Sqlite.canonical (SqliteKVStorage.tableName this)
          := delete_all keys rows]> (tables db)) db).
Proof.
  intros Hlen Hh Ht.
  destruct keys as [|k1 [|k2 rest]]; simpl in Hlen; try lia.
  unfold SqliteKVStorage.deleteMultiple. cbv zeta. unfold try_catch, bind at 1.
  by rewrite (write_loop_healthy this (fun k t => delete k t) _ _ rows db).
Qed.

(** X2. A batch of two or more puts is all or nothing, and never throws. *)
Theorem putMultiple_all_or_nothing this entries db :
  (2 <= length entries)%nat ->
  exists failed db',
    SqliteKVStorage.putMultiple this entries db = (JS.Normal failed, db')
    /\ (failed = []
        /\ is_Some (tables db !! Sqlite.canonical (SqliteKVStorage.tableName this))
        /\ table_updated (SqliteKVStorage.tableName this) (put_all entries) db db'
        \/ failed = entries.*1 /\ same_data db db')
    /\ (healthy db ->
        is_Some (tables db !! Sqlite.canonical (SqliteKVStorage.tableName this)) ->
        failed = [] /\ healthy db')
    /\ forall rows key,
         put_all entries rows !! key
         = match batch_value key entries with
           | Some value => Some value
           | None => rows !! key
           end.
Proof.
  intros Hlen.
  destruct (putMultiple_atomic this entries db Hlen) as (failed & db' & Hrun & Hcases).
  exists failed, db'. split; [done|]. split; [done|]. split.
  - intros Hh [rows Ht].
    rewrite (putMultiple_healthy _ _ _ _ Hlen Hh Ht) in Hrun.
    injection Hrun as <- <-. done.
  - intros rows key. apply put_all_lookup_last.
Qed.

(** X3. A batch of two or more deletes is all or nothing, and never throws. *)
Theorem deleteMultiple_all_or_nothing this keys db :
  (2 <= length keys)%nat ->
  exists failed db',
    SqliteKVStorage.deleteMultiple this keys db = (JS.Normal failed, db')
    /\ (failed = []
        /\ is_Some (tables db !! Sqlite.canonical (SqliteKVStorage.tableName this))
        /\ table_updated (SqliteKVStorage.tableName this) (delete_all keys) db db'
        \/ failed = keys /\ same_data db db')
    /\ (healthy db ->
        is_Some (tables db !! Sqlite.canonical (SqliteKVStorage.tableName this)) ->
        failed = [] /\ healthy db')
    /\ forall rows key,
         delete_all keys rows !! key
         = if decide (key ∈ keys) then None else rows !! key.
Proof.
  intros Hlen.
  destruct (deleteMultiple_atomic this keys db Hlen) as (failed & db' & Hrun & Hcases).
  exists failed, db'. split; [done|]. split; [done|]. split.
  - intros Hh [rows Ht].
    rewrite (deleteMultiple_healthy _ _ _ _ Hlen Hh Ht) in Hrun.
    injection Hrun as <- <-. done.
  - intros rows key. apply delete_all_lookup.
Qed.

(** ** What [list_complete] tells *)

Lemma elem_of_order_by_key keys key : key ∈ Sqlite.order_by_key keys <-> key ∈ keys.
Proof. unfold Sqlite.order_by_key. by rewrite merge_sort_Permutation. Qed.

Lemma list_complete_keys this options rows db page :
  healthy db ->
  tables db !! Sqlite.canonical (SqliteKVStorage.tableName this) = Some rows ->
  SqliteKVStorage.list this options db = (JS.Normal page, db) ->
  KVListResult.list_complete page = true ->
  forall key,
    key ∈ KVListResult.keys page
    <-> is_Some (rows !! key)
        /\ SqliteKVStorage.where_clause (list_prefix options +:+ "%")
             (list_after options) key = true.
Proof.
  intros Hh Ht Hrun Hc key.
  rewrite (list_healthy _ _ _ _ Hh Ht) in Hrun. injection Hrun as <-.
  unfold page_of in *. cbn [KVListResult.list_complete KVListResult.keys] in *.
  apply negb_true_iff, Z.eqb_neq in Hc.
  pose proof (list_limit_nonzero options) as HL.
  unfold select_page in *.
  set (matching := Sqlite.order_by_key _) in *.
  assert (Sqlite.limit (list_limit options) matching = matching) as ->.
  { unfold Sqlite.limit in *. destruct (Z.ltb_spec (list_limit options) 0); [done|].
    rewrite take_ge; [done|]. rewrite length_take in Hc. lia. }
  unfold matching. rewrite elem_of_order_by_key, list_elem_of_filter, elem_of_keys.
  tauto.
Qed.

(** X4. A page that says it is complete holds every matching key. *)
Theorem list_complete_sound this options rows db :
  healthy db ->
  tables db !! Sqlite.canonical (SqliteKVStorage.tableName this) = Some rows ->
  exists page,
    SqliteKVStorage.list this options db = (JS.Normal page, db)
    /\ (KVListResult.list_complete page = true ->
        KVListResult.cursor page = None
        /\ forall key,
             key ∈ KVListResult.keys page
             <-> is_Some (rows !! key)
                 /\ SqliteKVStorage.where_clause (list_prefix options +:+ "%")
                      (list_after options) key = true)
    /\ (list_limit options < 0 -> KVListResult.list_complete page = true)
    /\ (KVListResult.list_complete page = false ->
        Z.of_nat (length (KVListResult.keys page)) = list_limit options
        /\ KVListResult.cursor page = last (KVListResult.keys page)
        /\ is_Some (KVListResult.cursor page)).
Proof.
  intros Hh Ht.
  destruct (list_page_shape this options rows db Hh Ht)
    as (page & Hrun & _ & _ & _ & _ & _ & Hfull & Hshort).
  exists page. split; [done|].
  destruct (decide (Z.of_nat (length (KVListResult.keys page)) = list_limit options))
    as [Heq|Hne].
  - destruct (Hfull Heq) as (Hc & Hcur & Hsome). split; [|split].
    + intros Hc'. congruence.
    + intros Hneg. lia.
    + done.
  - destruct (Hshort Hne) as [Hc Hcur]. split; [|split].
    + intros _. split; [done|].
      by apply (list_complete_keys _ _ _ _ _ Hh Ht Hrun Hc).
    + done.
    + intros Hc'. congruence.
Qed.

(** ** Paging through a table *)

(** X5. Following the cursors visits every matching key once, in order. *)
Theorem paginate_collects_every_key this prefix L db rows fuel :
  healthy db ->
  tables db !! Sqlite.canonical (SqliteKVStorage.tableName this) = Some rows ->
  0 < L ->
  "" ∉ listing rows prefix ->
  (length (listing rows prefix) < fuel)%nat ->
  exists pages,
    paginate fuel this prefix (Some L) None db = (JS.Normal (Some pages), db)
    /\ NoDup (concat pages)
    /\ StronglySorted String.le (concat pages)
    /\ Forall (fun page => Z.of_nat (length page) <= L) pages
    /\ forall key,
         key ∈ concat pages
         <-> is_Some (rows !! key)
             /\ Text.like (SqliteKVStorage.or_string prefix "" +:+ "%") key = true.
Proof.
  intros Hh Ht HL Hempty Hfuel.
  destruct (paginate_all this prefix L db rows Hh Ht HL Hempty fuel Hfuel)
    as (pages & Hrun & Hcat & Hnd & Hsorted & Hlen).
  exists pages. repeat (split; [done|]).
  intros key. rewrite Hcat. unfold listing.
  rewrite select_page_unbounded, list_elem_of_filter, elem_of_sorted_keys.
  tauto.
Qed.

(** ** The prefix of [list], up to the case of ASCII letters *)


Lemma code_bound c : (Text.code c < 256)%N.
Proof. unfold Text.code. apply N_ascii_bounded. Qed.




(** ** An entry over a run of calls *)

Lemma find_row_id id db r : find_row id db = Some r -> row_id r = id.
Proof.
  unfold find_row. intros H. apply find_some in H as [_ H]. by apply Z.eqb_eq in H.
Qed.

Lemma find_row_set_write_queue id rows db :
  find_row id (set_write_queue rows db) = find (fun r => row_id r =? id) rows.
Proof. done. Qed.

Lemma queue_call_entry c db id r :
  healthy db -> find_row id db = Some r ->
  find_row id (snd (queue_call c db)) = Some (entry_after id r c).
Proof.
  intros Hh Hfind. pose proof (find_row_id _ _ _ Hfind) as Hid.
  destruct c as [q m|q limit|q id'|q id' e]; simpl.
  - rewrite (send_healthy _ _ _ Hh). simpl. unfold find_row. simpl.
    rewrite find_app_fresh. unfold find_row in Hfind. by rewrite Hfind.
  - unfold bind. by rewrite (fetchPending_healthy _ _ _ Hh).
  - unfold SqliteQueue.markProcessed, SqliteQueue.stmtMarkProcessed_run.
    rewrite (update_healthy _ _ _ Hh). simpl. rewrite find_row_set_write_queue.
    rewrite find_update_rows by apply set_processed_id.
    unfold find_row in Hfind. rewrite Hfind. simpl. rewrite Hid.
    by rewrite (Z.eqb_sym id id').
  - rewrite (markFailed_healthy _ _ _ _ Hh). simpl. rewrite find_row_set_write_queue.
    rewrite find_update_rows by apply set_failed_id.
    unfold find_row in Hfind. rewrite Hfind. simpl. rewrite Hid.
    by rewrite (Z.eqb_sym id id').
Qed.

Lemma queue_calls_entry calls db id r :
  healthy db -> find_row id db = Some r ->
  find_row id (snd (for_of calls queue_call db))
  = Some (fold_left (entry_after id) calls r)
  /\ healthy (snd (for_of calls queue_call db)).
Proof.
  revert db r. induction calls as [|c calls IH]; intros db r Hh Hfind; [done|].
  rewrite for_of_cons.
  pose proof (queue_call_entry c db id r Hh Hfind) as Hc.
  pose proof (queue_call_healthy c db Hh) as Hh'.
  destruct (queue_call c db) as [[[]|e] db1] eqn:Hrun; simpl in Hc, Hh'.
  - by apply IH.
  - exfalso. clear -Hrun Hh.
    destruct c as [q m|q limit|q id'|q id' e']; simpl in Hrun.
    + by rewrite (send_healthy _ _ _ Hh) in Hrun.
    + unfold bind in Hrun. by rewrite (fetchPending_healthy _ _ _ Hh) in Hrun.
    + unfold SqliteQueue.markProcessed, SqliteQueue.stmtMarkProcessed_run in Hrun.
      by rewrite (update_healthy _ _ _ Hh) in Hrun.
    + by rewrite (markFailed_healthy _ _ _ _ Hh) in Hrun.
Qed.

Lemma fold_entry_after id calls r :
  let r' := fold_left (entry_after id) calls r in
  row_id r' = row_id r
  /\ row_queue_name r' = row_queue_name r
  /\ row_message r' = row_message r
  /\ row_created_at r' = row_created_at r
  /\ row_max_attempts r' = row_max_attempts r
  /\ row_attempts r' = row_attempts r + Z.of_nat (length (failures id calls))
  /\ row_last_error r'
     = match last (failures id calls) with
       | Some error => Some error
       | None => row_last_error r
       end.
Proof.
  revert r. induction calls as [|c calls IH] using rev_ind; intros r.
  { simpl. repeat split; lia. }
  cbv zeta. rewrite fold_left_app. simpl.
  destruct (IH r) as (H1 & H2 & H3 & H4 & H5 & H6 & H7).
  unfold failures. rewrite omap_app. fold (failures id calls).
  set (r1 := fold_left (entry_after id) calls r) in *.
  destruct c as [q m|q limit|q id'|q id' e]; simpl; rewrite ?app_nil_r.
  1,2: done.
  - destruct (id' =? id); simpl; done.
  - destruct (id' =? id); simpl; rewrite ?app_nil_r; [|done].
    rewrite last_snoc, length_app. simpl. repeat split; try done. lia.
Qed.

(** X7. Over any run of calls, an entry keeps its id, queue, message,
    creation time and ceiling; its attempts count the calls of [markFailed]
    on its id, and its last error is the reason of the last of them. *)
Theorem entry_counts_failures calls db id r :
  healthy db -> find_row id db = Some r ->
  exists r',
    find_row id (snd (for_of calls queue_call db)) = Some r'
    /\ row_id r' = id
    /\ row_queue_name r' = row_queue_name r
    /\ row_message r' = row_message r
    /\ row_created_at r' = row_created_at r
    /\ row_max_attempts r' = row_max_attempts r
    /\ row_attempts r' = row_attempts r + Z.of_nat (length (failures id calls))
    /\ row_last_error r'
       = match last (failures id calls) with
         | Some error => Some error
         | None => row_last_error r
         end.
Proof.
  intros Hh Hfind.
  destruct (queue_calls_entry calls db id r Hh Hfind) as [Hrow _].
  exists (fold_left (entry_after id) calls r). split; [done|].
  destruct (fold_entry_after id calls r) as (H1 & H2 & H3 & H4 & H5 & H6 & H7).
  rewrite (find_row_id _ _ _ Hfind) in H1. done.
Qed.

(** X8. Marking an id that no row has changes nothing and is no error. *)
Theorem mark_unknown_id this id error db :
  healthy db -> find_row id db = None ->
  SqliteQueue.markProcessed this id db = (JS.Normal tt, db)
  /\ SqliteQueue.markFailed this id error db = (JS.Normal tt, db).
Proof.
  intros Hh Hfind.
  assert (Forall (fun r => row_id r <> id) (write_queue db)) as Hother.
  { apply Forall_forall. intros r Hin Hid. unfold find_row in Hfind.
    apply list_elem_of_In in Hin.
    pose proof (find_none _ _ Hfind r Hin) as Hne. simpl in Hne.
    apply Z.eqb_neq in Hne. done. }
  split.
  - unfold SqliteQueue.markProcessed, SqliteQueue.stmtMarkProcessed_run.
    rewrite (update_healthy _ _ _ Hh), update_rows_other by done. by destruct db.
  - rewrite (markFailed_healthy _ _ _ _ Hh), update_rows_other by done.
    by destruct db.
Qed.

(** ** First in, first out *)

Lemma sent_rows_cons queue_name seq clock m msgs :
  sent_rows queue_name seq clock (m :: msgs)
  = mkRow (seq + 1) queue_name m clock 0 0 3 None
    :: sent_rows queue_name (seq + 1) clock msgs.
Proof.
  unfold sent_rows. rewrite imap_cons. f_equal.
  - f_equal. lia.
  - apply imap_ext. intros i x _. simpl. f_equal. lia.
Qed.

Lemma sends_healthy q msgs db :
  healthy db ->
  for_of msgs (SqliteQueue.send q) db
  = (JS.Normal tt,
     set_write_queue_seq (write_queue_seq db + Z.of_nat (length msgs))
       (set_write_queue
          (write_queue db
           ++ sent_rows (SqliteQueue.name q) (write_queue_seq db) (now db) msgs)
          db)).
Proof.
  revert db. induction msgs as [|m msgs IH]; intros db Hh.
  - simpl. unfold ret. f_equal. rewrite app_nil_r, Z.add_0_r. by destruct db.
  - rewrite for_of_cons, (send_healthy _ _ _ Hh), IH by done.
    rewrite sent_rows_cons. f_equal. simpl.
    unfold set_write_queue_seq, set_write_queue. simpl.
    rewrite <- app_assoc. simpl. f_equal. lia.
Qed.

Lemma sent_rows_ids queue_name seq clock msgs :
  Forall (fun r => seq < row_id r) (sent_rows queue_name seq clock msgs)
  /\ StronglySorted Sqlite.id_le (sent_rows queue_name seq clock msgs)
  /\ NoDup (row_id <$> sent_rows queue_name seq clock msgs)
  /\ Forall (fun r => SqliteQueue.is_pending queue_name r = true)
       (sent_rows queue_name seq clock msgs).
Proof.
  revert seq. induction msgs as [|m msgs IH]; intros seq.
  { repeat split; constructor. }
  rewrite sent_rows_cons. destruct (IH (seq + 1)) as (Hlt & Hs & Hnd & Hp).
  repeat split.
  - constructor; [simpl; lia|]. eapply Forall_impl; [exact Hlt|]. simpl. lia.
  - constructor; [done|]. eapply Forall_impl; [exact Hlt|].
    unfold Sqlite.id_le. simpl. lia.
  - rewrite fmap_cons. apply NoDup_cons. split; [|done].
    intros Hin. apply list_elem_of_fmap in Hin as (r & Hr & Hin).
    apply (proj1 (Forall_forall _ _) Hlt) in Hin. simpl in Hr. lia.
  - constructor; [|done]. unfold SqliteQueue.is_pending. simpl.
    by rewrite String.eqb_refl.
Qed.

Lemma NoDup_fmap_eq {A B} (f : A -> B) l x y :
  NoDup (f <$> l) -> x ∈ l -> y ∈ l -> f x = f y -> x = y.
Proof.
  induction l as [|a l IH]; intros Hnd Hx Hy Hf; [by apply elem_of_nil in Hx|].
  rewrite fmap_cons in Hnd. apply NoDup_cons in Hnd as [Ha Hnd].
  apply elem_of_cons in Hx as [->|Hx], Hy as [->|Hy]; [done| | |by apply IH].
  - exfalso. apply Ha. rewrite Hf. apply list_elem_of_fmap. by exists y.
  - exfalso. apply Ha. rewrite <- Hf. apply list_elem_of_fmap. by exists x.
Qed.

Lemma order_by_id_app rows new :
  NoDup (row_id <$> rows ++ new) ->
  StronglySorted Sqlite.id_le new ->
  (forall r r', r ∈ rows -> r' ∈ new -> row_id r <= row_id r') ->
  Sqlite.order_by_id (rows ++ new) = Sqlite.order_by_id rows ++ new.
Proof.
  intros Hnd Hnew Hle. unfold Sqlite.order_by_id.
  apply (StronglySorted_unique_strong Sqlite.id_le).
  - intros x1 x2 H1 H2 H12 H21.
    rewrite merge_sort_Permutation in H1.
    rewrite merge_sort_Permutation in H2.
    apply (NoDup_fmap_eq row_id (rows ++ new)); try done.
    unfold Sqlite.id_le in *. lia.
  - apply (StronglySorted_merge_sort _).
  - apply StronglySorted_app_2; [|apply (StronglySorted_merge_sort _)|done].
    intros x1 x2 H1 H2.
    rewrite merge_sort_Permutation in H1. by apply Hle.
  - by rewrite !merge_sort_Permutation.
Qed.

Lemma limit_fmap {A B} (f : A -> B) n l :
  f <$> Sqlite.limit n l = Sqlite.limit n (f <$> l).
Proof. unfold Sqlite.limit. destruct (n <? 0); [done|]. by rewrite fmap_take. Qed.

Lemma pending_page_app queue_name limit rows new :
  NoDup (row_id <$> rows ++ new) ->
  StronglySorted Sqlite.id_le new ->
  (forall r r', r ∈ rows -> r' ∈ new -> row_id r <= row_id r') ->
  Forall (fun r => SqliteQueue.is_pending queue_name r = true) new ->
  pending_page queue_name limit (rows ++ new)
  = Sqlite.limit limit
      (pending_page queue_name (-1) rows ++ (SqliteQueue.project <$> new)).
Proof.
  intros Hnd Hs Hle Hp. unfold pending_page.
  rewrite filter_app, (filter_all_Forall _ new Hp).
  change (Sqlite.limit (-1) ?l) with l.
  rewrite limit_fmap, <- fmap_app. f_equal. f_equal.
  apply order_by_id_app; [|done|].
  - rewrite fmap_app in *. apply NoDup_app in Hnd as (H1 & H2 & H3).
    apply NoDup_app. split; [|split; [|done]].
    + apply (NoDup_fmap_2_strong _).
      * intros x y Hx Hy Hxy. apply list_elem_of_filter in Hx as [_ Hx], Hy as [_ Hy].
        by apply (NoDup_fmap_eq row_id rows).
      * apply NoDup_filter. eapply NoDup_fmap_1, H1.
    + intros id Hin. apply H2.
      apply list_elem_of_fmap in Hin as (r & -> & Hr).
      apply list_elem_of_filter in Hr as [_ Hr].
      apply list_elem_of_fmap. by exists r.
  - intros r r' Hr Hr'. apply list_elem_of_filter in Hr as [_ Hr]. by apply Hle.
Qed.

(** X9. Messages come out in the order they were sent, after those that
    were pending before. *)
Theorem send_fifo q msgs limit db :
  healthy db -> queue_wf db -> NoDup (row_id <$> write_queue db) ->
  let db' := snd (for_of msgs (SqliteQueue.send q) db) in
  SqliteQueue.fetchPending q limit db'
  = (JS.Normal
       (Sqlite.limit (default 10 limit)
          (pending_page (SqliteQueue.name q) (-1) (write_queue db)
           ++ imap (fun i m =>
                      PendingRow.mk (write_queue_seq db + 1 + Z.of_nat i) m 0)
                   msgs)),
     db')
  /\ write_queue_seq db' = write_queue_seq db + Z.of_nat (length msgs)
  /\ queue_wf db' /\ NoDup (row_id <$> write_queue db').
Proof.
  intros Hh Hwf Hnd db'. unfold db'. rewrite (sends_healthy _ _ _ Hh). simpl.
  set (new := sent_rows (SqliteQueue.name q) (write_queue_seq db) (now db) msgs).
  destruct (sent_rows_ids (SqliteQueue.name q) (write_queue_seq db) (now db) msgs)
    as (Hlt & Hs & Hndn & Hp). fold new in Hlt, Hs, Hndn, Hp.
  assert (Hold : forall r, r ∈ write_queue db -> row_id r <= write_queue_seq db).
  { intros r Hr. by apply (proj1 (Forall_forall _ _) Hwf) in Hr as [? _]. }
  assert (Hnd' : NoDup (row_id <$> write_queue db ++ new)).
  { rewrite fmap_app. apply NoDup_app. split; [done|]. split; [|done].
    intros id Hin Hin'.
    apply list_elem_of_fmap in Hin as (r & -> & Hr).
    apply list_elem_of_fmap in Hin' as (r' & Heq & Hr').
    apply Hold in Hr. apply (proj1 (Forall_forall _ _) Hlt) in Hr'. lia. }
  split; [|split; [done|split; [|done]]].
  - rewrite fetchPending_healthy by done. simpl. f_equal. f_equal.
    rewrite pending_page_app; try done.
    + f_equal. f_equal. unfold new, sent_rows.
      rewrite fmap_imap. by apply imap_ext.
    + intros r r' Hr Hr'. apply Hold in Hr.
      apply (proj1 (Forall_forall _ _) Hlt) in Hr'. lia.
  - unfold queue_wf. simpl. apply Forall_app. split.
    + eapply Forall_impl; [exact Hwf|]. simpl. intros r [? ?]. split; [lia|done].
    + clear. unfold new. generalize (write_queue_seq db) as seq.
      induction msgs as [|m msgs IH]; intros seq; [constructor|].
      rewrite sent_rows_cons. constructor; [simpl; split; [lia|done]|].
      eapply Forall_impl; [apply (IH (seq + 1))|]. simpl.
      intros r [? ?]. split; [|done]. cbn [length]. lia.
Qed.

(** ** Several queues in the one table *)

(** X10. A message sent to a queue does not show in another queue; an id
    marked through any queue object marks the entry, whatever its queue. *)
Theorem queues_share_one_table q q' db :
  healthy db ->
  (forall m limit,
     SqliteQueue.name q' <> SqliteQueue.name q ->
     fst (SqliteQueue.fetchPending q limit (snd (SqliteQueue.send q' m db)))
     = fst (SqliteQueue.fetchPending q limit db))
  /\ (forall id error r,
        find_row id db = Some r ->
        find_row id (snd (SqliteQueue.markProcessed q' id db))
        = Some (SqliteQueue.set_processed r)
        /\ find_row id (snd (SqliteQueue.markFailed q' id error db))
           = Some (SqliteQueue.set_failed error r)
        /\ forall limit page,
             fst (SqliteQueue.fetchPending q limit
                    (snd (SqliteQueue.markProcessed q' id db))) = JS.Normal page ->
             id ∉ PendingRow.id <$> page).
Proof.
  intros Hh. split.
  - intros m limit Hname. rewrite (send_healthy _ _ _ Hh). simpl.
    rewrite !fetchPending_healthy by done. simpl. f_equal.
    unfold pending_page. rewrite filter_app, filter_cons, filter_nil.
    rewrite decide_False, app_nil_r; [done|].
    unfold SqliteQueue.is_pending. simpl.
    destruct (String.eqb_spec (SqliteQueue.name q') (SqliteQueue.name q)); [done|].
    simpl. done.
  - intros id error r Hfind. pose proof (find_row_id _ _ _ Hfind) as Hid.
    assert (Hp : SqliteQueue.markProcessed q' id db
                 = (JS.Normal tt,
                    set_write_queue
                      (SqliteQueue.update_rows id SqliteQueue.set_processed
                         (write_queue db)) db)).
    { unfold SqliteQueue.markProcessed, SqliteQueue.stmtMarkProcessed_run.
      by rewrite (update_healthy _ _ _ Hh). }
    rewrite Hp, (markFailed_healthy _ _ _ _ Hh). simpl.
    unfold find_row in *. simpl.
    rewrite !find_update_rows, Hfind by (apply set_processed_id || apply set_failed_id).
    simpl. rewrite Hid, Z.eqb_refl. repeat split.
    intros limit page Hpage.
    rewrite fetchPending_healthy in Hpage by done. simpl in Hpage.
    injection Hpage as <-. apply not_pending_not_fetched.
    apply Forall_forall. intros r' Hin Hid'.
    apply update_rows_elem in Hin as (r0 & Hr0 & ->).
    destruct (Z.eqb_spec (row_id r0) id) as [_|Hne]; [done|].
    by rewrite Hid' in Hne.
Qed.

(** ** The processor, whatever the engine and the endpoint do *)

Lemma same_entry_refl r : same_entry r r.
Proof. unfold same_entry. repeat split; lia. Qed.

Lemma same_entry_trans r1 r2 r3 :
  same_entry r1 r2 -> same_entry r2 r3 -> same_entry r1 r3.
Proof. unfold same_entry. intros (?&?&?&?&?&?) (?&?&?&?&?&?). repeat split; try congruence. lia. Qed.

Lemma entries_kept_refl db : entries_kept db db.
Proof.
  repeat split. apply Forall2_same_length_lookup. split; [done|].
  intros i x y H1 H2. rewrite H1 in H2. injection H2 as <-. apply same_entry_refl.
Qed.

Lemma entries_kept_trans db1 db2 db3 :
  entries_kept db1 db2 -> entries_kept db2 db3 -> entries_kept db1 db3.
Proof.
  intros (?&?&?&H12) (?&?&?&H23). repeat split; try congruence.
  clear -H12 H23. revert H23. generalize (write_queue db3).
  induction H12 as [|r1 r2 l1 l2 H _ IH]; intros l3 H23; inversion H23; subst.
  - constructor.
  - constructor; [by eapply same_entry_trans|by apply IH].
Qed.

Lemma entries_kept_same_data db db' : same_data db db' -> entries_kept db db'.
Proof.
  intros Hd. destruct (same_data_fields _ _ Hd) as (Ht & Hq & Hs & Hn).
  destruct (entries_kept_refl db) as (_ & _ & _ & Hrows).
  repeat split; try done. by rewrite Hq.
Qed.

Lemma entries_kept_update id set db :
  (forall r, same_entry r (set r)) ->
  entries_kept db (snd ((Sqlite.step ;;; SqliteQueue.update_where_id id set) db)).
Proof.
  intros Hset. unfold bind.
  destruct (Sqlite.step db) as [[[]|e] db1] eqn:Hs;
    pose proof (step_same_data _ _ _ Hs) as Hd; simpl.
  - apply (entries_kept_trans _ db1); [by apply entries_kept_same_data|].
    repeat split. unfold SqliteQueue.update_rows.
    apply Forall2_fmap_r, Forall2_same_length_lookup. split; [done|].
    intros i x y H1 H2. rewrite H1 in H2. injection H2 as <-.
    change (same_entry x (if row_id x =? id then set x else x)).
    destruct (row_id x =? id); [apply Hset | apply same_entry_refl].
  - by apply entries_kept_same_data.
Qed.

Lemma entries_kept_markFailed q id e db :
  entries_kept db (snd (SqliteQueue.markFailed q id e db)).
Proof.
  apply entries_kept_update. intros r. unfold same_entry. simpl.
  repeat split. lia.
Qed.

Lemma entries_kept_markProcessed q id db :
  entries_kept db (snd (SqliteQueue.markProcessed q id db)).
Proof.
  apply entries_kept_update. intros r. unfold same_entry. simpl.
  repeat split. lia.
Qed.

Lemma sends_nothing {A} (m : M World A) :
  (forall w, entries_kept (database w) (database (m w).2)
             /\ requests (m w).2 = requests w /\ network (m w).2 = network w) ->
  sends [] m.
Proof.
  intros H w. destruct (H w) as (Hk & Hr & Hn). split; [done|].
  exists []. rewrite app_nil_r. by repeat split.
Qed.

Lemma sends_ret {A} (a : A) : sends [] (ret a).
Proof. apply sends_nothing. intros w. split; [apply entries_kept_refl|done]. Qed.

Lemma sends_throw {A} e : sends [] (throw (A:=A) e).
Proof. apply sends_nothing. intros w. split; [apply entries_kept_refl|done]. Qed.

Lemma sends_lift {A} (c : JS.completion A) : sends [] (lift c).
Proof. apply sends_nothing. intros w. split; [apply entries_kept_refl|done]. Qed.

Lemma sends_on_database {A} (m : M Database A) :
  (forall db, entries_kept db (snd (m db))) -> sends [] (on_database m).
Proof.
  intros H. apply sends_nothing. intros w. unfold on_database.
  specialize (H (database w)). destruct (m (database w)) as [c db']. done.
Qed.

Lemma sends_fetch req : sends [req] (fetch req).
Proof.
  intros w. unfold fetch.
  destruct (network w) as [|[e|r] rest] eqn:Hn; simpl;
    (split; [apply entries_kept_refl|]); exists [req]; by repeat split.
Qed.

Lemma sends_weaken {A} reqs reqs' (m : M World A) :
  sublist reqs reqs' -> sends reqs m -> sends reqs' m.
Proof.
  intros Hsub H w. destruct (H w) as (Hk & sent & Hs & Hr & Hn).
  split; [done|]. exists sent. split; [by etrans|done].
Qed.

Lemma sends_seq {A} reqs1 reqs2 (w w1 : World) (r : JS.completion A * World) :
  entries_kept (database w) (database w1) ->
  (exists sent, sublist sent reqs1 /\ requests w1 = requests w ++ sent
                /\ network w1 = drop (length sent) (network w)) ->
  (entries_kept (database w1) (database r.2)
   /\ exists sent, sublist sent reqs2 /\ requests r.2 = requests w1 ++ sent
                   /\ network r.2 = drop (length sent) (network w1)) ->
  entries_kept (database w) (database r.2)
  /\ exists sent, sublist sent (reqs1 ++ reqs2)
                  /\ requests r.2 = requests w ++ sent
                  /\ network r.2 = drop (length sent) (network w).
Proof.
  intros Hk1 (s1 & Hs1 & Hr1 & Hn1) (Hk2 & s2 & Hs2 & Hr2 & Hn2).
  split; [by eapply entries_kept_trans|].
  exists (s1 ++ s2). split; [by apply sublist_app|].
  rewrite Hr2, Hr1, Hn2, Hn1, <- app_assoc, length_app, drop_drop.
  split; [done|]. f_equal; lia.
Qed.

Lemma sends_here {A} reqs (w : World) (c : JS.completion A) :
  entries_kept (database w) (database (c, w).2)
  /\ exists sent, sublist sent reqs /\ requests (c, w).2 = requests w ++ sent
                  /\ network (c, w).2 = drop (length sent) (network w).
Proof.
  split; [apply entries_kept_refl|]. exists []. simpl. rewrite app_nil_r.
  split; [apply sublist_nil_l|done].
Qed.

Lemma sends_bind {A B} reqs1 reqs2 (m : M World A) (k : A -> M World B) :
  sends reqs1 m -> (forall a, sends reqs2 (k a)) -> sends (reqs1 ++ reqs2) (bind m k).
Proof.
  intros Hm Hk w. unfold bind. destruct (Hm w) as (Hk1 & Hs1).
  destruct (m w) as [[a|e] w1]; simpl in *.
  - apply (sends_seq reqs1 reqs2 w w1); [done..|]. apply Hk.
  - apply (sends_seq (A:=B) reqs1 reqs2 w w1 (JS.Throw e, w1)); [done..|].
    apply sends_here.
Qed.

Lemma sends_try_catch {A} reqs1 reqs2 (body : M World A) handler :
  sends reqs1 body -> (forall e, sends reqs2 (handler e)) ->
  sends (reqs1 ++ reqs2) (try_catch body handler).
Proof.
  intros Hm Hk w. unfold try_catch. destruct (Hm w) as (Hk1 & Hs1).
  destruct (body w) as [[a|e] w1]; simpl in *.
  - apply (sends_seq reqs1 reqs2 w w1 (JS.Normal a, w1)); [done..|].
    apply sends_here.
  - apply (sends_seq reqs1 reqs2 w w1); [done..|]. apply Hk.
Qed.

Lemma sends_lacks_markers v : sends [] (SqliteQueueProvider.lacks_markers v).
Proof.
  unfold SqliteQueueProvider.lacks_markers.
  apply (sends_bind [] []); [apply sends_lift|]. intros operation.
  destruct (negb (JS.truthy operation)); [apply sends_ret|].
  apply (sends_bind [] []); [apply sends_lift|]. intros id.
  destruct (negb (JS.truthy id)); [apply sends_ret|].
  apply (sends_bind [] []); [apply sends_lift|]. intros timestamp. apply sends_ret.
Qed.

Lemma sends_markFailed q id e :
  sends [] (on_database (SqliteQueue.markFailed q id e)).
Proof. apply sends_on_database. intros db. apply entries_kept_markFailed. Qed.

Lemma sends_markProcessed q id :
  sends [] (on_database (SqliteQueue.markProcessed q id)).
Proof. apply sends_on_database. intros db. apply entries_kept_markProcessed. Qed.

Lemma sends_process_row this row :
  sends [request_for this row] (SqliteQueueProvider.process_row this row).
Proof.
  unfold SqliteQueueProvider.process_row.
  apply (sends_try_catch [_] []); [|intros e; apply sends_markFailed].
  apply (sends_bind [] [_]); [apply sends_lift|]. intros messageData.
  apply (sends_bind [] [_]); [apply sends_lacks_markers|]. intros invalid.
  destruct invalid.
  { eapply sends_weaken; [|apply sends_markFailed]. apply sublist_nil_l. }
  apply (sends_bind [_] []).
  { apply sends_fetch. }
  intros response. destruct (negb (Response.ok response)); [apply sends_markFailed|].
  apply (sends_bind [] []); [apply sends_lift|]. intros result.
  apply (sends_bind [] []); [apply sends_lift|]. intros success.
  destruct (JS.truthy success); [apply sends_markProcessed | apply sends_markFailed].
Qed.

Lemma sends_for_of this page :
  sends (request_for this <$> page)
    (for_of page (SqliteQueueProvider.process_row this)).
Proof.
  induction page as [|row page IH]; [apply sends_ret|].
  cbn [for_of]. rewrite fmap_cons.
  apply (sends_bind [_] _); [apply sends_process_row|]. intros _. apply IH.
Qed.

Lemma pending_page_length queue_name limit rows :
  0 <= limit -> Z.of_nat (length (pending_page queue_name limit rows)) <= limit.
Proof.
  intros Hl. unfold pending_page. rewrite length_fmap. by apply limit_length.
Qed.

(** X11. A firing of the timer never throws and leaves the provider as it
    was; it only marks entries, and the requests it makes are requests for
    entries of the page it fetched, in their order, at most ten. *)
Theorem tick_never_throws this w :
  exists w' sent,
    SqliteQueueProvider.tick this w = (JS.Normal this, w')
    /\ entries_kept (database w) (database w')
    /\ sublist sent
         (request_for this
            <$> pending_page
                  (SqliteQueue.name (SqliteQueueProvider.writeQueue this)) 10
                  (write_queue (database w)))
    /\ (length sent <= 10)%nat
    /\ requests w' = requests w ++ sent
    /\ network w' = drop (length sent) (network w)
    /\ (SqliteQueueProvider.processing this = true -> w' = w).
Proof.
  unfold SqliteQueueProvider.tick.
  destruct (SqliteQueueProvider.processing this) eqn:Hproc.
  { exists w, []. split; [done|]. split; [apply entries_kept_refl|].
    split; [apply sublist_nil_l|]. split; [simpl; lia|].
    by rewrite app_nil_r. }
  set (running := SqliteQueueProvider.mk _ true _ _).
  set (page := pending_page _ _ _).
  assert (Hpage : (length page <= 10)%nat).
  { pose proof (pending_page_length
      (SqliteQueue.name (SqliteQueueProvider.writeQueue this)) 10
      (write_queue (database w))). fold page in H. lia. }
  assert (Hthis : SqliteQueueProvider.mk (SqliteQueueProvider.writeQueue this) false
                    (SqliteQueueProvider.serverUrl this)
                    (SqliteQueueProvider.apiSecret this) = this).
  { destruct this. simpl in *. by subst. }
  rewrite Hthis.
  assert (Hbatch :
    entries_kept (database w)
      (database (SqliteQueueProvider.processPendingMessages running w).2)
    /\ exists sent,
         sublist sent (request_for this <$> page)
         /\ requests (SqliteQueueProvider.processPendingMessages running w).2
            = requests w ++ sent
         /\ network (SqliteQueueProvider.processPendingMessages running w).2
            = drop (length sent) (network w)).
  { unfold SqliteQueueProvider.processPendingMessages, bind, on_database.
    destruct (fetchPending_cases (SqliteQueueProvider.writeQueue running) (Some 10)
                (database w)) as (c & db1 & Hrun & Hd & _ & Hc).
    rewrite Hrun.
    destruct Hc as [->|[[e ->] _]].
    - change (default 10 (Some 10)) with 10.
      change (SqliteQueueProvider.writeQueue running)
        with (SqliteQueueProvider.writeQueue this). fold page.
      set (w1 := mkWorld db1 (network w) (requests w)).
      assert (match page with
              | [] => ret ()
              | _ :: _ => for_of page (SqliteQueueProvider.process_row running)
              end w1
              = for_of page (SqliteQueueProvider.process_row running) w1) as ->.
      { by destruct page. }
      destruct (sends_for_of running page w1) as (Hk & sent & Hs & Hr & Hn).
      split.
      + apply (entries_kept_trans _ db1); [by apply entries_kept_same_data|done].
      + exists sent. done.
    - simpl. split; [by apply entries_kept_same_data|].
      exists []. rewrite app_nil_r. split; [apply sublist_nil_l|done]. }
  destruct Hbatch as (Hk & sent & Hs & Hr & Hn).
  unfold bind, try_catch.
  destruct (SqliteQueueProvider.processPendingMessages running w) as [[[]|e] w1];
    simpl in *; exists w1, sent;
    (split; [done|]); (split; [exact Hk|]); (split; [exact Hs|]);
    (split; [apply sublist_length in Hs; rewrite length_fmap in Hs; lia|]); done.
Qed.

(** ** The processor on a healthy engine *)

(** [JSON.parse] makes no [undefined], at the top or as a member of the
    object it returns. *)
Lemma parse_number_number s v r :
  JS.parse_number s = Some (v, r) -> exists m e, v = JS.Number m e.
Proof.
  unfold JS.parse_number. intros H.
  repeat (case_match; simplify_eq/=; try done); by eexists _, _.
Qed.

Lemma parse_value_defined fuel s v r :
  JS.parse_value fuel s = Some (v, r) -> v <> JS.Undefined.
Proof.
  destruct fuel as [|fuel]; [done|]. cbn [JS.parse_value].
  destruct (JS.skip_ws s) as [|c rest]; [done|]. cbv zeta. unfold JS.expect.
  intros H.
  repeat (case_match; simplify_eq; try done).
  by apply parse_number_number in H as (m & e & ->).
Qed.

Lemma parse_members_defined fuel s fields r :
  JS.parse_members fuel s = Some (fields, r) ->
  Forall (fun field => field.2 <> JS.Undefined) fields.
Proof.
  revert s fields r. induction fuel as [|fuel IH]; intros s fields r; [done|].
  cbn [JS.parse_members]. intros H.
  repeat (case_match; simplify_eq; try done).
  - constructor; [by eapply parse_value_defined | by eapply IH].
  - constructor; [by eapply parse_value_defined | constructor].
Qed.

Lemma JSON_parse_defined text fields :
  JS.JSON_parse text = JS.Normal (JS.Object fields) ->
  Forall (fun field => field.2 <> JS.Undefined) fields.
Proof.
  unfold JS.JSON_parse.
  destruct (JS.parse_value _ text) as [[v rest]|] eqn:Hparse; [|done].
  destruct (JS.skip_ws rest); [|done]. intros [= ->].
  destruct (2 * String.length text + 1)%nat as [|fuel]; [done|].
  cbn [JS.parse_value] in Hparse.
  destruct (JS.skip_ws text) as [|c s0]; [done|]. cbv zeta in Hparse.
  unfold JS.expect in Hparse.
  repeat (case_match; simplify_eq; try done);
    try (by constructor); try (by eapply parse_members_defined).
  by apply parse_number_number in Hparse as (m & e & ?).
Qed.

(** Reading a property of an object [JSON.parse] made gives its member of
    that name, [undefined] when it has none. *)
Lemma lookup_field_member name fields :
  Forall (fun field => field.2 <> JS.Undefined) fields ->
  JS.lookup_field name fields = default JS.Undefined (member name fields).
Proof.
  unfold member. induction 1 as [|[k v] fields Hv Hall IH]; [done|].
  cbn [JS.lookup_field]. rewrite IH, filter_cons. cbn [fst].
  set (matching := filter _ fields) in *.
  assert (forall field, last matching = Some field -> field.2 <> JS.Undefined)
    as Hdefined.
  { intros field Hlast. apply last_Some in Hlast as [l' Hl'].
    assert (field ∈ matching) as Hin.
    { rewrite Hl'. apply elem_of_app. right. by left. }
    apply list_elem_of_filter in Hin as [_ Hin].
    by apply (proj1 (Forall_forall _ _) Hall) in Hin. }
  destruct (decide (k = name)) as [->|Hne].
  - rewrite String.eqb_refl, last_cons.
    destruct (last matching) as [[k' v']|] eqn:Hlast; [|done].
    specialize (Hdefined _ eq_refl). cbn in *. by destruct v'.
  - apply String.eqb_neq in Hne. rewrite Hne.
    by destruct (default JS.Undefined _).
Qed.

Lemma truthy_has_marker text fields name :
  JS.JSON_parse text = JS.Normal (JS.Object fields) ->
  JS.truthy (JS.lookup_field name fields) = has_marker (JS.Object fields) name.
Proof.
  intros Hparse%JSON_parse_defined. rewrite lookup_field_member by done.
  simpl. by destruct (member name fields).
Qed.

(** The code asks for a request exactly for the deliverable messages: its
    test of the markers passes for them, and for no other message. *)
Lemma deliverable_lacks_markers message :
  deliverable message
  = match JS.JSON_parse message with
    | JS.Normal messageData =>
        match fst (SqliteQueueProvider.lacks_markers messageData tt) with
        | JS.Normal invalid => negb invalid
        | JS.Throw _ => false
        end
    | JS.Throw _ => false
    end.
Proof.
  unfold deliverable.
  destruct (JS.JSON_parse message) as [messageData|e] eqn:Hparse; [|done].
  destruct messageData as [| | | | | |fields]; try done.
  unfold SqliteQueueProvider.lacks_markers, bind, lift, ret, markers.
  cbn [JS.get_prop forallb].
  rewrite !(truthy_has_marker message fields) by done.
  destruct (has_marker (JS.Object fields) "operation"); [|done].
  destruct (has_marker (JS.Object fields) "id"); [|done].
  by destruct (has_marker (JS.Object fields) "timestamp").
Qed.

Lemma lacks_markers_pure {S} v (s : S) :
  SqliteQueueProvider.lacks_markers v s
  = (fst (SqliteQueueProvider.lacks_markers v tt), s).
Proof.
  unfold SqliteQueueProvider.lacks_markers, bind, lift, ret.
  destruct (JS.get_prop v "operation") as [operation|]; [|done].
  destruct (negb (JS.truthy operation)); [done|].
  destruct (JS.get_prop v "id") as [id|]; [|done].
  destruct (negb (JS.truthy id)); [done|].
  by destruct (JS.get_prop v "timestamp").
Qed.

(** Handling one row on a healthy engine: one UPDATE of the rows of its id.
    A request is made exactly for a deliverable message, and takes the next
    answer of the endpoint; the row is acknowledged exactly when its message
    was deliverable and that answer acknowledges. *)
Lemma process_row_verdict this row w :
  healthy (database w) ->
  exists f,
    SqliteQueueProvider.process_row this row w
    = (JS.Normal tt,
       mkWorld
         (set_write_queue
            (SqliteQueue.update_rows (PendingRow.id row) f (write_queue (database w)))
            (database w))
         (if deliverable (PendingRow.message row)
          then drop 1 (network w) else network w)
         (if deliverable (PendingRow.message row)
          then requests w ++ [request_for this row] else requests w))
    /\ if deliverable (PendingRow.message row)
          && from_option acknowledges false (head (network w))
       then f = SqliteQueue.set_processed
       else exists reason, f = SqliteQueue.set_failed reason.
Proof.
  intros Hh. rewrite deliverable_lacks_markers.
  unfold SqliteQueueProvider.process_row, try_catch, bind at 1, lift.
  destruct (JS.JSON_parse (PendingRow.message row)) as [v|e] eqn:Hparse.
  2: { rewrite on_database_markFailed by done. eexists. split; [done|]. by eexists. }
  unfold bind at 1. rewrite (lacks_markers_pure v w).
  destruct (fst (SqliteQueueProvider.lacks_markers v ())) as [[]|e] eqn:Hmark.
  - rewrite on_database_markFailed by done. eexists. split; [done|]. by eexists.
  - change (negb false) with true. cbv iota.
    change (Request.mk _ _ _ _) with (request_for this row) at 1.
    unfold bind at 1, fetch.
    destruct (network w) as [|[e|resp] rest] eqn:Hnet.
    + rewrite on_database_markFailed by done.
      eexists. split; [done|]. by eexists.
    + rewrite on_database_markFailed by done.
      eexists. split; [done|]. by eexists.
    + unfold acknowledges. cbn [head from_option andb].
      destruct (Response.ok resp) eqn:Hok; simpl.
      * unfold bind at 1, lift.
        destruct (JS.JSON_parse (Response.text resp)) as [result|e] eqn:Hbody.
        -- unfold bind at 1.
           destruct (JS.get_prop result "success") as [success|e] eqn:Hprop.
           ++ destruct (JS.truthy success) eqn:Htruthy.
              ** rewrite on_database_markProcessed by done.
                 eexists. split; [done|]. done.
              ** rewrite on_database_markFailed by done.
                 eexists. split; [done|]. by eexists.
           ++ rewrite on_database_markFailed by done.
              eexists. split; [done|]. by eexists.
        -- rewrite on_database_markFailed by done.
           eexists. split; [done|]. by eexists.
      * rewrite on_database_markFailed by done.
        eexists. split; [done|]. by eexists.
  - rewrite on_database_markFailed by done. eexists. split; [done|]. by eexists.
Qed.

(** Handling a page on a healthy engine: the deliverable rows are asked
    for in their order, the i-th of them gets the i-th answer. *)
Lemma process_rows_verdict this page w :
  healthy (database w) -> NoDup (PendingRow.id <$> page) ->
  let asked := filter (fun row => deliverable (PendingRow.message row) = true) page in
  exists w',
    for_of page (SqliteQueueProvider.process_row this) w = (JS.Normal tt, w')
    /\ healthy (database w')
    /\ requests w' = requests w ++ (request_for this <$> asked)
    /\ network w' = drop (length asked) (network w)
    /\ (forall id, id ∉ PendingRow.id <$> page ->
          find_row id (database w') = find_row id (database w))
    /\ (forall i row r,
          asked !! i = Some row ->
          find_row (PendingRow.id row) (database w) = Some r ->
          if from_option acknowledges false (network w !! i)
          then find_row (PendingRow.id row) (database w')
               = Some (SqliteQueue.set_processed r)
          else exists reason,
                 find_row (PendingRow.id row) (database w')
                 = Some (SqliteQueue.set_failed reason r))
    /\ (forall row r,
          row ∈ page -> deliverable (PendingRow.message row) = false ->
          find_row (PendingRow.id row) (database w) = Some r ->
          exists reason,
            find_row (PendingRow.id row) (database w')
            = Some (SqliteQueue.set_failed reason r)).
Proof.
  revert w. induction page as [|row rest IH]; intros w Hh Hnd asked.
  { exists w. split; [done|]. split; [done|]. unfold asked. simpl.
    rewrite app_nil_r. split; [done|]. split; [done|]. split; [done|].
    split; [done|]. intros row r Hin. by apply elem_of_nil in Hin. }
  rewrite fmap_cons in Hnd. apply NoDup_cons in Hnd as [Hrow Hnd].
  destruct (process_row_verdict this row w Hh) as (f & Hrun & Hf).
  set (w1 := mkWorld _ _ _) in Hrun.
  assert (Hh1 : healthy (database w1)) by by apply healthy_set_write_queue.
  assert (Hid : forall r, row_id (f r) = row_id r).
  { revert Hf. clear. destruct (_ && _); [intros ->|intros [reason ->]]; done. }
  destruct (IH w1 Hh1 Hnd) as (w' & Hrun' & Hh' & Hreq & Hnet & Hother & Hasked & Hrest).
  exists w'. rewrite for_of_cons, Hrun. split; [done|]. split; [done|].
  assert (Hframe : forall id, id <> PendingRow.id row ->
            find_row id (database w1) = find_row id (database w)).
  { intros id Hne. unfold find_row. simpl. by apply find_update_other. }
  assert (Hhere : forall r,
            find_row (PendingRow.id row) (database w) = Some r ->
            find_row (PendingRow.id row) (database w') = Some (f r)).
  { intros r Hfind. rewrite (Hother _ Hrow).
    unfold find_row in *. simpl. rewrite find_update_rows, Hfind by done.
    simpl. apply find_some in Hfind as [_ ->%Z.eqb_eq]. by rewrite Z.eqb_refl. }
  assert (Hin_rest : forall row0, row0 ∈ rest ->
            PendingRow.id row0 <> PendingRow.id row).
  { intros row0 Hin E. apply Hrow. rewrite <- E. by apply list_elem_of_fmap_2. }
  split; [|split; [|split; [|split]]].
  - rewrite Hreq. unfold asked. rewrite filter_cons. unfold w1. simpl.
    destruct (deliverable (PendingRow.message row)) eqn:Hd.
    + rewrite decide_True by done. by rewrite fmap_cons, <- app_assoc.
    + by rewrite decide_False by done.
  - rewrite Hnet. unfold asked. rewrite filter_cons. unfold w1. simpl.
    destruct (deliverable (PendingRow.message row)) eqn:Hd.
    + rewrite decide_True by done. rewrite drop_drop. done.
    + by rewrite decide_False by done.
  - intros id Hid'. rewrite fmap_cons in Hid'.
    apply not_elem_of_cons in Hid' as [Hne Hid'].
    rewrite (Hother id Hid'). by apply Hframe.
  - intros i row0 r. unfold asked. rewrite filter_cons.
    destruct (deliverable (PendingRow.message row)) eqn:Hd.
    + rewrite decide_True by done. destruct i as [|i].
      * intros [= <-] Hfind. rewrite (Hhere r Hfind).
        simpl in Hf. rewrite <- head_lookup.
        destruct (from_option acknowledges false (head (network w)));
          [by rewrite Hf | destruct Hf as [reason ->]; by eexists].
      * cbn [lookup list_lookup]. intros Hi Hfind.
        assert (row0 ∈ rest) as Hin.
        { apply list_elem_of_lookup_2 in Hi.
          by apply list_elem_of_filter in Hi as [_ ?]. }
        rewrite <- (Hframe _ (Hin_rest _ Hin)) in Hfind.
        pose proof (Hasked i row0 r Hi Hfind) as Hv.
        replace (network w1 !! i) with (network w !! S i) in Hv; [done|].
        unfold w1. simpl. by rewrite lookup_drop.
    + rewrite decide_False by done. intros Hi Hfind.
      assert (row0 ∈ rest) as Hin.
      { apply list_elem_of_lookup_2 in Hi.
        by apply list_elem_of_filter in Hi as [_ ?]. }
      rewrite <- (Hframe _ (Hin_rest _ Hin)) in Hfind.
      exact (Hasked i row0 r Hi Hfind).
  - intros row0 r Hin Hd Hfind. apply elem_of_cons in Hin as [->|Hin].
    + rewrite (Hhere r Hfind). rewrite Hd in Hf. simpl in Hf.
      destruct Hf as [reason ->]. by eexists.
    + rewrite <- (Hframe _ (Hin_rest _ Hin)) in Hfind.
      exact (Hrest row0 r Hin Hd Hfind).
Qed.

Lemma tick_batch this w :
  SqliteQueueProvider.processing this = false ->
  healthy (database w) ->
  snd (SqliteQueueProvider.tick this w)
  = snd (for_of
           (pending_page (SqliteQueue.name (SqliteQueueProvider.writeQueue this))
              10 (write_queue (database w)))
           (SqliteQueueProvider.process_row
              (SqliteQueueProvider.mk (SqliteQueueProvider.writeQueue this) true
                 (SqliteQueueProvider.serverUrl this)
                 (SqliteQueueProvider.apiSecret this))) w).
Proof.
  intros Hidle Hh. unfold SqliteQueueProvider.tick. rewrite Hidle.
  set (running := SqliteQueueProvider.mk _ true _ _).
  set (page := pending_page _ _ _).
  assert (SqliteQueueProvider.processPendingMessages running w
          = for_of page (SqliteQueueProvider.process_row running) w) as Hbatch.
  { unfold SqliteQueueProvider.processPendingMessages, bind, on_database.
    rewrite fetchPending_healthy by done.
    change (SqliteQueueProvider.writeQueue running)
      with (SqliteQueueProvider.writeQueue this).
    change (default 10 (Some 10)) with 10. fold page.
    replace (mkWorld (database w) (network w) (requests w)) with w
      by (by destruct w).
    by destruct page. }
  unfold bind, try_catch. rewrite Hbatch.
  by destruct (for_of page (SqliteQueueProvider.process_row running) w) as [[[]|e] w1].
Qed.

(** X12. On a healthy engine with distinct ids, a firing that finds no
    batch under way makes one request for each deliverable entry of the page
    it fetched (the message is JSON for an object whose members [operation],
    [id] and [timestamp] are truthy), in the order of the page, and the i-th
    request takes the i-th answer of the endpoint. Every entry of the page is
    marked once: an entry that was asked for is marked processed exactly when
    the answer to its own request is ok with a JSON body whose [success] is
    truthy, and is marked failed otherwise, also when no answer comes; an
    entry that is not deliverable is marked failed without a request. The
    entries outside the page are as they were. *)
Theorem tick_marks_each_entry this w :
  SqliteQueueProvider.processing this = false ->
  healthy (database w) ->
  NoDup (row_id <$> write_queue (database w)) ->
  let page :=
    pending_page (SqliteQueue.name (SqliteQueueProvider.writeQueue this)) 10
      (write_queue (database w)) in
  let asked :=
    filter (fun row => deliverable (PendingRow.message row) = true) page in
  let w' := snd (SqliteQueueProvider.tick this w) in
  healthy (database w')
  /\ requests w' = requests w ++ (request_for this <$> asked)
  /\ network w' = drop (length asked) (network w)
  /\ (forall i r,
        r ∈ write_queue (database w) ->
        asked !! i = Some (SqliteQueue.project r) ->
        if from_option acknowledges false (network w !! i)
        then find_row (row_id r) (database w')
             = Some (SqliteQueue.set_processed r)
        else exists reason,
               find_row (row_id r) (database w')
               = Some (SqliteQueue.set_failed reason r))
  /\ (forall r,
        r ∈ write_queue (database w) -> SqliteQueue.project r ∈ page ->
        deliverable (row_message r) = false ->
        exists reason,
          find_row (row_id r) (database w')
          = Some (SqliteQueue.set_failed reason r))
  /\ (forall id, id ∉ PendingRow.id <$> page ->
        find_row id (database w') = find_row id (database w)).
Proof.
  intros Hidle Hh Hnd page asked w'. subst w'.
  rewrite (tick_batch _ _ Hidle Hh). fold page.
  set (running := SqliteQueueProvider.mk _ true _ _).
  destruct (process_rows_verdict running page w Hh)
    as (w1 & Hrun & Hh1 & Hreq & Hnet & Hother & Hasked & Hrest).
  { by apply pending_page_NoDup. }
  rewrite Hrun. cbn [snd].
  split; [done|]. split; [done|]. split; [done|].
  split; [|split; [|done]].
  - intros i r Hr Hi.
    apply (Hasked i (SqliteQueue.project r) r Hi). by apply find_NoDup.
  - intros r Hr Hpage Hd.
    apply (Hrest (SqliteQueue.project r) r Hpage Hd). by apply find_NoDup.
Qed.

(** ** Three batches settle the entries of a page *)

Lemma take_sorted_ahead n (l : list QueueRow) r :
  StronglySorted Sqlite.id_le l -> NoDup (row_id <$> l) -> r ∈ l ->
  r ∈ take n l
  <-> (length (filter (fun x => (row_id x < row_id r)%Z) l) < n)%nat.
Proof.
  revert n. induction l as [|x l IH]; intros n Hs Hnd Hr.
  { by apply elem_of_nil in Hr. }
  apply StronglySorted_inv in Hs as [Hs Hx].
  rewrite fmap_cons in Hnd. apply NoDup_cons in Hnd as [Hxl Hnd].
  destruct n as [|n].
  { simpl. split; [intros H; by apply elem_of_nil in H | lia]. }
  rewrite filter_cons. cbn [take].
  destruct (decide (row_id x = row_id r)) as [Heq|Hne].
  - assert (r = x) as ->.
    { apply elem_of_cons in Hr as [->|Hr]; [done|]. exfalso. apply Hxl.
      rewrite Heq. by apply list_elem_of_fmap_2. }
    rewrite decide_False by lia.
    rewrite filter_none_Forall.
    + simpl. split; [lia | intros _; by left].
    + apply Forall_forall. intros y Hy.
      apply (proj1 (Forall_forall _ _) Hx) in Hy as Hle. unfold Sqlite.id_le in Hle.
      assert (row_id y <> row_id x); [|lia].
      intros E. apply Hxl. rewrite <- E. by apply list_elem_of_fmap_2.
  - apply elem_of_cons in Hr as [->|Hr]; [done|].
    assert (row_id x < row_id r) as Hlt.
    { apply (proj1 (Forall_forall _ _) Hx) in Hr as Hle. unfold Sqlite.id_le in Hle.
      lia. }
    rewrite decide_True by done. cbn [length].
    rewrite elem_of_cons, (IH n Hs Hnd Hr).
    split; [intros [->|?]; [done|lia] | right; lia].
Qed.

Lemma pending_page_ahead queue_name L rows r :
  0 <= L -> NoDup (row_id <$> rows) -> r ∈ rows ->
  SqliteQueue.is_pending queue_name r = true ->
  SqliteQueue.project r ∈ pending_page queue_name L rows
  <-> Z.of_nat (length (ahead queue_name (row_id r) rows)) < L.
Proof.
  intros HL Hnd Hr Hp. unfold pending_page, Sqlite.limit, ahead.
  destruct (Z.ltb_spec L 0); [lia|].
  set (pending := filter (fun r => SqliteQueue.is_pending queue_name r = true) rows).
  assert (Hperm : Sqlite.order_by_id pending ≡ₚ pending)
    by apply merge_sort_Permutation.
  assert (Hsub : forall x, x ∈ Sqlite.order_by_id pending -> x ∈ rows).
  { intros x Hx. rewrite Hperm in Hx. by apply list_elem_of_filter in Hx as [_ ?]. }
  assert (Hnd' : NoDup (row_id <$> Sqlite.order_by_id pending)).
  { rewrite Hperm. apply (NoDup_fmap_2_strong _).
    - intros x y Hx Hy. apply list_elem_of_filter in Hx as [_ Hx], Hy as [_ Hy].
      by apply (NoDup_fmap_eq row_id rows).
    - apply NoDup_filter. eapply NoDup_fmap_1, Hnd. }
  assert (Hin : r ∈ Sqlite.order_by_id pending).
  { rewrite Hperm. by apply list_elem_of_filter. }
  trans (r ∈ take (Z.to_nat L) (Sqlite.order_by_id pending)).
  { split.
    - intros H'. apply list_elem_of_fmap in H' as (x & Hx & Hin').
      assert (x = r) as <-; [|done].
      apply (NoDup_fmap_eq row_id rows); try done.
      + apply Hsub. by eapply subseteq_take.
      + symmetry. by apply (f_equal PendingRow.id) in Hx.
    - intros H'. by apply list_elem_of_fmap_2. }
  rewrite take_sorted_ahead; [|apply (StronglySorted_merge_sort _)|done..].
  rewrite Hperm. unfold pending. rewrite list_filter_filter. lia.
Qed.

(** One firing, row by row: a row outside the page is as it was, a row of
    the page was marked once. *)
Lemma tick_rows this w :
  SqliteQueueProvider.processing this = false ->
  healthy (database w) ->
  NoDup (row_id <$> write_queue (database w)) ->
  let page :=
    pending_page (SqliteQueue.name (SqliteQueueProvider.writeQueue this)) 10
      (write_queue (database w)) in
  let w' := snd (SqliteQueueProvider.tick this w) in
  healthy (database w')
  /\ NoDup (row_id <$> write_queue (database w'))
  /\ Forall2 (fun r r' =>
                ((SqliteQueue.project r ∉ page) /\ r' = r)
                \/ ((SqliteQueue.project r ∈ page)
                    /\ (r' = SqliteQueue.set_processed r
                        \/ exists reason, r' = SqliteQueue.set_failed reason r)))
       (write_queue (database w)) (write_queue (database w')).
Proof.
  intros Hidle Hh Hnd page w'. subst w'.
  rewrite (tick_batch _ _ Hidle Hh). fold page.
  set (running := SqliteQueueProvider.mk _ true _ _).
  destruct (process_rows_verdict running page w Hh)
    as (w1 & Hrun & Hh1 & _ & _ & Hother & Hasked & Hrest).
  { by apply pending_page_NoDup. }
  destruct (sends_for_of running page w) as ((_ & _ & _ & Hkept) & _).
  rewrite Hrun in *. simpl in *.
  assert (Hids : row_id <$> write_queue (database w1)
                 = row_id <$> write_queue (database w)).
  { clear -Hkept. induction Hkept as [|r r' l l' (H & _) _ IH]; [done|].
    by rewrite !fmap_cons, H, IH. }
  split; [done|]. split; [by rewrite Hids|].
  apply Forall2_same_length_lookup. split; [by eapply Forall2_length|].
  intros i r r' Hr Hr'.
  destruct (Forall2_lookup_lr _ _ _ _ _ _ Hkept Hr Hr') as (Hid & _).
  assert (Hin : r ∈ write_queue (database w)) by by eapply list_elem_of_lookup_2.
  assert (Hin' : r' ∈ write_queue (database w1)) by by eapply list_elem_of_lookup_2.
  pose proof (find_NoDup _ _ Hnd Hin) as Hfind.
  assert (Hfind' : find_row (row_id r) (database w1) = Some r').
  { unfold find_row. rewrite <- Hid. apply find_NoDup; [by rewrite Hids|done]. }
  destruct (decide (row_id r ∈ PendingRow.id <$> page)) as [Hpage|Hpage].
  - right. assert (SqliteQueue.project r ∈ page) as Hproj.
    { apply list_elem_of_fmap in Hpage as (row & Hrow & Hin0).
      destruct (pending_page_elem _ _ _ _ Hin0) as (r0 & Hr0 & Hp & _).
      assert (r0 = r) as <-; [|by rewrite Hp].
      apply (NoDup_fmap_eq row_id (write_queue (database w))); try done.
      rewrite Hrow, <- Hp. done. }
    split; [done|].
    assert (find_row (row_id r) (database w1) = Some (SqliteQueue.set_processed r)
            \/ exists reason,
                 find_row (row_id r) (database w1)
                 = Some (SqliteQueue.set_failed reason r)) as Hmarked.
    { destruct (deliverable (row_message r)) eqn:Hd.
      - assert (SqliteQueue.project r
                  ∈ filter (fun row => deliverable (PendingRow.message row) = true)
                      page) as Hasks by (by apply list_elem_of_filter).
        apply list_elem_of_lookup in Hasks as [j Hj].
        pose proof (Hasked j _ r Hj Hfind) as Hv. simpl in Hv.
        destruct (from_option acknowledges false (network w !! j));
          [by left | by right].
      - right. exact (Hrest _ r Hproj Hd Hfind). }
    destruct Hmarked as [H1|(reason & H1)];
      rewrite Hfind' in H1; injection H1 as ->; [by left|right; by eexists].
  - left. split.
    + intros Hproj. apply Hpage. by apply (list_elem_of_fmap_2 PendingRow.id) in Hproj.
    + rewrite (Hother _ Hpage) in Hfind'. unfold find_row in Hfind'. congruence.
Qed.

Lemma page_pending queue_name L rows r :
  NoDup (row_id <$> rows) -> r ∈ rows ->
  SqliteQueue.project r ∈ pending_page queue_name L rows ->
  SqliteQueue.is_pending queue_name r = true.
Proof.
  intros Hnd Hr Hpage.
  destruct (pending_page_elem _ _ _ _ Hpage) as (r0 & Hr0 & Hp & H0 & Hname).
  assert (r0 = r) as <-.
  { apply (NoDup_fmap_eq row_id rows); try done.
    by apply (f_equal PendingRow.id) in Hp. }
  unfold SqliteQueue.is_pending. rewrite H0, Hname. simpl. apply String.eqb_refl.
Qed.

Lemma ahead_shrinks queue_name id rows rows' :
  Forall2 (fun r r' =>
             row_id r' = row_id r
             /\ (SqliteQueue.is_pending queue_name r' = true ->
                 SqliteQueue.is_pending queue_name r = true)) rows rows' ->
  (length (ahead queue_name id rows') <= length (ahead queue_name id rows))%nat.
Proof.
  unfold ahead. induction 1 as [|r r' l l' [Hid Hp] _ IH]; [done|].
  rewrite !filter_cons.
  destruct (decide (row_id r' < id /\ SqliteQueue.is_pending queue_name r' = true))
    as [[H1 H2]|Hno].
  - rewrite decide_True by (split; [lia | by apply Hp]). simpl. lia.
  - destruct (decide (row_id r < id /\ SqliteQueue.is_pending queue_name r = true));
      simpl; lia.
Qed.

(** One firing takes a step towards settling an entry of the page: it
    is acknowledged, or dead, or one attempt closer to its ceiling and on the
    next page. *)
Lemma tick_countdown this w r k :
  SqliteQueueProvider.processing this = false ->
  healthy (database w) ->
  NoDup (row_id <$> write_queue (database w)) ->
  r ∈ write_queue (database w) ->
  (row_processed r = 1 \/ row_processed r = -1)
  \/ (SqliteQueue.project r
        ∈ pending_page (SqliteQueue.name (SqliteQueueProvider.writeQueue this)) 10
            (write_queue (database w)))
     /\ row_max_attempts r - row_attempts r <= Z.of_nat (S k) ->
  let w' := snd (SqliteQueueProvider.tick this w) in
  exists r',
    r' ∈ write_queue (database w') /\ row_id r' = row_id r
    /\ ((row_processed r' = 1 \/ row_processed r' = -1)
        \/ (SqliteQueue.project r'
              ∈ pending_page
                  (SqliteQueue.name (SqliteQueueProvider.writeQueue this)) 10
                  (write_queue (database w')))
           /\ (1 <= k)%nat
           /\ row_max_attempts r' - row_attempts r' <= Z.of_nat k).
Proof.
  intros Hidle Hh Hnd Hr Hstate w'.
  destruct (tick_rows this w Hidle Hh Hnd) as (Hh' & Hnd' & Hrows).
  fold w' in Hh', Hnd', Hrows.
  set (name := SqliteQueue.name (SqliteQueueProvider.writeQueue this)) in *.
  set (page := pending_page name 10 (write_queue (database w))) in *.
  apply list_elem_of_lookup in Hr as [i Hi].
  destruct (Forall2_lookup_l _ _ _ _ _ Hrows Hi) as (r' & Hi' & Hrel).
  assert (Hr : r ∈ write_queue (database w)) by by eapply list_elem_of_lookup_2.
  assert (Hr' : r' ∈ write_queue (database w')) by by eapply list_elem_of_lookup_2.
  exists r'. split; [done|].
  assert (Hmono : Forall2 (fun r r' =>
             row_id r' = row_id r
             /\ (SqliteQueue.is_pending name r' = true ->
                 SqliteQueue.is_pending name r = true))
            (write_queue (database w)) (write_queue (database w'))).
  { apply Forall2_same_length_lookup. split; [by eapply Forall2_length|].
    intros j x y Hx Hy.
    assert (Hxin : x ∈ write_queue (database w)) by by eapply list_elem_of_lookup_2.
    destruct (Forall2_lookup_lr _ _ _ _ _ _ Hrows Hx Hy)
      as [[_ ->]|[Hp [->|[reason ->]]]]; (split; [done|]); try done.
    intros _. by apply (page_pending name 10 (write_queue (database w))). }
  destruct Hrel as [[Hout ->]|[Hin Hmark]].
  { split; [done|]. left. destruct Hstate as [?|[? _]]; done. }
  assert (Hid : row_id r' = row_id r) by (by destruct Hmark as [->|[reason ->]]).
  split; [done|].
  destruct Hstate as [Hsettled|[_ Hleft]].
  { exfalso.
    pose proof (page_pending name 10 _ r Hnd Hr Hin) as Hp.
    unfold SqliteQueue.is_pending in Hp. apply andb_true_iff in Hp as [Hp _].
    apply Z.eqb_eq in Hp. lia. }
  destruct Hmark as [->|[reason ->]]; [left; by left|].
  simpl. destruct (Z.geb_spec (row_attempts r + 1) (row_max_attempts r)) as [Hdead|Hlive].
  { left. by right. }
  right. set (r' := SqliteQueue.set_failed reason r) in *.
  assert (Hp' : SqliteQueue.is_pending name r' = true).
  { pose proof (page_pending name 10 _ r Hnd Hr Hin) as Hp.
    unfold SqliteQueue.is_pending in *. apply andb_true_iff in Hp as [_ Hp].
    unfold r'. simpl.
    destruct (Z.geb_spec (row_attempts r + 1) (row_max_attempts r)); [lia|done]. }
  split; [|unfold r'; simpl; lia].
  apply pending_page_ahead; [lia|done..|].
  pose proof (ahead_shrinks name (row_id r') _ _ Hmono) as Hle.
  pose proof (proj1 (pending_page_ahead name 10 _ r ltac:(lia) Hnd Hr
                       (page_pending name 10 _ r Hnd Hr Hin)) Hin) as Hlt.
  rewrite Hid in Hle |- *. lia.
Qed.

(** A firing that finds a batch under way changes nothing. *)
Lemma tick_busy this w :
  SqliteQueueProvider.processing this = true ->
  SqliteQueueProvider.tick this w = (JS.Normal this, w).
Proof. intros Hbusy. unfold SqliteQueueProvider.tick. by rewrite Hbusy. Qed.

(** Over a run of firings: an entry that is settled stays so, and an entry
    of the page with [k] attempts left is settled once [k] batches have
    run. *)
Lemma firings_countdown this busy w r k :
  healthy (database w) ->
  NoDup (row_id <$> write_queue (database w)) ->
  r ∈ write_queue (database w) ->
  (row_processed r = 1 \/ row_processed r = -1)
  \/ (SqliteQueue.project r
        ∈ pending_page (SqliteQueue.name (SqliteQueueProvider.writeQueue this)) 10
            (write_queue (database w)))
     /\ (1 <= k)%nat
     /\ row_max_attempts r - row_attempts r <= Z.of_nat k ->
  (k <= length (filter (fun found_busy => found_busy = false) busy))%nat ->
  exists r',
    find_row (row_id r) (database (firings this busy w)) = Some r'
    /\ (row_processed r' = 1 \/ row_processed r' = -1).
Proof.
  revert w r k. induction busy as [|found_busy busy IH];
    intros w r k Hh Hnd Hr Hstate Hk.
  { simpl in *. destruct Hstate as [Hsettled|(_ & Hone & _)]; [|lia].
    exists r. split; [by apply find_NoDup | done]. }
  cbn [firings].
  set (this' := SqliteQueueProvider.mk _ found_busy _ _).
  destruct found_busy.
  - rewrite tick_busy by done. cbn [snd].
    rewrite filter_cons, decide_False in Hk by done.
    by apply (IH w r k).
  - rewrite filter_cons, decide_True in Hk by done. cbn [length] in Hk.
    destruct (tick_rows this' w eq_refl Hh Hnd) as (Hh' & Hnd' & _).
    destruct (tick_countdown this' w r (pred k) eq_refl Hh Hnd Hr)
      as (r' & Hr' & Hid & Hstate').
    { destruct Hstate as [Hsettled|(Hpage & Hone & Hleft)]; [by left|right].
      split; [done|]. lia. }
    rewrite <- Hid.
    apply (IH _ r' (pred k) Hh' Hnd' Hr'); [|lia].
    destruct Hstate' as [Hsettled|(Hpage & Hone & Hleft)]; [by left|right].
    split; [done|]. split; [done|]. lia.
Qed.

(** X13. On a healthy engine with distinct ids, take an entry of the first
    page of the write queue (its ten oldest pending entries) with at most
    three attempts left, and any run of firings of the timer in which each
    batch that starts runs to its end. A firing that comes while a batch is
    under way finds the flag set and is skipped; once three firings were not
    skipped, the entry is processed or dead, whatever the endpoint answered,
    and it stays so over the firings that follow. *)
Theorem three_batches_settle_the_page this busy w r :
  healthy (database w) ->
  NoDup (row_id <$> write_queue (database w)) ->
  r ∈ write_queue (database w) ->
  SqliteQueue.project r
    ∈ pending_page (SqliteQueue.name (SqliteQueueProvider.writeQueue this)) 10
        (write_queue (database w)) ->
  row_max_attempts r - row_attempts r <= 3 ->
  (3 <= length (filter (fun found_busy => found_busy = false) busy))%nat ->
  exists r',
    find_row (row_id r) (database (firings this busy w)) = Some r'
    /\ (entry_state r' = Some Processed \/ entry_state r' = Some Dead).
Proof.
  intros Hh Hnd Hr Hpage Hleft Hthree.
  destruct (firings_countdown this busy w r 3 Hh Hnd Hr) as (r' & Hfind & Hsettled);
    [|done|].
  { right. split; [done|]. split; [lia|done]. }
  exists r'. split; [done|].
  unfold entry_state. by destruct Hsettled as [-> | ->]; [left|right].
Qed.

(** ** [JSON.parse] reads back what [JSON.stringify] wrote *)

Lemma parse_chars_plain c s :
  c <> "034"%char -> c <> "\"%char -> (32 <= Text.code c)%N ->
  JS.parse_chars (String c s) None
  = match JS.parse_chars s None with
    | Some (body, r) => Some (String c body, r)
    | None => None
    end.
Proof.
  intros H1 H2 H3. cbn [JS.parse_chars].
  destruct (ascii_dec c "034"); [done|]. destruct (ascii_dec c "\"); [done|].
  destruct (N.ltb_spec (Text.code c) 32); [lia|]. done.
Qed.

Lemma parse_chars_escape k c s :
  (k, c) ∈ [("034"%char, "034"%char); ("\"%char, "\"%char);
            ("b"%char, ascii_of_N 8); ("t"%char, ascii_of_N 9);
            ("n"%char, ascii_of_N 10); ("f"%char, ascii_of_N 12);
            ("r"%char, ascii_of_N 13)] ->
  JS.parse_chars (String "\" (String k s)) None
  = match JS.parse_chars s None with
    | Some (body, r) => Some (String c body, r)
    | None => None
    end.
Proof.
  intros Hin. cbn [JS.parse_chars].
  repeat (apply elem_of_cons in Hin as [[= -> ->]|Hin]; [reflexivity|]).
  by apply elem_of_nil in Hin.
Qed.

Lemma parse_chars_control n s :
  (n < 32)%N ->
  JS.parse_chars
    (String "\" (String "u" (String "0" (String "0"
       (String (JS.hex_char (n / 16)) (String (JS.hex_char (n mod 16)) s))))))
    None
  = match JS.parse_chars s None with
    | Some (body, r) => Some (String (ascii_of_N n) body, r)
    | None => None
    end.
Proof.
  intros Hn.
  assert (n ∈ (N.of_nat <$> seq 0 32)) as Hin.
  { apply list_elem_of_fmap. exists (N.to_nat n). split; [lia|].
    apply elem_of_seq. lia. }
  cbn in Hin.
  repeat (apply elem_of_cons in Hin as [->|Hin];
          [cbn; by destruct (JS.parse_chars s None) as [[? ?]|]|]).
  by apply elem_of_nil in Hin.
Qed.

Lemma append_cons x a b : String x a +:+ b = String x (a +:+ b).
Proof. reflexivity. Qed.

Lemma append_nil b : EmptyString +:+ b = b.
Proof. reflexivity. Qed.

Lemma append_assoc a b c : (a +:+ b) +:+ c = a +:+ (b +:+ c).
Proof.
  induction a as [|x a IH]; [done|]. by rewrite !append_cons, IH.
Qed.

Lemma ascii_of_code c : ascii_of_N (Text.code c) = c.
Proof. apply ascii_N_embedding. Qed.

Lemma parse_chars_quote s rest :
  JS.parse_chars (JS.quote_chars s +:+ String "034" rest) None = Some (s, rest).
Proof.
  induction s as [|c s IH].
  { simpl. by destruct (ascii_dec "034" "034"). }
  cbn [JS.quote_chars]. cbv zeta. rewrite append_assoc.
  destruct (ascii_dec c "034") as [->|Hq].
  { rewrite ?append_cons, ?append_nil.
    rewrite (parse_chars_escape "034" "034"), IH; [done|]. by left. }
  destruct (ascii_dec c "\") as [->|Hb].
  { rewrite ?append_cons, ?append_nil.
    rewrite (parse_chars_escape "\" "\"), IH; [done|]. right. by left. }
  destruct (N.eqb_spec (Text.code c) 8) as [H8|_].
  { rewrite ?append_cons, ?append_nil. rewrite (parse_chars_escape "b" (ascii_of_N 8)), IH.
    - by rewrite <- H8, ascii_of_code.
    - do 2 right. by left. }
  destruct (N.eqb_spec (Text.code c) 9) as [H9|_].
  { rewrite ?append_cons, ?append_nil. rewrite (parse_chars_escape "t" (ascii_of_N 9)), IH.
    - by rewrite <- H9, ascii_of_code.
    - do 3 right. by left. }
  destruct (N.eqb_spec (Text.code c) 10) as [H10|_].
  { rewrite ?append_cons, ?append_nil. rewrite (parse_chars_escape "n" (ascii_of_N 10)), IH.
    - by rewrite <- H10, ascii_of_code.
    - do 4 right. by left. }
  destruct (N.eqb_spec (Text.code c) 12) as [H12|_].
  { rewrite ?append_cons, ?append_nil. rewrite (parse_chars_escape "f" (ascii_of_N 12)), IH.
    - by rewrite <- H12, ascii_of_code.
    - do 5 right. by left. }
  destruct (N.eqb_spec (Text.code c) 13) as [H13|_].
  { rewrite ?append_cons, ?append_nil. rewrite (parse_chars_escape "r" (ascii_of_N 13)), IH.
    - by rewrite <- H13, ascii_of_code.
    - do 6 right. by left. }
  destruct (N.ltb_spec (Text.code c) 32) as [Hlt|Hge].
  { rewrite ?append_cons, ?append_nil. rewrite (parse_chars_control _ _ Hlt), IH.
    by rewrite ascii_of_code. }
  rewrite ?append_cons, ?append_nil. by rewrite parse_chars_plain, IH.
Qed.

Lemma parse_string_quote s rest :
  JS.parse_string (JS.quote s +:+ rest) = Some (s, rest).
Proof.
  unfold JS.parse_string, JS.quote. rewrite append_cons. cbn [JS.eat].
  destruct (ascii_dec "034" "034"); [|done].
  rewrite append_assoc, append_cons, append_nil. apply parse_chars_quote.
Qed.

Lemma skip_ws_cons c s :
  JS.is_ws c = false -> JS.skip_ws (String c s) = String c s.
Proof. intros H. cbn [JS.skip_ws]. by rewrite H. Qed.

Lemma skip_ws_quote s rest : JS.skip_ws (JS.quote s +:+ rest) = JS.quote s +:+ rest.
Proof. reflexivity. Qed.

Lemma eat_quote c s rest :
  c <> "034"%char -> JS.eat c (JS.quote s +:+ rest) = None.
Proof.
  intros Hc. unfold JS.quote. rewrite append_cons. cbn [JS.eat].
  destruct (ascii_dec "034" c); [congruence|done].
Qed.

Lemma parse_value_quote fuel s rest :
  JS.parse_value (S fuel) (JS.quote s +:+ rest) = Some (JS.Str s, rest).
Proof.
  cbn [JS.parse_value]. rewrite skip_ws_quote.
  pose proof (parse_string_quote s rest) as Hs.
  unfold JS.quote in *. rewrite append_cons in *.
  destruct (ascii_dec "034" "{"); [done|]. destruct (ascii_dec "034" "["); [done|].
  destruct (ascii_dec "034" "034"); [|done]. by rewrite Hs.
Qed.

Lemma stringify_members_cons k v kv fields :
  JS.stringify_members ((k, v) :: kv :: fields)
  = JS.quote k +:+ ":" +:+ JS.quote v +:+ ","
    +:+ JS.stringify_members (kv :: fields).
Proof. reflexivity. Qed.

Lemma parse_members_step fuel s :
  JS.parse_members (S fuel) s
  = match JS.parse_string (JS.skip_ws s) with
    | None => None
    | Some (k, r) =>
        match JS.eat ":" (JS.skip_ws r) with
        | None => None
        | Some r1 =>
            match JS.parse_value fuel r1 with
            | None => None
            | Some (v, r2) =>
                match JS.eat "," (JS.skip_ws r2) with
                | Some r3 =>
                    match JS.parse_members fuel r3 with
                    | Some (fs, r4) => Some ((k, v) :: fs, r4)
                    | None => None
                    end
                | None =>
                    match JS.eat "}" (JS.skip_ws r2) with
                    | Some r3 => Some ([(k, v)], r3)
                    | None => None
                    end
                end
            end
        end
    end.
Proof. reflexivity. Qed.

Lemma parse_members_record fields rest fuel :
  fields <> [] -> (length fields < fuel)%nat ->
  JS.parse_members fuel (JS.stringify_members fields +:+ String "}" rest)
  = Some ((fun kv => (kv.1, JS.Str kv.2)) <$> fields, rest).
Proof.
  revert fuel. induction fields as [|[k v] fields IH]; intros fuel Hne Hfuel; [done|].
  destruct fuel as [|[|fuel]]; [simpl in Hfuel; lia..|].
  rewrite parse_members_step.
  assert (Hhead : forall tail,
    JS.parse_string (JS.skip_ws (JS.quote k +:+ ":" +:+ JS.quote v +:+ tail))
    = Some (k, String ":" (JS.quote v +:+ tail))).
  { intros tail. by rewrite skip_ws_quote, parse_string_quote. }
  destruct fields as [|kv fields].
  - cbn [JS.stringify_members]. rewrite !append_assoc, Hhead.
    rewrite skip_ws_cons by reflexivity. cbn [JS.eat].
    destruct (ascii_dec ":" ":"); [|done].
    rewrite parse_value_quote.
    rewrite skip_ws_cons by reflexivity. cbn [JS.eat].
    destruct (ascii_dec "}" ","); [done|]. by destruct (ascii_dec "}" "}").
  - rewrite stringify_members_cons, !append_assoc, Hhead.
    rewrite skip_ws_cons by reflexivity. cbn [JS.eat].
    destruct (ascii_dec ":" ":"); [|done].
    rewrite parse_value_quote.
    rewrite append_cons, append_nil.
    rewrite skip_ws_cons by reflexivity. cbn [JS.eat].
    destruct (ascii_dec "," ","); [|done].
    rewrite IH; [done|done|]. simpl in *. lia.
Qed.

Lemma JSON_parse_record fields :
  JS.JSON_parse (JS.stringify_record fields) = JS.Normal (record_value fields).
Proof.
  unfold JS.JSON_parse.
  set (text := JS.stringify_record fields).
  rewrite <- (JSON_parse_fuel text (S (2 * String.length text + 1 + length fields)))
    by lia.
  unfold text, JS.stringify_record. rewrite append_cons, append_nil.
  cbn [JS.parse_value]. rewrite skip_ws_cons by reflexivity.
  destruct (ascii_dec "{" "{"); [|done].
  destruct fields as [|kv fields].
  - cbn [JS.stringify_members]. rewrite append_nil.
    rewrite skip_ws_cons by reflexivity. cbn [JS.eat].
    by destruct (ascii_dec "}" "}").
  - assert (JS.stringify_members (kv :: fields) +:+ "}"
            = JS.quote kv.1 +:+ (":" +:+ JS.quote kv.2
                +:+ match fields with
                    | [] => ""
                    | _ => "," +:+ JS.stringify_members fields
                    end +:+ "}")) as Hshape.
    { destruct kv as [k v]. destruct fields; cbn [JS.stringify_members fst snd];
        by rewrite ?append_assoc. }
    rewrite Hshape, skip_ws_quote, eat_quote by done. rewrite <- Hshape.
    rewrite parse_members_record; [done|done|]. simpl. lia.
Qed.

(** ** Constructing the storage objects *)

Lemma constructor_healthy tableName db :
  healthy db ->
  SqliteKVStorage.constructor tableName db
  = (JS.Normal (SqliteKVStorage.mk tableName), with_table tableName db).
Proof.
  intros Hh. unfold SqliteKVStorage.constructor, Sqlite.create_table_if_not_exists, bind.
  rewrite (step_healthy _ Hh). unfold with_table.
  by destruct (tables db !! Sqlite.canonical tableName).
Qed.

Lemma with_table_healthy tableName db : healthy db -> healthy (with_table tableName db).
Proof. unfold with_table. by destruct (tables db !! Sqlite.canonical tableName). Qed.

Lemma with_table_lookup tableName db name :
  tables (with_table tableName db) !! name
  = if decide (name = Sqlite.canonical tableName)
    then Some (default ∅ (tables db !! name))
    else tables db !! name.
Proof.
  unfold with_table. destruct (decide (name = Sqlite.canonical tableName)) as [->|Hne].
  - destruct (tables db !! Sqlite.canonical tableName) eqn:Ht; simpl.
    + by rewrite Ht.
    + by rewrite lookup_insert_eq.
  - destruct (tables db !! Sqlite.canonical tableName) eqn:Ht; simpl; [done|].
    by rewrite lookup_insert_ne.
Qed.

Lemma provider_constructor_healthy db :
  healthy db ->
  SqliteStorageProvider.constructor db
  = (JS.Normal
       (SqliteStorageProvider.mk (SqliteKVStorage.mk "playlists")
          (SqliteKVStorage.mk "channels") (SqliteKVStorage.mk "playlist_items")),
     with_table "playlist_items" (with_table "channels" (with_table "playlists" db))).
Proof.
  intros Hh. unfold SqliteStorageProvider.constructor, bind.
  rewrite (constructor_healthy _ _ Hh).
  rewrite (constructor_healthy _ _ (with_table_healthy _ _ Hh)).
  by rewrite (constructor_healthy _ _ (with_table_healthy _ _ (with_table_healthy _ _ Hh))).
Qed.

(** X14. Constructing the storage provider creates the tables that are
    missing and keeps the rows of those that are there. *)
Theorem provider_constructor_keeps_rows db :
  healthy db ->
  exists db',
    SqliteStorageProvider.constructor db
    = (JS.Normal
         (SqliteStorageProvider.mk (SqliteKVStorage.mk "playlists")
            (SqliteKVStorage.mk "channels") (SqliteKVStorage.mk "playlist_items")),
       db')
    /\ healthy db'
    /\ write_queue db' = write_queue db
    /\ write_queue_seq db' = write_queue_seq db
    /\ (forall name,
          tables db' !! name
          = if decide (name ∈ ["playlists"; "channels"; "playlist_items"])
            then Some (default ∅ (tables db !! name))
            else tables db !! name)
    /\ forall this key,
         this ∈ ["playlists"; "channels"; "playlist_items"] ->
         fst (SqliteKVStorage.get (SqliteKVStorage.mk this) key None db')
         = JS.Normal (from_option JS.Str JS.Null
                        (default ∅ (tables db !! this) !! key)).
Proof.
  intros Hh. rewrite (provider_constructor_healthy _ Hh). eexists. split; [done|].
  set (db' := with_table _ _).
  assert (Hh' : healthy db') by by repeat apply with_table_healthy.
  assert (Hq : write_queue db' = write_queue db /\ write_queue_seq db' = write_queue_seq db).
  { unfold db', with_table.
    repeat match goal with
           | |- context [match ?x with _ => _ end] => destruct x
           end; done. }
  assert (Hlook : forall name,
            tables db' !! name
            = if decide (name ∈ ["playlists"; "channels"; "playlist_items"])
              then Some (default ∅ (tables db !! name))
              else tables db !! name).
  { intros name. unfold db'. rewrite !with_table_lookup.
    change (Sqlite.canonical "playlist_items") with "playlist_items".
    change (Sqlite.canonical "channels") with "channels".
    change (Sqlite.canonical "playlists") with "playlists".
    destruct (decide (name ∈ ["playlists"; "channels"; "playlist_items"])) as [Hin|Hout].
    - repeat (apply elem_of_cons in Hin as [->|Hin]);
        [..|by apply elem_of_nil in Hin];
        repeat (destruct (decide _); try done).
    - repeat rewrite not_elem_of_cons in Hout. destruct Hout as (?&?&?&_).
      repeat (destruct (decide _); try done). }
  split; [done|]. split; [apply Hq|]. split; [apply Hq|]. split; [done|].
  intros this key Hin.
  assert (Hcanon : Sqlite.canonical this = this).
  { repeat (apply elem_of_cons in Hin as [->|Hin]); [done..|by apply elem_of_nil in Hin]. }
  rewrite (get_healthy (SqliteKVStorage.mk this) key
             (default ∅ (tables db !! this)) db' Hh'); [done|].
  simpl. rewrite Hcanon, Hlook. by rewrite decide_True.
Qed.

(** ** The middleware *)

(** X15. With the environment set the middleware is [next]; without, it never
    throws: a failure of the initialization, or of [next], is answered with
    status 500 and a JSON body that reads back as the three fields. *)
Theorem middleware_answers_failures next s :
  (is_Some (Context.var_env (c s)) -> sqliteEnvMiddleware next s = next s)
  /\ (Context.var_env (c s) = None ->
      exists s',
        sqliteEnvMiddleware next s = (JS.Normal tt, s')
        /\ ((exists env s1,
               on_process (initializeSqliteEnv (Context.env (c s))) s
               = (JS.Normal env, s1)
               /\ next (with_env env s1) = (JS.Normal tt, s'))
            \/ exists error s1 reply,
                 (on_process (initializeSqliteEnv (Context.env (c s))) s
                  = (JS.Throw error, s1)
                  \/ exists env s0,
                       on_process (initializeSqliteEnv (Context.env (c s))) s
                       = (JS.Normal env, s0)
                       /\ next (with_env env s0) = (JS.Throw error, s1))
                 /\ process s' = process s1
                 /\ Context.var_env (c s') = Context.var_env (c s1)
                 /\ Context.res (c s') = Some reply
                 /\ Reply.status reply = 500
                 /\ Reply.headers reply = [("Content-Type", "application/json")]
                 /\ JS.JSON_parse (Reply.body reply)
                    = JS.Normal
                        (record_value
                           [("error", "initialization_error");
                            ("message", "Failed to initialize SQLite environment");
                            ("details", failure_details error)]))).
Proof.
  unfold sqliteEnvMiddleware. split.
  { intros [env Henv]. by rewrite Henv. }
  intros Hnone. rewrite Hnone. unfold try_catch, bind at 1.
  destruct (on_process (initializeSqliteEnv (Context.env (c s))) s)
    as [[env|error] s1] eqn:Hinit.
  - unfold bind, c_set_env. fold (with_env env s1).
    destruct (next (with_env env s1)) as [[[]|error] s2] eqn:Hnext.
    + eexists. split; [done|]. left. by exists env, s1.
    + eexists. split; [done|]. right. eexists error, s2, _.
      split; [right; by exists env, s1|].
      repeat split. apply JSON_parse_record.
  - eexists. split; [done|]. right. eexists error, s1, _.
    split; [by left|]. repeat split. apply JSON_parse_record.
Qed.

(** X16. Bindings without a path are answered with the reason, and nothing
    else happens: [next] is not run, the process is as it was. *)
Theorem middleware_missing_path next s :
  SqliteBindings.SQLITE_DB_PATH (Context.env (c s)) = None
  \/ SqliteBindings.SQLITE_DB_PATH (Context.env (c s)) = Some "" ->
  Context.var_env (c s) = None ->
  exists reply,
    sqliteEnvMiddleware next s
    = (JS.Normal tt,
       mkHandling (process s)
         (Context.mk (Context.env (c s)) None (Some reply)))
    /\ Reply.status reply = 500
    /\ JS.JSON_parse (Reply.body reply)
       = JS.Normal
           (record_value
              [("error", "initialization_error");
               ("message", "Failed to initialize SQLite environment");
               ("details",
                "Missing required SQLite configuration: SQLITE_DB_PATH")]).
Proof.
  intros Hpath Hnone. unfold sqliteEnvMiddleware. rewrite Hnone.
  unfold try_catch, bind, on_process, initializeSqliteEnv.
  destruct Hpath as [-> | ->]; simpl; eexists;
    (split; [unfold c_set_res; simpl; by rewrite Hnone|]);
    (split; [done|]); apply JSON_parse_record.
Qed.

(** ** The environment *)

Lemma initializeSqliteEnv_path bindings dbPath p :
  SqliteBindings.SQLITE_DB_PATH bindings = Some dbPath -> dbPath <> "" ->
  initializeSqliteEnv bindings p
  = (let* storage :=
       fun p =>
         match storageProvider p with
         | None =>
             (let* created := new_SqliteStorageProvider dbPath in
              set_storageProvider (Some created) ;;;
              ret created) p
         | Some storage => (JS.Normal storage, p)
         end in
     let* queue :=
       fun p =>
         match queueProvider p with
         | None =>
             (let* created :=
                new_SqliteQueueProvider
                  (StorageProviderObject.getDatabase storage) in
              set_queueProvider (Some created) ;;;
              ret created) p
         | Some queue => (JS.Normal queue, p)
         end in
     ret (Env.mk (SqliteBindings.API_SECRET bindings)
            (SqliteBindings.ED25519_PRIVATE_KEY bindings)
            (SqliteBindings.JWT_PUBLIC_KEY bindings)
            (SqliteBindings.JWT_JWKS_URL bindings)
            (SqliteBindings.JWT_ISSUER bindings)
            (SqliteBindings.JWT_AUDIENCE bindings)
            storage queue
            (SqliteBindings.ENVIRONMENT bindings)
            (SqliteBindings.SELF_HOSTED_DOMAINS bindings))) p.
Proof.
  intros Hpath Hne. unfold initializeSqliteEnv. rewrite Hpath.
  by destruct dbPath.
Qed.

Lemma on_handle_frame {A} handle (m : M Database A) p :
  same_module p (on_handle handle m p).2.
Proof.
  unfold on_handle, same_module.
  destruct (handles p !! handle) as [[db|]|]; try done.
  destruct (m db) as [r db']. simpl. by rewrite length_insert.
Qed.

Lemma logs_bind {A B} paths (m : M Process A) (k : A -> M Process B) :
  logs paths m -> (forall a, logs [] (k a)) -> logs paths (bind m k).
Proof.
  intros Hm Hk p. unfold bind. specialize (Hm p).
  destruct (m p) as [[a|e] p1]; [|done].
  rewrite (Hk a p1), app_nil_r. done.
Qed.

Lemma logs_ret {A} (a : A) : logs [] (ret a).
Proof. intros p. by rewrite app_nil_r. Qed.

Lemma logs_on_handle {A} handle (m : M Database A) : logs [] (on_handle handle m).
Proof.
  intros p. rewrite app_nil_r. by destruct (on_handle_frame handle m p) as (_ & ? & _).
Qed.

Lemma logs_new_Database path : logs [path] (new_Database path).
Proof. intros p. unfold new_Database. by destruct (openings p) as [|[db|e] rest]. Qed.

Lemma logs_set_storageProvider v : logs [] (set_storageProvider v).
Proof. intros p. by rewrite app_nil_r. Qed.

Lemma logs_set_queueProvider v : logs [] (set_queueProvider v).
Proof. intros p. by rewrite app_nil_r. Qed.

Lemma logs_new_SqliteStorageProvider dbPath :
  logs [dbPath] (new_SqliteStorageProvider dbPath).
Proof.
  unfold new_SqliteStorageProvider.
  apply logs_bind; [apply logs_new_Database|]. intros db.
  apply logs_bind; [apply logs_on_handle|]. intros _.
  apply logs_bind; [apply logs_on_handle|]. intros _.
  apply logs_bind; [apply logs_on_handle|]. intros storages. apply logs_ret.
Qed.

Lemma logs_new_SqliteQueueProvider db : logs [] (new_SqliteQueueProvider db).
Proof.
  unfold new_SqliteQueueProvider.
  apply logs_bind; [apply logs_on_handle|]. intros fields p. by rewrite app_nil_r.
Qed.

(** X17. The database is opened when there is no storage provider, at the
    path of the bindings, and only then. *)
Theorem initializeSqliteEnv_opens_once bindings p :
  (SqliteBindings.SQLITE_DB_PATH bindings = None
   \/ SqliteBindings.SQLITE_DB_PATH bindings = Some "" ->
   initializeSqliteEnv bindings p
   = (JS.Throw
        (JS.Error "Error" "Missing required SQLite configuration: SQLITE_DB_PATH"),
      p))
  /\ (forall dbPath,
        SqliteBindings.SQLITE_DB_PATH bindings = Some dbPath -> dbPath <> "" ->
        opened (initializeSqliteEnv bindings p).2
        = match storageProvider p with
          | Some _ => opened p
          | None => opened p ++ [dbPath]
          end).
Proof.
  split.
  { unfold initializeSqliteEnv. by intros [-> | ->]. }
  intros dbPath Hpath Hne. rewrite (initializeSqliteEnv_path _ _ _ Hpath Hne).
  assert (Hrest : forall storage,
    logs [] (let* queue :=
               fun p =>
                 match queueProvider p with
                 | None =>
                     (let* created :=
                        new_SqliteQueueProvider
                          (StorageProviderObject.getDatabase storage) in
                      set_queueProvider (Some created) ;;;
                      ret created) p
                 | Some queue => (JS.Normal queue, p)
                 end in
             ret (Env.mk (SqliteBindings.API_SECRET bindings)
                    (SqliteBindings.ED25519_PRIVATE_KEY bindings)
                    (SqliteBindings.JWT_PUBLIC_KEY bindings)
                    (SqliteBindings.JWT_JWKS_URL bindings)
                    (SqliteBindings.JWT_ISSUER bindings)
                    (SqliteBindings.JWT_AUDIENCE bindings)
                    storage queue
                    (SqliteBindings.ENVIRONMENT bindings)
                    (SqliteBindings.SELF_HOSTED_DOMAINS bindings)))).
  { intros storage. apply logs_bind; [|intros queue; apply logs_ret].
    intros p0. destruct (queueProvider p0) eqn:Hq.
    - by rewrite app_nil_r.
    - apply (logs_bind []); [apply logs_new_SqliteQueueProvider|].
      intros created. apply logs_bind; [apply logs_set_queueProvider|].
      intros _. apply logs_ret. }
  destruct (storageProvider p) as [storage|] eqn:Hs.
  - unfold bind at 1. rewrite Hs. by rewrite (Hrest storage p), app_nil_r.
  - unfold bind at 1. rewrite Hs.
    assert (Hfirst : logs [dbPath]
              (let* created := new_SqliteStorageProvider dbPath in
               set_storageProvider (Some created) ;;; ret created)).
    { apply logs_bind; [apply logs_new_SqliteStorageProvider|].
      intros created. apply logs_bind; [apply logs_set_storageProvider|].
      intros _. apply logs_ret. }
    specialize (Hfirst p).
    destruct ((let* created := new_SqliteStorageProvider dbPath in
               set_storageProvider (Some created) ;;; ret created) p)
      as [[storage|e] p1]; [|done].
    by rewrite (Hrest storage p1), app_nil_r.
Qed.

Lemma new_SqliteQueueProvider_frame db p :
  storageProvider (new_SqliteQueueProvider db p).2 = storageProvider p
  /\ queueProvider (new_SqliteQueueProvider db p).2 = queueProvider p
  /\ timers (new_SqliteQueueProvider db p).2 = timers p
  /\ length (handles (new_SqliteQueueProvider db p).2) = length (handles p).
Proof.
  unfold new_SqliteQueueProvider, bind.
  destruct (on_handle_frame db SqliteQueueProvider.constructor p)
    as (_ & _ & Ht & _ & Hs & Hq & Hl).
  by destruct (on_handle db SqliteQueueProvider.constructor p) as [[fields|e] p1].
Qed.

Lemma initializeSqliteEnv_success bindings p env p' :
  initializeSqliteEnv bindings p = (JS.Normal env, p') ->
  storageProvider p' = Some (Env.storageProvider env)
  /\ queueProvider p' = Some (Env.queueProvider env)
  /\ env
     = Env.mk (SqliteBindings.API_SECRET bindings)
         (SqliteBindings.ED25519_PRIVATE_KEY bindings)
         (SqliteBindings.JWT_PUBLIC_KEY bindings)
         (SqliteBindings.JWT_JWKS_URL bindings)
         (SqliteBindings.JWT_ISSUER bindings)
         (SqliteBindings.JWT_AUDIENCE bindings)
         (Env.storageProvider env) (Env.queueProvider env)
         (SqliteBindings.ENVIRONMENT bindings)
         (SqliteBindings.SELF_HOSTED_DOMAINS bindings).
Proof.
  intros Hrun.
  destruct (SqliteBindings.SQLITE_DB_PATH bindings) as [dbPath|] eqn:Hpath.
  2: { unfold initializeSqliteEnv in Hrun. by rewrite Hpath in Hrun. }
  destruct (decide (dbPath = "")) as [->|Hne].
  { unfold initializeSqliteEnv in Hrun. by rewrite Hpath in Hrun. }
  rewrite (initializeSqliteEnv_path _ _ _ Hpath Hne) in Hrun.
  unfold bind at 1 in Hrun.
  assert (exists storage p1,
    match storageProvider p with
    | None =>
        (let* created := new_SqliteStorageProvider dbPath in
         set_storageProvider (Some created) ;;; ret created) p
    | Some storage => (JS.Normal storage, p)
    end = (JS.Normal storage, p1)
    /\ storageProvider p1 = Some storage) as (storage & p1 & H1 & Hs1).
  { destruct (storageProvider p) as [storage|] eqn:Hs.
    - by exists storage, p.
    - unfold bind, set_storageProvider, ret in *.
      destruct (new_SqliteStorageProvider dbPath p) as [[created|e] p0]; [|done].
      by eexists _, _. }
  rewrite H1 in Hrun. clear H1. rename Hs1 into H1.
  unfold bind at 1 in Hrun.
  destruct (queueProvider p1) as [queue|] eqn:Hq.
  - unfold ret in Hrun. injection Hrun as <- <-. simpl. done.
  - unfold bind at 1 in Hrun.
    destruct (new_SqliteQueueProvider_frame (StorageProviderObject.getDatabase storage) p1)
      as (Hs' & _).
    destruct (new_SqliteQueueProvider (StorageProviderObject.getDatabase storage) p1)
      as [[created|e] p2]; [|done].
    unfold bind, set_queueProvider, ret in Hrun. injection Hrun as <- <-. simpl in *.
    split; [congruence|done].
Qed.

(** X18. Once it has succeeded, every further call returns the same two
    providers, whatever path its bindings name, and changes nothing. *)
Theorem initializeSqliteEnv_singleton first again p env p' :
  initializeSqliteEnv first p = (JS.Normal env, p') ->
  (exists dbPath, SqliteBindings.SQLITE_DB_PATH again = Some dbPath /\ dbPath <> "") ->
  initializeSqliteEnv again p'
  = (JS.Normal
       (Env.mk (SqliteBindings.API_SECRET again)
          (SqliteBindings.ED25519_PRIVATE_KEY again)
          (SqliteBindings.JWT_PUBLIC_KEY again)
          (SqliteBindings.JWT_JWKS_URL again)
          (SqliteBindings.JWT_ISSUER again)
          (SqliteBindings.JWT_AUDIENCE again)
          (Env.storageProvider env) (Env.queueProvider env)
          (SqliteBindings.ENVIRONMENT again)
          (SqliteBindings.SELF_HOSTED_DOMAINS again)),
     p')
  /\ getSqliteQueueProvider p' = Some (Env.queueProvider env).
Proof.
  intros Hrun (dbPath & Hpath & Hne).
  destruct (initializeSqliteEnv_success _ _ _ _ Hrun) as (Hs & Hq & _).
  split; [|done].
  rewrite (initializeSqliteEnv_path _ _ _ Hpath Hne).
  unfold bind, ret. by rewrite Hs, Hq.
Qed.

(** ** The first initialization *)

Lemma on_handle_last {A} (m : M Database A) hs db os log tm objs sp qp :
  on_handle (length hs) m (mkProcess (hs ++ [Some db]) os log tm objs sp qp)
  = ((m db).1, mkProcess (hs ++ [Some (m db).2]) os log tm objs sp qp).
Proof.
  unfold on_handle. simpl. rewrite list_lookup_middle by done.
  destruct (m db) as [r db']. simpl. f_equal. f_equal.
  rewrite insert_app_r_alt by lia. by rewrite Nat.sub_diag.
Qed.

Lemma queue_constructor_healthy db :
  healthy db ->
  SqliteQueueProvider.constructor db
  = (JS.Normal
       (SqliteQueueProvider.mk (SqliteQueue.mk "DP1_WRITE_QUEUE") false "" ""), db).
Proof.
  intros Hh. unfold SqliteQueueProvider.constructor, SqliteQueue.constructor, bind.
  rewrite (step_healthy _ Hh). by rewrite (step_healthy _ Hh).
Qed.

(** X19. The first initialization opens the path of the bindings, creates
    the three tables on what it finds there, and makes the two providers on
    that one connection. *)
Theorem initializeSqliteEnv_fresh bindings dbPath db rest p :
  SqliteBindings.SQLITE_DB_PATH bindings = Some dbPath -> dbPath <> "" ->
  storageProvider p = None -> queueProvider p = None ->
  openings p = Opens db :: rest -> healthy db ->
  let handle := length (handles p) in
  let storage :=
    StorageProviderObject.mk handle
      (SqliteStorageProvider.mk (SqliteKVStorage.mk "playlists")
         (SqliteKVStorage.mk "channels") (SqliteKVStorage.mk "playlist_items")) in
  let queue :=
    QueueProviderObject.mk
      (SqliteQueueProvider.mk (SqliteQueue.mk "DP1_WRITE_QUEUE") false "" "")
      handle None in
  initializeSqliteEnv bindings p
  = (JS.Normal
       (Env.mk (SqliteBindings.API_SECRET bindings)
          (SqliteBindings.ED25519_PRIVATE_KEY bindings)
          (SqliteBindings.JWT_PUBLIC_KEY bindings)
          (SqliteBindings.JWT_JWKS_URL bindings)
          (SqliteBindings.JWT_ISSUER bindings)
          (SqliteBindings.JWT_AUDIENCE bindings)
          storage (length (objects p))
          (SqliteBindings.ENVIRONMENT bindings)
          (SqliteBindings.SELF_HOSTED_DOMAINS bindings)),
     mkProcess
       (handles p
        ++ [Some (with_table "playlist_items"
                    (with_table "channels" (with_table "playlists" db)))])
       rest (opened p ++ [dbPath]) (timers p) (objects p ++ [queue])
       (Some storage) (Some (length (objects p)))).
Proof.
  intros Hpath Hne Hs Hq Hopen Hh handle storage queue.
  rewrite (initializeSqliteEnv_path _ _ _ Hpath Hne).
  destruct p as [hs os log tm objs sp qp]. simpl in *. subst sp qp os.
  unfold bind at 1. cbn [storageProvider].
  unfold bind at 1, new_SqliteStorageProvider, bind at 1, new_Database.
  cbn [openings handles opened timers objects storageProvider queueProvider].
  unfold bind at 1. rewrite on_handle_last, (step_healthy _ Hh). cbn [fst snd].
  unfold bind at 1. rewrite on_handle_last, (step_healthy _ Hh). cbn [fst snd].
  unfold bind at 1. rewrite on_handle_last, (provider_constructor_healthy _ Hh).
  cbn [fst snd]. unfold ret at 1, bind at 1, set_storageProvider at 1.
  cbn [openings handles opened timers objects storageProvider queueProvider].
  unfold ret at 1, bind at 1. cbn [queueProvider].
  unfold bind at 1, new_SqliteQueueProvider, bind at 1.
  cbn [StorageProviderObject.getDatabase StorageProviderObject.db].
  rewrite on_handle_last, queue_constructor_healthy
    by (by repeat apply with_table_healthy).
  cbn [fst snd]. done.
Qed.

(** ** Closing *)

(** X20. Closing stops the timer of the queue provider, closes the connection
    of the storage provider and forgets both; closing again changes
    nothing. *)
Theorem closeSqliteConnections_resets p :
  (forall queue, queueProvider p = Some queue -> is_Some (objects p !! queue)) ->
  exists p',
    closeSqliteConnections p = (JS.Normal tt, p')
    /\ storageProvider p' = None /\ queueProvider p' = None
    /\ getSqliteQueueProvider p' = None
    /\ opened p' = opened p /\ openings p' = openings p
    /\ handles p'
       = match storageProvider p with
         | Some storage =>
             match handles p !! StorageProviderObject.db storage with
             | Some _ => <[StorageProviderObject.db storage := None]> (handles p)
             | None => handles p
             end
         | None => handles p
         end
    /\ match queueProvider p with
       | Some queue =>
           exists this,
             objects p !! queue = Some this
             /\ objects p'
                = <[queue := QueueProviderObject.mk (QueueProviderObject.fields this)
                               (QueueProviderObject.db this) None]> (objects p)
             /\ Timers.issued (timers p') = Timers.issued (timers p)
             /\ Timers.active (timers p')
                = filter (fun timer =>
                            Some timer.1 <> QueueProviderObject.processingInterval this)
                    (Timers.active (timers p))
       | None => objects p' = objects p /\ timers p' = timers p
       end
    /\ closeSqliteConnections p' = (JS.Normal tt, p').
Proof.
  intros Hwf. unfold closeSqliteConnections, bind at 1.
  destruct p as [hs os log tm objs sp qp]. simpl in *.
  destruct qp as [queue|].
  - destruct (Hwf queue eq_refl) as [this Hthis].
    unfold bind at 1, on_object. cbn [objects timers]. rewrite Hthis.
    unfold QueueProviderObject.stopProcessing.
    destruct (QueueProviderObject.processingInterval this) as [handle|] eqn:Hint.
    + unfold bind, Timers.clearInterval, ret, set_queueProvider; simpl.
      destruct sp as [storage|]; simpl.
      * eexists. split; [done|]. simpl. repeat split; try done.
        exists this. repeat split; try done.
        apply list_filter_iff. intros [h ms]. simpl. split; [congruence|].
        intros Hne ->. done.
      * eexists. split; [done|]. simpl. repeat split; try done.
        exists this. repeat split; try done.
        apply list_filter_iff. intros [h ms]. simpl. split; [congruence|].
        intros Hne ->. done.
    + unfold bind, ret, set_queueProvider; simpl.
      assert (Hsame : <[queue := this]> objs
                      = <[queue := QueueProviderObject.mk
                                     (QueueProviderObject.fields this)
                                     (QueueProviderObject.db this) None]> objs).
      { destruct this. simpl in *. by subst. }
      destruct tm as [act iss]. simpl in *.
      destruct sp as [storage|]; simpl.
      * eexists. split; [done|]. simpl. repeat split; try done.
        exists this. rewrite Hint. split; [done|]. split; [exact Hsame|].
        split; [done|]. symmetry. apply filter_all_Forall, Forall_forall. done.
      * eexists. split; [done|]. simpl. repeat split; try done.
        exists this. rewrite Hint. split; [done|]. split; [exact Hsame|].
        split; [done|]. symmetry. apply filter_all_Forall, Forall_forall. done.
  - destruct sp as [storage|]; simpl.
    + eexists. split; [done|]. simpl. by repeat split.
    + eexists. split; [done|]. simpl. by repeat split.
Qed.

(** ** Starting and stopping the processor *)

(** X21. [stopProcessing] clears the timer of the last [startProcessing]
    only: after one start and a stop the timers are what they were; after two
    starts and a stop the timer of the first is still set, and a second stop
    clears nothing. *)
Theorem stopProcessing_clears_last_only this timers
    serverUrl apiSecret pollIntervalMs serverUrl' apiSecret' pollIntervalMs' :
  Forall (fun timer => (timer.1 <= Timers.issued timers)%nat)
         (Timers.active timers) ->
  let first := S (Timers.issued timers) in
  let started fields := QueueProviderObject.mk fields (QueueProviderObject.db this) None in
  (let* this1 :=
     QueueProviderObject.startProcessing this serverUrl apiSecret pollIntervalMs in
   QueueProviderObject.stopProcessing this1) timers
  = (JS.Normal
       (started (SqliteQueueProvider.startProcessing
                   (QueueProviderObject.fields this) serverUrl apiSecret)),
     Timers.mk (Timers.active timers) first)
  /\ (let* this1 :=
        QueueProviderObject.startProcessing this serverUrl apiSecret pollIntervalMs in
      let* this2 :=
        QueueProviderObject.startProcessing this1 serverUrl' apiSecret'
          pollIntervalMs' in
      let* this3 := QueueProviderObject.stopProcessing this2 in
      QueueProviderObject.stopProcessing this3) timers
     = (JS.Normal
          (started (SqliteQueueProvider.startProcessing
                      (SqliteQueueProvider.startProcessing
                         (QueueProviderObject.fields this) serverUrl apiSecret)
                      serverUrl' apiSecret')),
        Timers.mk
          (Timers.active timers ++ [(first, default 1000 pollIntervalMs)])
          (S first)).
Proof.
  intros Hissued first started.
  assert (Hold : forall handle,
            (Timers.issued timers < handle)%nat ->
            filter (fun timer : nat * Z => timer.1 <> handle) (Timers.active timers)
            = Timers.active timers).
  { intros handle Hlt. apply filter_all_Forall.
    eapply Forall_impl; [exact Hissued|]. simpl. intros timer Hle. lia. }
  split.
  - unfold bind, QueueProviderObject.startProcessing, QueueProviderObject.stopProcessing,
      bind, Timers.setInterval, Timers.clearInterval, ret. simpl.
    rewrite filter_app, Hold by lia. rewrite filter_cons, filter_nil. simpl.
    rewrite decide_False by (intros H; by apply H). by rewrite app_nil_r.
  - unfold bind, QueueProviderObject.startProcessing, QueueProviderObject.stopProcessing,
      bind, Timers.setInterval, Timers.clearInterval, ret. simpl.
    rewrite !filter_app, Hold by lia. rewrite !filter_cons, filter_nil. simpl.
    rewrite decide_True by (unfold first; lia).
    rewrite decide_False by (intros H; by apply H). by rewrite app_nil_r.
Qed.

(** ** Reading JSON back *)

Lemma append_nil_r s : s +:+ EmptyString = s.
Proof. induction s as [|c s IH]; [done|]. by rewrite append_cons, IH. Qed.

Lemma JSON_parse_quote s : JS.JSON_parse (JS.quote s) = JS.Normal (JS.Str s).
Proof.
  unfold JS.JSON_parse.
  set (text := JS.quote s).
  rewrite <- (JSON_parse_fuel text (S (2 * String.length text))) by lia.
  pose proof (parse_value_quote (2 * String.length text) s EmptyString) as Hs.
  rewrite append_nil_r in Hs. unfold text in *. by rewrite Hs.
Qed.

(** X22. A value stored as the JSON text of a string, or of an object of
    strings, is read back as that value with [type: 'json'], and as the text
    without; a text that is not JSON makes the read throw, and leaves the
    row. *)
Theorem get_json_reads_back this key text options db rows :
  healthy db ->
  tables db !! Sqlite.canonical (SqliteKVStorage.tableName this) = Some rows ->
  let db' := snd (SqliteKVStorage.put this key text db) in
  SqliteKVStorage.get this key options db'
  = (if SqliteKVStorage.type_is_json options then JS.JSON_parse text
     else JS.Normal (JS.Str text), db')
  /\ (forall s, text = JS.quote s ->
        SqliteKVStorage.get this key (Some (KVGetOptions.mk (Some "json"))) db'
        = (JS.Normal (JS.Str s), db'))
  /\ (forall fields, text = JS.stringify_record fields ->
        SqliteKVStorage.get this key (Some (KVGetOptions.mk (Some "json"))) db'
        = (JS.Normal (record_value fields), db')).
Proof.
  intros Hh Ht db'. subst db'. rewrite (put_healthy _ _ _ _ _ Hh Ht). simpl.
  set (db' := set_tables _ db).
  assert (Hh' : healthy db') by done.
  assert (Ht' : tables db' !! Sqlite.canonical (SqliteKVStorage.tableName this)
                = Some (<[key := text]> rows)) by apply lookup_insert_eq.
  assert (Hget : forall options,
            SqliteKVStorage.get this key options db'
            = (if SqliteKVStorage.type_is_json options then JS.JSON_parse text
               else JS.Normal (JS.Str text), db')).
  { intros o. rewrite (get_by_type _ _ _ _ _ Hh' Ht'). by rewrite lookup_insert_eq. }
  split; [apply Hget|]. split.
  - intros s ->. rewrite Hget. change (SqliteKVStorage.type_is_json _) with true.
    cbv iota. by rewrite JSON_parse_quote.
  - intros fields ->. rewrite Hget. change (SqliteKVStorage.type_is_json _) with true.
    cbv iota. by rewrite JSON_parse_record.
Qed.

(** ** The tests of the repository, replayed on the model *)

(** storage/sqlite-kv.test.ts, [describe('list')]: six keys are put; [list]
    without options returns them all and is complete; the prefix [test-]
    selects three; a limit of 2 gives a page that is not complete and has a
    cursor; three pages of 3 cover the six keys without overlap and the
    third is empty and complete. *)
Example kv_list_tests :
  let storage := SqliteKVStorage.mk "test_table" in
  let db :=
    snd ((SqliteKVStorage.constructor "test_table" ;;;
          SqliteKVStorage.put storage "apple" "value1" ;;;
          SqliteKVStorage.put storage "banana" "value2" ;;;
          SqliteKVStorage.put storage "cherry" "value3" ;;;
          SqliteKVStorage.put storage "test-1" "value4" ;;;
          SqliteKVStorage.put storage "test-2" "value5" ;;;
          SqliteKVStorage.put storage "test-3" "value6") Examples.empty) in
  let list options := fst (SqliteKVStorage.list storage options db) in
  list None
  = JS.Normal (KVListResult.mk
                 ["apple"; "banana"; "cherry"; "test-1"; "test-2"; "test-3"]
                 true None)
  /\ list (Some (KVListOptions.mk (Some "test-") None None))
     = JS.Normal (KVListResult.mk ["test-1"; "test-2"; "test-3"] true None)
  /\ list (Some (KVListOptions.mk None (Some 2) None))
     = JS.Normal (KVListResult.mk ["apple"; "banana"] false (Some "banana"))
  /\ list (Some (KVListOptions.mk None (Some 3) None))
     = JS.Normal (KVListResult.mk ["apple"; "banana"; "cherry"] false
                    (Some "cherry"))
  /\ list (Some (KVListOptions.mk None (Some 3) (Some "cherry")))
     = JS.Normal (KVListResult.mk ["test-1"; "test-2"; "test-3"] false
                    (Some "test-3"))
  /\ list (Some (KVListOptions.mk None (Some 3) (Some "test-3")))
     = JS.Normal (KVListResult.mk [] true None)
  /\ list (Some (KVListOptions.mk (Some "test-") (Some 2) (Some "test-2")))
     = JS.Normal (KVListResult.mk ["test-3"] true None)
  /\ list (Some (KVListOptions.mk (Some "nonexistent-") None None))
     = JS.Normal (KVListResult.mk [] true None).
Proof. vm_compute. by repeat split. Qed.

(** storage/sqlite-kv.test.ts, the batches: a batch of three is stored and
    read back; with the table dropped, a batch of two returns its two keys,
    for [putMultiple] and for [deleteMultiple]. *)
Example kv_batch_tests :
  let storage := SqliteKVStorage.mk "test_table" in
  let created := snd (SqliteKVStorage.constructor "test_table" Examples.empty) in
  let entries := [("key1", "value1"); ("key2", "value2"); ("key3", "value3")] in
  let stored := SqliteKVStorage.putMultiple storage entries created in
  fst stored = JS.Normal []
  /\ fst (SqliteKVStorage.get storage "key2" None (snd stored))
     = JS.Normal (JS.Str "value2")
  /\ fst (SqliteKVStorage.deleteMultiple storage ["key1"; "non-existent"]
            (snd stored)) = JS.Normal []
  /\ fst (SqliteKVStorage.putMultiple storage
            [("key1", "value1"); ("key2", "value2")] Examples.dropped)
     = JS.Normal ["key1"; "key2"]
  /\ fst (SqliteKVStorage.deleteMultiple storage ["key1"; "key2"]
            Examples.dropped)
     = JS.Normal ["key1"; "key2"].
Proof. vm_compute. by repeat split. Qed.

(** queue/sqlite-queue.test.ts, [describe('SqliteQueue')]: of the five
    entries of the write queue in [Examples.queued] one is acknowledged, so
    the default fetch returns three of this queue in order of id and a limit
    of 2 the first two; three failures make a dead letter with
    [processed = -1] and [attempts = 3]. *)
Example queue_tests :
  let q := Examples.queue in
  fst (SqliteQueue.fetchPending q None Examples.queued)
  = JS.Normal [PendingRow.mk 1 "m1" 0; PendingRow.mk 3 "m3" 1;
               PendingRow.mk 5 "m5" 0]
  /\ fst (SqliteQueue.fetchPending q (Some 2) Examples.queued)
     = JS.Normal [PendingRow.mk 1 "m1" 0; PendingRow.mk 3 "m3" 1]
  /\ fst (SqliteQueue.fetchPending (SqliteQueue.mk "other") None Examples.queued)
     = JS.Normal [PendingRow.mk 4 "m4" 0]
  /\ let dead :=
       snd ((SqliteQueue.markFailed q 1 "Error 1" ;;;
             SqliteQueue.markFailed q 1 "Error 2" ;;;
             SqliteQueue.markFailed q 1 "Error 3") Examples.queued) in
     find_row 1 dead
     = Some (mkRow 1 "DP1_WRITE_QUEUE" "m1" 1700000000000 (-1) 3 3
               (Some "Error 3"))
     /\ fst (SqliteQueue.fetchPending q None dead)
        = JS.Normal [PendingRow.mk 3 "m3" 1; PendingRow.mk 5 "m5" 0].
Proof. vm_compute. by repeat split. Qed.

(** queue/sqlite-queue.test.ts, [describe('startProcessing')]: one valid
    message is enqueued and one poll is made, against an endpoint that
    answers success, HTTP 500, [success: false], or not at all. *)
Example processor_tests :
  let q := Examples.queue in
  let provider :=
    SqliteQueueProvider.startProcessing
      (SqliteQueueProvider.mk q false "" "") "http://localhost:8787"
      "test-secret" in
  let poll answers :=
    snd ((on_database (SqliteQueue.send q Examples.valid) ;;;
          SqliteQueueProvider.tick provider)
           (mkWorld Examples.empty answers [])) in
  let row w := find_row 1 (database w) in
  let after_success :=
    poll [Resolves (Response.mk true 200 Examples.success_true)] in
  (row_processed <$> row after_success) = Some 1
  /\ requests after_success
     = [Request.mk "http://localhost:8787/queues/process-message" "POST"
          [("Content-Type", "application/json");
           ("Authorization", "Bearer test-secret")] Examples.valid]
  /\ (let w := poll [Resolves (Response.mk false 500 "Internal Server Error")] in
      (row_attempts <$> row w) = Some 1
      /\ (row_processed <$> row w) = Some 0
      /\ (row_last_error <$> row w)
         = Some (Some "HTTP 500: Internal Server Error"))
  /\ (let w := poll [Resolves (Response.mk true 200 Examples.success_false)] in
      (row_last_error <$> row w)
      = Some (Some "Processing returned success=false"))
  /\ (let w := poll [Rejects (JS.Error "Error" "Network error")] in
      (row_last_error <$> row w) = Some (Some "Network error")).
Proof. vm_compute. by repeat split. Qed.

(** ** The theorems at work on concrete databases *)

Lemma fetchPending_peek_witness :
  0 <= default 10 (Some 2)
  /\ let '(c, db') :=
       SqliteQueue.fetchPending Examples.queue (Some 2) Examples.queued in
     same_data Examples.queued db'
     /\ (healthy Examples.queued ->
         db' = Examples.queued /\ exists res, c = JS.Normal res)
     /\ forall res, c = JS.Normal res ->
          Z.of_nat (length res) <= default 10 (Some 2)
          /\ (forall e, e ∈ res ->
                exists r, r ∈ write_queue Examples.queued
                          /\ SqliteQueue.project r = e
                          /\ entry_state r = Some Pending
                          /\ row_queue_name r = SqliteQueue.name Examples.queue)
          /\ StronglySorted Z.le (PendingRow.id <$> res).
Proof.
  split; [simpl; lia|].
  apply (fetchPending_peek Examples.queue (Some 2) Examples.queued).
  simpl; lia.
Defined.


(** C2 as it is stated does not hold: [markFailed] takes a Processed entry
    back to Pending, and [markProcessed] takes a Dead entry to Processed. *)
Lemma terminal_states_are_left :
  let q := Examples.queue in
  let sent := snd (SqliteQueue.send q "m" Examples.empty) in
  let processed := snd (SqliteQueue.markProcessed q 1 sent) in
  let back := snd (SqliteQueue.markFailed q 1 "late failure" processed) in
  let dead :=
    snd ((SqliteQueue.markFailed q 1 "e1" ;;;
          SqliteQueue.markFailed q 1 "e2" ;;;
          SqliteQueue.markFailed q 1 "e3") sent) in
  let revived := snd (SqliteQueue.markProcessed q 1 dead) in
  (entry_state <$> find_row 1 processed) = Some (Some Processed)
  /\ (entry_state <$> find_row 1 back) = Some (Some Pending)
  /\ fst (SqliteQueue.fetchPending q None back)
     = JS.Normal [PendingRow.mk 1 "m" 1]
  /\ (entry_state <$> find_row 1 dead) = Some (Some Dead)
  /\ (entry_state <$> find_row 1 revived) = Some (Some Processed).
Proof. vm_compute. by repeat split. Qed.

Lemma entry_transitions_witness :
  let r := mkRow 1 "DP1_WRITE_QUEUE" "m1" 1700000000000 0 0 3 None in
  let calls := [MarkFailed Examples.queue 1 "e1"; MarkProcessed Examples.queue 1] in
  let c := MarkFailed Examples.queue 1 "e2" in
  find_row 1 Examples.queued = Some r
  /\ exists r1 r2,
       find_row 1 (snd (for_of calls queue_call Examples.queued)) = Some r1
       /\ find_row 1 (snd (queue_call c (snd (for_of calls queue_call Examples.queued))))
          = Some r2
       /\ row_attempts r <= row_attempts r1 <= row_attempts r2.
Proof.
  intros r calls c.
  assert (find_row 1 Examples.queued = Some r) as Hr by reflexivity.
  split; [exact Hr|].
  destruct (entry_transitions calls c Examples.queued 1 r Hr)
    as (r1 & r2 & H1 & H2 & Hle & _).
  exists r1, r2. split; [exact H1|]. split; [exact H2 | exact Hle].
Defined.

(** C3 as it is stated does not hold: a Pending entry is not returned while
    a page of older pending entries is ahead of it. Of eleven entries that
    were sent, the last was failed twice: it is Pending with 2 attempts, and
    [fetchPending()] returns the ten before it. *)
Lemma pending_entry_beyond_the_page :
  let q := Examples.queue in
  let db :=
    snd ((for_of (replicate 11 "m") (SqliteQueue.send q) ;;;
          SqliteQueue.markFailed q 11 "e1" ;;;
          SqliteQueue.markFailed q 11 "e2") Examples.empty) in
  (exists r,
     find_row 11 db = Some r
     /\ row_queue_name r = SqliteQueue.name q
     /\ entry_state r = Some Pending
     /\ row_attempts r = 2)
  /\ exists page,
       SqliteQueue.fetchPending q None db = (JS.Normal page, db)
       /\ PendingRow.id <$> page = [1; 2; 3; 4; 5; 6; 7; 8; 9; 10]
       /\ 11 ∉ PendingRow.id <$> page.
Proof.
  intros q db. split.
  - eexists. split; [vm_compute; reflexivity|]. by repeat split.
  - eexists. split; [vm_compute; reflexivity|]. split; [reflexivity|].
    intros H. simpl in H.
    repeat (apply elem_of_cons in H as [H|H]; [discriminate|]).
    by apply elem_of_nil in H.
Qed.

Lemma markFailed_retry_witness :
  healthy Examples.queued /\ queue_wf Examples.queued
  /\ (exists db' r',
        SqliteQueue.markFailed Examples.queue 3 "HTTP 500: down" Examples.queued
        = (JS.Normal tt, db')
        /\ find_row 3 db' = Some r'
        /\ row_attempts r' = 2
        /\ entry_state r' = Some Pending)
  /\ forall calls q limit page,
       let failed3 :=
         snd ((SqliteQueue.send Examples.queue "m6" ;;;
               SqliteQueue.markFailed Examples.queue 6 "e1" ;;;
               SqliteQueue.markFailed Examples.queue 6 "e2" ;;;
               SqliteQueue.markFailed Examples.queue 6 "e3") Examples.queued) in
       fst (SqliteQueue.fetchPending q limit
              (snd (for_of calls queue_call failed3))) = JS.Normal page ->
       6 ∉ PendingRow.id <$> page.
Proof.
  assert (healthy Examples.queued) as Hh by reflexivity.
  assert (queue_wf Examples.queued) as Hwf.
  { unfold queue_wf. vm_compute. repeat constructor; discriminate. }
  split; [exact Hh|]. split; [exact Hwf|].
  destruct (markFailed_retry Examples.queued Hh Hwf) as [Hone Hthree].
  split.
  - destruct (Hone Examples.queue 3 "HTTP 500: down"
                (mkRow 3 "DP1_WRITE_QUEUE" "m3" 1700000000000 0 1 3
                   (Some "HTTP 500: down")) eq_refl eq_refl)
      as (db' & r' & Hrun & Hfind & Hatt & _ & _ & _ & Hpending).
    exists db', r'. split; [exact Hrun|]. split; [exact Hfind|].
    split; [exact Hatt|]. apply Hpending. rewrite Hatt. reflexivity.
  - intros calls q limit page.
    destruct (Hthree Examples.queue "m6" "e1" "e2" "e3") as (_ & _ & _ & _ & Hnever).
    exact (Hnever calls q limit page).
Defined.

Lemma get_most_recent_put_witness :
  let calls :=
    [Put "playlists" "k" "v1"; Put "channels" "k" "v2";
     Delete "channels" "k"; Put "playlists" "j" "v3"] in
  healthy Examples.storage
  /\ Forall (fun c => is_Some (tables Examples.storage
                                 !! Sqlite.canonical (kv_namespace c))) calls
  /\ is_Some (tables Examples.storage !! Sqlite.canonical "playlists")
  /\ exists db',
       for_of calls kv_call Examples.storage = (JS.Normal tt, db')
       /\ fst (SqliteKVStorage.get (SqliteKVStorage.mk "playlists") "k" None db')
          = JS.Normal (JS.Str "v1")
       /\ fst (SqliteKVStorage.get (SqliteKVStorage.mk "channels") "k" None db')
          = JS.Normal JS.Null
       /\ fst (SqliteKVStorage.get (SqliteKVStorage.mk "channels") "b" None db')
          = JS.Normal JS.Null.
Proof.
  intros calls.
  assert (healthy Examples.storage) as Hh by reflexivity.
  assert (forall ns, ns = "playlists" \/ ns = "channels" ->
            is_Some (tables Examples.storage !! Sqlite.canonical ns)) as Hns.
  { intros ns [-> | ->]; eexists; vm_compute; reflexivity. }
  assert (Forall (fun c => is_Some (tables Examples.storage
                                      !! Sqlite.canonical (kv_namespace c))) calls)
    as Hcalls.
  { unfold calls.
    do 4 (constructor; [cbn [kv_namespace]; apply Hns; auto|]). constructor. }
  split; [exact Hh|]. split; [exact Hcalls|]. split; [apply Hns; auto|].
  destruct (get_most_recent_put calls Examples.storage "playlists" "k"
              {[ "a" := "1"; "b" := "2" ]} Hh Hcalls)
    as (db' & Hrun & Hget); [vm_compute; reflexivity|].
  destruct (get_most_recent_put calls Examples.storage "channels" "k"
              {[ "a" := "3" ]} Hh Hcalls)
    as (db'' & Hrun' & Hget'); [vm_compute; reflexivity|].
  destruct (get_most_recent_put calls Examples.storage "channels" "b"
              {[ "a" := "3" ]} Hh Hcalls)
    as (db3 & Hrun3 & Hget3); [vm_compute; reflexivity|].
  exists db'. split; [exact Hrun|]. split; [exact Hget|].
  rewrite Hrun in Hrun', Hrun3.
  injection Hrun' as <-. injection Hrun3 as <-.
  split; [exact Hget' | exact Hget3].
Defined.

Lemma list_limit_zero_witness :
  let this := SqliteKVStorage.mk "playlists" in
  healthy Examples.storage
  /\ tables Examples.storage !! Sqlite.canonical (SqliteKVStorage.tableName this)
     = Some {[ "a" := "1"; "b" := "2" ]}
  /\ exists page,
       SqliteKVStorage.list this
         (Some (KVListOptions.mk (Some "") (Some 0) None)) Examples.storage
       = (JS.Normal page, Examples.storage)
       /\ KVListResult.keys page = ["a"; "b"].
Proof.
  intros this.
  assert (healthy Examples.storage) as Hh by reflexivity.
  assert (tables Examples.storage
            !! Sqlite.canonical (SqliteKVStorage.tableName this)
          = Some {[ "a" := "1"; "b" := "2" ]}) as Ht by (vm_compute; reflexivity).
  split; [exact Hh|]. split; [exact Ht|].
  destruct (list_limit_zero this Examples.storage _ Hh Ht)
    as (_ & _ & page & Hrun & Hkeys & _).
  exists page. split; [exact Hrun|]. rewrite Hkeys. vm_compute. reflexivity.
Defined.

Lemma multiple_of_one_throws_witness :
  let this := SqliteKVStorage.mk "test_table" in
  tables Examples.dropped !! Sqlite.canonical (SqliteKVStorage.tableName this)
  = None
  /\ (exists e, fst (SqliteKVStorage.putMultiple this [("key1", "value1")]
                       Examples.dropped) = JS.Throw e)
  /\ (exists e, fst (SqliteKVStorage.deleteMultiple this ["key1"]
                       Examples.dropped) = JS.Throw e)
  /\ fst (SqliteKVStorage.putMultiple this
            [("key1", "value1"); ("key2", "value2")] Examples.dropped)
     = JS.Normal ["key1"; "key2"]
  /\ fst (SqliteKVStorage.deleteMultiple this ["key1"; "key2"] Examples.dropped)
     = JS.Normal ["key1"; "key2"].
Proof.
  intros this.
  assert (tables Examples.dropped
            !! Sqlite.canonical (SqliteKVStorage.tableName this) = None)
    as Hgone by (vm_compute; reflexivity).
  split; [exact Hgone|].
  destruct (multiple_of_one_throws this "key1" "value1" Examples.dropped Hgone)
    as (Hput & Hdel & Hput2 & Hdel2).
  split; [exact Hput|]. split; [exact Hdel|].
  split; [exact (Hput2 "key2" "value2") | exact (Hdel2 "key2")].
Defined.


(** ** The further theorems at work on concrete databases and processes *)

Ltac in_list :=
  solve [repeat (apply elem_of_cons; first [left; reflexivity | right])].

Ltac not_in_list H :=
  repeat (apply elem_of_cons in H as [H|H]; [discriminate|]);
  by apply elem_of_nil in H.

Lemma getMultiple_agrees_with_get_witness :
  let this := SqliteKVStorage.mk "playlists" in
  Z.of_nat (length ["a"; "zz"]) <= Sqlite.max_variable_number
  /\ healthy Examples.storage
  /\ tables Examples.storage !! Sqlite.canonical (SqliteKVStorage.tableName this)
     = Some {[ "a" := "1"; "b" := "2" ]}
  /\ exists resultMap,
       SqliteKVStorage.getMultiple this ["a"; "zz"] None Examples.storage
       = (JS.Normal resultMap, Examples.storage)
       /\ JSMap.has "a" resultMap = true
       /\ JSMap.has "zz" resultMap = false
       /\ JSMap.get "b" resultMap = None.
Proof.
  intros this.
  assert (Z.of_nat (length ["a"; "zz"]) <= Sqlite.max_variable_number) as Hlen
    by (vm_compute; discriminate).
  assert (healthy Examples.storage) as Hh by reflexivity.
  assert (tables Examples.storage
            !! Sqlite.canonical (SqliteKVStorage.tableName this)
          = Some {[ "a" := "1"; "b" := "2" ]}) as Ht by (vm_compute; reflexivity).
  split; [exact Hlen|]. split; [exact Hh|]. split; [exact Ht|].
  assert (exists resultMap,
            fst (SqliteKVStorage.getMultiple this ["a"; "zz"] None Examples.storage)
            = JS.Normal resultMap) as [resultMap Hnormal]
    by (eexists; vm_compute; reflexivity).
  destruct (getMultiple_agrees_with_get this ["a"; "zz"] None _ _ Hlen Hh Ht)
    as (c & Hrun & Hc).
  rewrite Hrun in Hnormal. simpl in Hnormal. subst c.
  destruct Hc as (Hin & Hout & _).
  exists resultMap. split; [exact Hrun|].
  destruct (Hin "a") as [Ha _]; [in_list|].
  destruct (Hin "zz") as [Hzz _]; [in_list|].
  split; [rewrite Ha; vm_compute; reflexivity|].
  split; [rewrite Hzz; vm_compute; reflexivity|].
  apply Hout. intros Hb. not_in_list Hb.
Defined.

Lemma putMultiple_all_or_nothing_witness :
  let this := SqliteKVStorage.mk "playlists" in
  let entries := [("a", "9"); ("c", "3")] in
  (2 <= length entries)%nat
  /\ exists db',
       SqliteKVStorage.putMultiple this entries Examples.storage
       = (JS.Normal [], db')
       /\ healthy db'
       /\ table_updated "playlists" (put_all entries) Examples.storage db'.
Proof.
  intros this entries.
  assert (2 <= length entries)%nat as Hlen by (simpl; lia).
  split; [exact Hlen|].
  destruct (putMultiple_all_or_nothing this entries Examples.storage Hlen)
    as (failed & db' & Hrun & Hcases & Hhealthy & _).
  destruct Hhealthy as [-> Hh']; [reflexivity | eexists; vm_compute; reflexivity |].
  exists db'. split; [exact Hrun|]. split; [exact Hh'|].
  destruct Hcases as [(_ & _ & Hup)|[Hf _]]; [exact Hup | discriminate Hf].
Defined.

Lemma deleteMultiple_all_or_nothing_witness :
  let this := SqliteKVStorage.mk "playlists" in
  let keys := ["a"; "zz"] in
  (2 <= length keys)%nat
  /\ exists db',
       SqliteKVStorage.deleteMultiple this keys Examples.storage
       = (JS.Normal [], db')
       /\ healthy db'
       /\ table_updated "playlists" (delete_all keys) Examples.storage db'.
Proof.
  intros this keys.
  assert (2 <= length keys)%nat as Hlen by (simpl; lia).
  split; [exact Hlen|].
  destruct (deleteMultiple_all_or_nothing this keys Examples.storage Hlen)
    as (failed & db' & Hrun & Hcases & Hhealthy & _).
  destruct Hhealthy as [-> Hh']; [reflexivity | eexists; vm_compute; reflexivity |].
  exists db'. split; [exact Hrun|]. split; [exact Hh'|].
  destruct Hcases as [(_ & _ & Hup)|[Hf _]]; [exact Hup | discriminate Hf].
Defined.

Lemma list_complete_sound_witness :
  let this := SqliteKVStorage.mk "playlists" in
  let options := Some (KVListOptions.mk None (Some 1) None) in
  healthy Examples.storage
  /\ tables Examples.storage !! Sqlite.canonical (SqliteKVStorage.tableName this)
     = Some {[ "a" := "1"; "b" := "2" ]}
  /\ exists page,
       SqliteKVStorage.list this options Examples.storage
       = (JS.Normal page, Examples.storage)
       /\ KVListResult.list_complete page = false
       /\ Z.of_nat (length (KVListResult.keys page)) = 1
       /\ KVListResult.cursor page = last (KVListResult.keys page).
Proof.
  intros this options.
  assert (healthy Examples.storage) as Hh by reflexivity.
  assert (tables Examples.storage
            !! Sqlite.canonical (SqliteKVStorage.tableName this)
          = Some {[ "a" := "1"; "b" := "2" ]}) as Ht by (vm_compute; reflexivity).
  split; [exact Hh|]. split; [exact Ht|].
  destruct (list_complete_sound this options _ _ Hh Ht)
    as (page & Hrun & _ & _ & Hmore).
  assert (KVListResult.list_complete page = false) as Hpartial.
  { assert (fst (SqliteKVStorage.list this options Examples.storage)
            = JS.Normal (KVListResult.mk ["a"] false (Some "a"))) as Hpage
      by (vm_compute; reflexivity).
    rewrite Hrun in Hpage. simpl in Hpage. by injection Hpage as ->. }
  exists page. split; [exact Hrun|]. split; [exact Hpartial|].
  destruct (Hmore Hpartial) as (Hlen & Hcursor & _).
  split; [exact Hlen | exact Hcursor].
Defined.

Lemma paginate_collects_every_key_witness :
  let this := SqliteKVStorage.mk "playlists" in
  let rows : gmap string string := {[ "a" := "1"; "b" := "2" ]} in
  healthy Examples.storage
  /\ tables Examples.storage !! Sqlite.canonical (SqliteKVStorage.tableName this)
     = Some rows
  /\ 0 < 1
  /\ ("" ∉ listing rows None)
  /\ (length (listing rows None) < 3)%nat
  /\ exists pages,
       paginate 3 this None (Some 1) None Examples.storage
       = (JS.Normal (Some pages), Examples.storage)
       /\ NoDup (concat pages)
       /\ "a" ∈ concat pages /\ "b" ∈ concat pages.
Proof.
  intros this rows.
  assert (healthy Examples.storage) as Hh by reflexivity.
  assert (tables Examples.storage
            !! Sqlite.canonical (SqliteKVStorage.tableName this)
          = Some rows) as Ht by (vm_compute; reflexivity).
  assert (listing rows None = ["a"; "b"]) as Hlisting by (vm_compute; reflexivity).
  assert ("" ∉ listing rows None) as Hempty.
  { rewrite Hlisting. intros H. not_in_list H. }
  assert (length (listing rows None) < 3)%nat as Hfuel
    by (rewrite Hlisting; simpl; lia).
  split; [exact Hh|]. split; [exact Ht|]. split; [lia|].
  split; [exact Hempty|]. split; [exact Hfuel|].
  destruct (paginate_collects_every_key this None 1 _ rows 3 Hh Ht
              ltac:(lia) Hempty Hfuel)
    as (pages & Hrun & Hnodup & _ & _ & Hkeys).
  exists pages. split; [exact Hrun|]. split; [exact Hnodup|].
  split; apply Hkeys; (split; [eexists|]; vm_compute; reflexivity).
Defined.


Lemma entry_counts_failures_witness :
  let r := mkRow 3 "DP1_WRITE_QUEUE" "m3" 1700000000000 0 1 3
             (Some "HTTP 500: down") in
  let calls :=
    [MarkFailed Examples.queue 3 "Network error";
     Send Examples.queue "m6";
     MarkFailed (SqliteQueue.mk "other") 3 "Unknown error";
     MarkProcessed Examples.queue 1] in
  healthy Examples.queued
  /\ find_row 3 Examples.queued = Some r
  /\ exists r',
       find_row 3 (snd (for_of calls queue_call Examples.queued)) = Some r'
       /\ row_message r' = "m3"
       /\ row_attempts r' = 3
       /\ row_last_error r' = Some "Unknown error".
Proof.
  intros r calls.
  assert (healthy Examples.queued) as Hh by reflexivity.
  assert (find_row 3 Examples.queued = Some r) as Hfind by (vm_compute; reflexivity).
  split; [exact Hh|]. split; [exact Hfind|].
  destruct (entry_counts_failures calls _ 3 r Hh Hfind)
    as (r' & Hfind' & _ & _ & Hmessage & _ & _ & Hattempts & Herror).
  exists r'. split; [exact Hfind'|]. split; [exact Hmessage|].
  split; [exact Hattempts | exact Herror].
Defined.

Lemma mark_unknown_id_witness :
  healthy Examples.queued
  /\ find_row 99 Examples.queued = None
  /\ SqliteQueue.markProcessed Examples.queue 99 Examples.queued
     = (JS.Normal tt, Examples.queued)
  /\ SqliteQueue.markFailed Examples.queue 99 "Network error" Examples.queued
     = (JS.Normal tt, Examples.queued).
Proof.
  assert (healthy Examples.queued) as Hh by reflexivity.
  assert (find_row 99 Examples.queued = None) as Hfind by (vm_compute; reflexivity).
  split; [exact Hh|]. split; [exact Hfind|].
  exact (mark_unknown_id Examples.queue 99 "Network error" _ Hh Hfind).
Defined.

Lemma send_fifo_witness :
  healthy Examples.queued
  /\ queue_wf Examples.queued
  /\ NoDup (row_id <$> write_queue Examples.queued)
  /\ fst (SqliteQueue.fetchPending Examples.queue None
            (snd (for_of ["m6"; "m7"] (SqliteQueue.send Examples.queue)
                    Examples.queued)))
     = JS.Normal
         [PendingRow.mk 1 "m1" 0; PendingRow.mk 3 "m3" 1; PendingRow.mk 5 "m5" 0;
          PendingRow.mk 6 "m6" 0; PendingRow.mk 7 "m7" 0].
Proof.
  assert (healthy Examples.queued) as Hh by reflexivity.
  assert (queue_wf Examples.queued) as Hwf.
  { unfold queue_wf.
    assert (write_queue_seq Examples.queued = 5) as -> by (vm_compute; reflexivity).
    repeat (constructor; [simpl; split; [lia | reflexivity]|]). constructor. }
  assert (NoDup (row_id <$> write_queue Examples.queued)) as Hnodup.
  { assert (row_id <$> write_queue Examples.queued = [1; 2; 3; 4; 5]) as ->
      by (vm_compute; reflexivity).
    repeat (constructor; [intros H; not_in_list H|]). constructor. }
  split; [exact Hh|]. split; [exact Hwf|]. split; [exact Hnodup|].
  destruct (send_fifo Examples.queue ["m6"; "m7"] None _ Hh Hwf Hnodup)
    as (Hfetch & _).
  rewrite Hfetch. vm_compute. reflexivity.
Defined.

Lemma queues_share_one_table_witness :
  let other := SqliteQueue.mk "other" in
  healthy Examples.queued
  /\ fst (SqliteQueue.fetchPending Examples.queue None
            (snd (SqliteQueue.send other "m6" Examples.queued)))
     = fst (SqliteQueue.fetchPending Examples.queue None Examples.queued)
  /\ exists r,
       find_row 1 (snd (SqliteQueue.markProcessed other 1 Examples.queued))
       = Some r
       /\ row_queue_name r = "DP1_WRITE_QUEUE"
       /\ entry_state r = Some Processed.
Proof.
  intros other.
  assert (healthy Examples.queued) as Hh by reflexivity.
  split; [exact Hh|].
  destruct (queues_share_one_table Examples.queue other _ Hh) as [Hsend Hmark].
  split; [apply Hsend; discriminate|].
  destruct (Hmark 1 "" (mkRow 1 "DP1_WRITE_QUEUE" "m1" 1700000000000 0 0 3 None))
    as (Hprocessed & _); [vm_compute; reflexivity|].
  eexists. split; [exact Hprocessed|]. split; reflexivity.
Defined.

Lemma tick_never_throws_witness :
  let busy :=
    SqliteQueueProvider.mk Examples.queue true "http://localhost:8787"
      "test-secret" in
  let w := mkWorld Examples.queued [] [] in
  SqliteQueueProvider.tick busy w = (JS.Normal busy, w)
  /\ exists w',
       SqliteQueueProvider.tick Examples.provider w
       = (JS.Normal Examples.provider, w')
       /\ entries_kept (database w) (database w')
       /\ requests w' = [].
Proof.
  intros busy w.
  split.
  - destruct (tick_never_throws busy w) as (w' & sent & Hrun & _ & _ & _ & _ & _ & Hbusy).
    rewrite Hrun. by rewrite Hbusy.
  - destruct (tick_never_throws Examples.provider w)
      as (w' & sent & Hrun & Hkept & _ & _ & Hrequests & _).
    exists w'. split; [exact Hrun|]. split; [exact Hkept|].
    assert (requests w' = []) as Hnone; [|exact Hnone].
    assert (requests (snd (SqliteQueueProvider.tick Examples.provider w)) = [])
      as Hcomputed by (vm_compute; reflexivity).
    by rewrite Hrun in Hcomputed.
Defined.

Lemma tick_marks_each_entry_witness :
  let w :=
    mkWorld
      (snd (SqliteQueue.send Examples.queue Examples.valid Examples.queued))
      [Resolves (Response.mk true 200 Examples.success_true)] [] in
  let w' := snd (SqliteQueueProvider.tick Examples.provider w) in
  let sent :=
    mkRow 6 "DP1_WRITE_QUEUE" Examples.valid 1700000000000 0 0 3 None in
  let first := mkRow 1 "DP1_WRITE_QUEUE" "m1" 1700000000000 0 0 3 None in
  SqliteQueueProvider.processing Examples.provider = false
  /\ healthy (database w)
  /\ NoDup (row_id <$> write_queue (database w))
  /\ healthy (database w')
  /\ length (requests w') = 1%nat
  /\ network w' = []
  /\ find_row 6 (database w') = Some (SqliteQueue.set_processed sent)
  /\ (exists reason,
        find_row 1 (database w') = Some (SqliteQueue.set_failed reason first))
  /\ find_row 2 (database w') = find_row 2 (database w).
Proof.
  intros w w' sent first.
  assert (healthy (database w)) as Hh by reflexivity.
  assert (NoDup (row_id <$> write_queue (database w))) as Hnodup.
  { assert (row_id <$> write_queue (database w) = [1; 2; 3; 4; 5; 6]) as ->
      by (vm_compute; reflexivity).
    repeat (constructor; [intros H; not_in_list H|]). constructor. }
  split; [reflexivity|]. split; [exact Hh|]. split; [exact Hnodup|].
  destruct (tick_marks_each_entry Examples.provider w eq_refl Hh Hnodup)
    as (Hh' & Hrequests & Hnetwork & Hasked & Hrest & Hothers).
  fold w' in Hh', Hrequests, Hnetwork, Hasked, Hrest, Hothers.
  assert (write_queue (database w)
          = first :: take 4 (drop 1 (write_queue (database w))) ++ [sent])
    as Hrows by (vm_compute; reflexivity).
  assert (pending_page
            (SqliteQueue.name (SqliteQueueProvider.writeQueue Examples.provider))
            10 (write_queue (database w))
          = [SqliteQueue.project first; PendingRow.mk 3 "m3" 1;
             PendingRow.mk 5 "m5" 0; SqliteQueue.project sent]) as Hpage
    by (vm_compute; reflexivity).
  rewrite Hpage in Hrequests, Hnetwork, Hasked, Hrest, Hothers.
  assert (filter (fun row => deliverable (PendingRow.message row) = true)
            [SqliteQueue.project first; PendingRow.mk 3 "m3" 1;
             PendingRow.mk 5 "m5" 0; SqliteQueue.project sent]
          = [SqliteQueue.project sent]) as Hdeliverable
    by (vm_compute; reflexivity).
  rewrite Hdeliverable in Hrequests, Hnetwork, Hasked.
  split; [exact Hh'|].
  split; [rewrite Hrequests; reflexivity|].
  split; [rewrite Hnetwork; reflexivity|].
  split; [|split].
  - assert (sent ∈ write_queue (database w)) as Hin.
    { rewrite Hrows. apply elem_of_cons. right. apply elem_of_app. right.
      apply elem_of_cons. by left. }
    pose proof (Hasked 0%nat sent Hin eq_refl) as Hverdict.
    assert (from_option acknowledges false (network w !! 0%nat) = true) as Hack
      by (vm_compute; reflexivity).
    rewrite Hack in Hverdict. exact Hverdict.
  - assert (first ∈ write_queue (database w)) as Hin.
    { rewrite Hrows. apply elem_of_cons. by left. }
    apply (Hrest first Hin).
    + apply elem_of_cons. by left.
    + vm_compute. reflexivity.
  - apply Hothers. intros H. not_in_list H.
Defined.

Lemma three_batches_settle_the_page_witness :
  let w := mkWorld Examples.queued [] [] in
  let r := mkRow 1 "DP1_WRITE_QUEUE" "m1" 1700000000000 0 0 3 None in
  let busy := [false; true; true; false; false; true] in
  healthy (database w)
  /\ NoDup (row_id <$> write_queue (database w))
  /\ r ∈ write_queue (database w)
  /\ SqliteQueue.project r
       ∈ pending_page
           (SqliteQueue.name (SqliteQueueProvider.writeQueue Examples.provider))
           10 (write_queue (database w))
  /\ row_max_attempts r - row_attempts r <= 3
  /\ (3 <= length (filter (fun found_busy => found_busy = false) busy))%nat
  /\ exists r',
       find_row 1 (database (firings Examples.provider busy w)) = Some r'
       /\ (entry_state r' = Some Processed \/ entry_state r' = Some Dead).
Proof.
  intros w r busy.
  assert (healthy (database w)) as Hh by reflexivity.
  assert (NoDup (row_id <$> write_queue (database w))) as Hnodup.
  { assert (row_id <$> write_queue (database w) = [1; 2; 3; 4; 5]) as ->
      by (vm_compute; reflexivity).
    repeat (constructor; [intros H; not_in_list H|]). constructor. }
  assert (r ∈ write_queue (database w)) as Hin.
  { assert (write_queue (database w)
            = r :: drop 1 (write_queue (database w))) as ->
      by (vm_compute; reflexivity).
    apply elem_of_cons. by left. }
  assert (SqliteQueue.project r
            ∈ pending_page
                (SqliteQueue.name (SqliteQueueProvider.writeQueue Examples.provider))
                10 (write_queue (database w))) as Hpage.
  { assert (pending_page
              (SqliteQueue.name (SqliteQueueProvider.writeQueue Examples.provider))
              10 (write_queue (database w))
            = [PendingRow.mk 1 "m1" 0; PendingRow.mk 3 "m3" 1;
               PendingRow.mk 5 "m5" 0]) as -> by (vm_compute; reflexivity).
    apply elem_of_cons. by left. }
  assert (row_max_attempts r - row_attempts r <= 3) as Hleft by (simpl; lia).
  assert (3 <= length (filter (fun found_busy => found_busy = false) busy))%nat
    as Hthree by (vm_compute; lia).
  split; [exact Hh|]. split; [exact Hnodup|].
  split; [exact Hin|]. split; [exact Hpage|]. split; [exact Hleft|].
  split; [exact Hthree|].
  exact (three_batches_settle_the_page Examples.provider busy w r Hh Hnodup
           Hin Hpage Hleft Hthree).
Defined.

Lemma middleware_answers_failures_witness :
  let s :=
    mkHandling Examples.initialized (Context.mk Examples.bindings None None) in
  let next : M Handling unit := throw (JS.Error "Error" "handler failed") in
  Context.var_env (c s) = None
  /\ exists s' reply,
       sqliteEnvMiddleware next s = (JS.Normal tt, s')
       /\ Context.res (c s') = Some reply
       /\ Reply.status reply = 500
       /\ JS.JSON_parse (Reply.body reply)
          = JS.Normal
              (record_value
                 [("error", "initialization_error");
                  ("message", "Failed to initialize SQLite environment");
                  ("details", "handler failed")]).
Proof.
  intros s next.
  split; [reflexivity|].
  destruct (middleware_answers_failures next s) as [_ Hnone].
  destruct (Hnone eq_refl) as (s' & Hrun & Hcases).
  assert (forall env s1, next (with_env env s1) <> (JS.Normal tt, s')) as Hthrows
    by (intros env s1; discriminate).
  destruct Hcases as [(env & s1 & _ & Hnext)|Hfails].
  { exfalso. exact (Hthrows env s1 Hnext). }
  destruct Hfails
    as (error & s1 & reply & Hwhy & _ & _ & Hres & Hstatus & _ & Hbody).
  exists s', reply. split; [exact Hrun|]. split; [exact Hres|].
  split; [exact Hstatus|].
  destruct Hwhy as [Hinit|(env & s0 & _ & Hnext)].
  { exfalso.
    assert (exists env s1,
              on_process (initializeSqliteEnv (Context.env (c s))) s
              = (JS.Normal env, s1)) as (env & s2 & Hok)
      by (eexists _, _; vm_compute; reflexivity).
    rewrite Hok in Hinit. discriminate Hinit. }
  injection Hnext as <- _. exact Hbody.
Defined.

Lemma middleware_missing_path_witness :
  let s := mkHandling Examples.fresh (Context.mk Examples.no_path None None) in
  let next : M Handling unit := ret tt in
  (SqliteBindings.SQLITE_DB_PATH (Context.env (c s)) = None
   \/ SqliteBindings.SQLITE_DB_PATH (Context.env (c s)) = Some "")
  /\ Context.var_env (c s) = None
  /\ exists reply,
       sqliteEnvMiddleware next s
       = (JS.Normal tt,
          mkHandling Examples.fresh
            (Context.mk Examples.no_path None (Some reply)))
       /\ Reply.status reply = 500.
Proof.
  intros s next.
  assert (SqliteBindings.SQLITE_DB_PATH (Context.env (c s)) = None
          \/ SqliteBindings.SQLITE_DB_PATH (Context.env (c s)) = Some "")
    as Hpath by (left; reflexivity).
  split; [exact Hpath|]. split; [reflexivity|].
  destruct (middleware_missing_path next s Hpath eq_refl)
    as (reply & Hrun & Hstatus & _).
  exists reply. split; [exact Hrun | exact Hstatus].
Defined.

Lemma initializeSqliteEnv_opens_once_witness :
  initializeSqliteEnv Examples.no_path Examples.fresh
  = (JS.Throw
       (JS.Error "Error" "Missing required SQLite configuration: SQLITE_DB_PATH"),
     Examples.fresh)
  /\ opened (initializeSqliteEnv Examples.bindings Examples.fresh).2 = [":memory:"]
  /\ opened (initializeSqliteEnv Examples.bindings Examples.initialized).2
     = [":memory:"].
Proof.
  split.
  - destruct (initializeSqliteEnv_opens_once Examples.no_path Examples.fresh)
      as [Hmissing _].
    apply Hmissing. by left.
  - destruct (initializeSqliteEnv_opens_once Examples.bindings Examples.fresh)
      as [_ Hfresh].
    destruct (initializeSqliteEnv_opens_once Examples.bindings Examples.initialized)
      as [_ Hagain].
    split.
    + rewrite (Hfresh ":memory:" eq_refl); [reflexivity | discriminate].
    + rewrite (Hagain ":memory:" eq_refl); [reflexivity | discriminate].
Defined.

Lemma initializeSqliteEnv_singleton_witness :
  let again :=
    SqliteBindings.mk "other-secret" "other-key" None None None None
      (Some "/tmp/other.db") None None in
  exists env p',
    initializeSqliteEnv Examples.bindings Examples.fresh = (JS.Normal env, p')
    /\ (exists dbPath,
          SqliteBindings.SQLITE_DB_PATH again = Some dbPath /\ dbPath <> "")
    /\ (exists env',
          initializeSqliteEnv again p' = (JS.Normal env', p')
          /\ Env.API_SECRET env' = "other-secret"
          /\ Env.storageProvider env' = Env.storageProvider env
          /\ Env.queueProvider env' = Env.queueProvider env)
    /\ opened p' = [":memory:"]
    /\ getSqliteQueueProvider p' = Some (Env.queueProvider env).
Proof.
  intros again.
  assert (exists env p',
            initializeSqliteEnv Examples.bindings Examples.fresh
            = (JS.Normal env, p') /\ opened p' = [":memory:"])
    as (env & p' & Hfirst & Hopened)
    by (eexists _, _; split; vm_compute; reflexivity).
  assert (exists dbPath,
            SqliteBindings.SQLITE_DB_PATH again = Some dbPath /\ dbPath <> "")
    as Hpath by (eexists; split; [reflexivity | discriminate]).
  exists env, p'. split; [exact Hfirst|]. split; [exact Hpath|].
  destruct (initializeSqliteEnv_singleton Examples.bindings again _ env p'
              Hfirst Hpath) as [Hagain Hget].
  split; [|split; [exact Hopened | exact Hget]].
  eexists. split; [exact Hagain|]. by repeat split.
Defined.

Lemma provider_constructor_keeps_rows_witness :
  healthy Examples.storage
  /\ exists db',
       snd (SqliteStorageProvider.constructor Examples.storage) = db'
       /\ healthy db'
       /\ fst (SqliteKVStorage.get (SqliteKVStorage.mk "playlists") "a" None db')
          = JS.Normal (JS.Str "1")
       /\ fst (SqliteKVStorage.get (SqliteKVStorage.mk "playlist_items") "a" None
                 db')
          = JS.Normal JS.Null.
Proof.
  assert (healthy Examples.storage) as Hh by reflexivity.
  split; [exact Hh|].
  destruct (provider_constructor_keeps_rows _ Hh)
    as (db' & Hrun & Hh' & _ & _ & _ & Hget).
  exists db'. rewrite Hrun. split; [reflexivity|]. split; [exact Hh'|].
  split.
  - rewrite (Hget "playlists" "a"); [vm_compute; reflexivity | in_list].
  - rewrite (Hget "playlist_items" "a"); [vm_compute; reflexivity | in_list].
Defined.

Lemma initializeSqliteEnv_fresh_witness :
  SqliteBindings.SQLITE_DB_PATH Examples.bindings = Some ":memory:"
  /\ ":memory:" <> ""
  /\ storageProvider Examples.fresh = None
  /\ queueProvider Examples.fresh = None
  /\ openings Examples.fresh = [Opens Examples.empty]
  /\ healthy Examples.empty
  /\ exists env p',
       initializeSqliteEnv Examples.bindings Examples.fresh = (JS.Normal env, p')
       /\ opened p' = [":memory:"]
       /\ length (handles p') = 1%nat
       /\ StorageProviderObject.db (Env.storageProvider env) = 0%nat
       /\ QueueProviderObject.db <$> objects p' !! Env.queueProvider env
          = Some 0%nat.
Proof.
  split; [reflexivity|]. split; [discriminate|]. split; [reflexivity|].
  split; [reflexivity|]. split; [reflexivity|]. split; [reflexivity|].
  eexists _, _. split.
  - apply (initializeSqliteEnv_fresh Examples.bindings ":memory:" Examples.empty []
             Examples.fresh); [reflexivity | discriminate | reflexivity..].
  - by repeat split.
Defined.

Lemma closeSqliteConnections_resets_witness :
  (forall queue,
     queueProvider Examples.initialized = Some queue ->
     is_Some (objects Examples.initialized !! queue))
  /\ exists p',
       closeSqliteConnections Examples.initialized = (JS.Normal tt, p')
       /\ getSqliteQueueProvider p' = None
       /\ handles p' = [None]
       /\ Timers.active (timers p') = []
       /\ closeSqliteConnections p' = (JS.Normal tt, p').
Proof.
  assert (forall queue,
            queueProvider Examples.initialized = Some queue ->
            is_Some (objects Examples.initialized !! queue)) as Href.
  { intros queue [= <-]. by eexists. }
  split; [exact Href|].
  destruct (closeSqliteConnections_resets _ Href)
    as (p' & Hrun & _ & _ & Hget & _ & _ & Hhandles & Hqueue & Hagain).
  exists p'. split; [exact Hrun|]. split; [exact Hget|].
  split; [rewrite Hhandles; reflexivity|].
  split; [|exact Hagain].
  simpl in Hqueue. destruct Hqueue as (this & Hthis & _ & _ & Hactive).
  injection Hthis as <-. rewrite Hactive. vm_compute. reflexivity.
Defined.

Lemma stopProcessing_clears_last_only_witness :
  let this := QueueProviderObject.mk Examples.provider 0 None in
  let timers := Timers.mk [(1%nat, 1000)] 1 in
  Forall (fun timer => (timer.1 <= Timers.issued timers)%nat)
         (Timers.active timers)
  /\ snd ((let* this1 :=
             QueueProviderObject.startProcessing this "http://localhost:8787"
               "test-secret" None in
           QueueProviderObject.stopProcessing this1) timers)
     = Timers.mk [(1%nat, 1000)] 2
  /\ snd ((let* this1 :=
             QueueProviderObject.startProcessing this "http://localhost:8787"
               "test-secret" None in
           let* this2 :=
             QueueProviderObject.startProcessing this1 "http://localhost:8787"
               "test-secret" (Some 50) in
           let* this3 := QueueProviderObject.stopProcessing this2 in
           QueueProviderObject.stopProcessing this3) timers)
     = Timers.mk [(1%nat, 1000); (2%nat, 1000)] 3.
Proof.
  intros this timers.
  assert (Forall (fun timer => (timer.1 <= Timers.issued timers)%nat)
                 (Timers.active timers)) as Hissued.
  { constructor; [simpl; lia | constructor]. }
  split; [exact Hissued|].
  destruct (stopProcessing_clears_last_only this timers "http://localhost:8787"
              "test-secret" None "http://localhost:8787" "test-secret" (Some 50)
              Hissued) as [Hone Htwo].
  split; [rewrite Hone | rewrite Htwo]; reflexivity.
Defined.

Lemma get_json_reads_back_witness :
  let this := SqliteKVStorage.mk "playlists" in
  let json := Some (KVGetOptions.mk (Some "json")) in
  let fields := [("dpVersion", "1.0.0"); ("title", "a \ b")] in
  healthy Examples.storage
  /\ tables Examples.storage !! Sqlite.canonical (SqliteKVStorage.tableName this)
     = Some {[ "a" := "1"; "b" := "2" ]}
  /\ fst (SqliteKVStorage.get this "p"
            json (snd (SqliteKVStorage.put this "p" (JS.stringify_record fields)
                         Examples.storage)))
     = JS.Normal (record_value fields)
  /\ fst (SqliteKVStorage.get this "p"
            None (snd (SqliteKVStorage.put this "p" (JS.stringify_record fields)
                         Examples.storage)))
     = JS.Normal (JS.Str (JS.stringify_record fields))
  /\ exists e,
       fst (SqliteKVStorage.get this "p"
              json (snd (SqliteKVStorage.put this "p" "not json"
                           Examples.storage)))
       = JS.Throw e.
Proof.
  intros this json fields.
  assert (healthy Examples.storage) as Hh by reflexivity.
  assert (tables Examples.storage
            !! Sqlite.canonical (SqliteKVStorage.tableName this)
          = Some {[ "a" := "1"; "b" := "2" ]}) as Ht by (vm_compute; reflexivity).
  split; [exact Hh|]. split; [exact Ht|].
  destruct (get_json_reads_back this "p" (JS.stringify_record fields) None _ _
              Hh Ht) as (Htext & _ & Hrecord).
  destruct (get_json_reads_back this "p" "not json" json _ _ Hh Ht)
    as (Hbad & _).
  split; [unfold json; by rewrite (Hrecord fields eq_refl)|].
  split; [by rewrite Htext|].
  rewrite Hbad. eexists. vm_compute. reflexivity.
Defined.
